(** * VaultVerse security core: cipher, hasher, sessions, lockout, export codec

    A shallow embedding of the server-side security code of the repository
    (utils/encryption.js, utils/jwt.js, middleware/auth.js,
    controllers/authController.js, controllers/exportController.js,
    db/database.js and the SQLite schema), with the properties its
    specification states about it.

    Conventions.
    - A JavaScript string is a [string] of one-byte code units, except the
      plaintext of the secret cipher, which is a list of UTF-16 code units
      ([Utf16.text]); a Buffer is a [list byte].
    - A call that may throw returns a [js_result].
    - Instants are milliseconds since the epoch, in [Z].  A datetime that a
      statement compares inside SQLite is kept with the shape of its text
      ([Db.datetime_text]), since SQLite compares it as text.
    - The store is better-sqlite3, whose SQLite reads a double-quoted token
      as an identifier: a statement that writes [datetime("now")] names a
      column [now] that no table has, and throws when it is prepared.
    - Third-party primitives (AES from node:crypto, bcrypt, jsonwebtoken,
      CryptoJS, JSON) are Section variables; what is assumed of them is
      written as a hypothesis of the theorem that needs it.
    - Random draws (the IV, the CryptoJS salt) and the clock are arguments. *)

From Stdlib Require Import String Ascii List ZArith NArith Bool Lia.
From Stdlib Require Import Init.Byte DecimalString.
Import ListNotations.

Local Open Scope list_scope.
Local Open Scope string_scope.

(** ** Results of calls that may throw *)

Inductive js_result (A : Type) : Type :=
| Returns (v : A)
| Throws (message : string).

Arguments Returns {A} v.
Arguments Throws {A} message.

Definition is_returns {A} (r : js_result A) : bool :=
  match r with Returns _ => true | Throws _ => false end.

(** ** JavaScript string helpers *)

Module JsString.

(** [!s] for a string: only the empty string is falsy. *)
Definition falsy (s : string) : bool :=
  match s with EmptyString => true | String _ _ => false end.

(** [s.includes(c)] for a one-character needle. *)
Fixpoint includes (c : ascii) (s : string) : bool :=
  match s with
  | EmptyString => false
  | String a rest => Ascii.eqb a c || includes c rest
  end.

(** [s.split(c)] for a one-character separator. *)
Fixpoint split (c : ascii) (s : string) : list string :=
  match s with
  | EmptyString => [EmptyString]
  | String a rest =>
      if Ascii.eqb a c then EmptyString :: split c rest
      else match split c rest with
           | [] => [String a EmptyString]
           | p :: ps => String a p :: ps
           end
  end.

(** [parts[i]], with [undefined] as [None]. *)
Definition index (parts : list string) (i : nat) : option string :=
  nth_error parts i.

Lemma includes_app c s t :
  includes c (s ++ t) = includes c s || includes c t.
Proof.
  induction s as [|a s IH]; simpl; [reflexivity|].
  now rewrite IH, orb_assoc.
Qed.

Lemma split_no_sep c s :
  includes c s = false -> split c s = [s].
Proof.
  induction s as [|a s IH]; simpl; [reflexivity|].
  intros H. apply orb_false_iff in H as [Ha Hs].
  rewrite Ha, (IH Hs). reflexivity.
Qed.

Lemma split_app_sep c s t :
  includes c s = false ->
  split c (s ++ String c t) = s :: split c t.
Proof.
  induction s as [|a s IH]; simpl; intros H.
  - now rewrite Ascii.eqb_refl.
  - apply orb_false_iff in H as [Ha Hs].
    rewrite Ha, (IH Hs). reflexivity.
Qed.

Lemma app_sep_inj c s1 t1 s2 t2 :
  includes c s1 = false -> includes c s2 = false ->
  s1 ++ String c t1 = s2 ++ String c t2 -> s1 = s2 /\ t1 = t2.
Proof.
  revert s2. induction s1 as [|a s1 IH]; intros [|b s2]; simpl; intros H1 H2 E.
  - now inversion E.
  - inversion E; subst. now rewrite Ascii.eqb_refl in H2.
  - inversion E; subst. now rewrite Ascii.eqb_refl in H1.
  - apply orb_false_iff in H1 as [_ H1]. apply orb_false_iff in H2 as [_ H2].
    inversion E; subst. destruct (IH _ H1 H2 H3) as [-> ->]. now split.
Qed.

End JsString.

(** ** Hexadecimal encoding of buffers

  [buf.toString('hex')] and [Buffer.from(s, 'hex')]. *)

Module Hex.

(** The digit of a nibble, by character code: ['0'] is 48, ['a'] is 97. *)
Definition digit (n : N) : ascii :=
  ascii_of_N (if (n <? 10)%N then 48 + n else 87 + n)%N.

(** The nibble of a digit; both letter cases are read. *)
Definition value (c : ascii) : option N :=
  let n := N_of_ascii c in
  if ((48 <=? n) && (n <=? 57))%N then Some (n - 48)%N
  else if ((97 <=? n) && (n <=? 102))%N then Some (n - 87)%N
  else if ((65 <=? n) && (n <=? 70))%N then Some (n - 55)%N
  else None.

Definition ofByte (b : byte) : string :=
  let n := Byte.to_N b in
  String (digit (n / 16)) (String (digit (n mod 16)) EmptyString).

(** [buf.toString('hex')]: two lower-case digits per byte. *)
Fixpoint toHex (buf : list byte) : string :=
  match buf with
  | [] => EmptyString
  | b :: rest => ofByte b ++ toHex rest
  end.

(** [Buffer.from(s, 'hex')]: decodes pairs of digits and stops at the first
    pair that is not hexadecimal; a trailing single character is dropped. *)
Fixpoint fromHex (s : string) : list byte :=
  match s with
  | String h (String l rest) =>
      match value h, value l with
      | Some hi, Some lo =>
          match Byte.of_N (hi * 16 + lo) with
          | Some b => b :: fromHex rest
          | None => []
          end
      | _, _ => []
      end
  | _ => []
  end.

Lemma fromHex_ofByte b rest :
  fromHex (ofByte b ++ rest) = b :: fromHex rest.
Proof. destruct b; reflexivity. Qed.

Lemma toHex_cons b buf : toHex (b :: buf) = ofByte b ++ toHex buf.
Proof. reflexivity. Qed.

Lemma fromHex_toHex buf : fromHex (toHex buf) = buf.
Proof.
  induction buf as [|b buf IH]; [reflexivity|].
  now rewrite toHex_cons, fromHex_ofByte, IH.
Qed.

Lemma ofByte_no_colon b : JsString.includes ":" (ofByte b) = false.
Proof. destruct b; reflexivity. Qed.

Lemma toHex_no_colon buf : JsString.includes ":" (toHex buf) = false.
Proof.
  induction buf as [|b buf IH]; [reflexivity|].
  now rewrite toHex_cons, JsString.includes_app, ofByte_no_colon, IH.
Qed.

Lemma toHex_inj b1 b2 : toHex b1 = toHex b2 -> b1 = b2.
Proof.
  intros E. rewrite <- (fromHex_toHex b1), <- (fromHex_toHex b2).
  now rewrite E.
Qed.

Lemma toHex_length buf :
  String.length (toHex buf) = (2 * List.length buf)%nat.
Proof.
  induction buf as [|b buf IH]; [reflexivity|].
  rewrite toHex_cons. unfold ofByte. simpl. rewrite IH. lia.
Qed.

(** A hexadecimal text has an even number of digits. *)
Lemma toHex_even buf : Nat.odd (String.length (toHex buf)) = false.
Proof.
  rewrite toHex_length, Nat.odd_mul. reflexivity.
Qed.

End Hex.

(** ** Plaintext and its UTF-8 form

    The plaintext handed to the cipher is a JavaScript string: UTF-16 code
    units, numbers below 65536.  [cipher.update(plaintext, 'utf8', 'hex')]
    encodes it as UTF-8, and a surrogate that has no partner is encoded as
    U+FFFD is. *)

Module Utf16.
Local Open Scope N_scope.

Definition text : Type := list N.

(** Every element is a code unit. *)
Definition code_units (s : text) : bool := forallb (fun u => u <? 65536) s.

(** [!s]: only the empty string is falsy. *)
Definition falsy (s : text) : bool :=
  match s with [] => true | _ :: _ => false end.

Definition high_surrogate (u : N) : bool := (55296 <=? u) && (u <=? 56319).
Definition low_surrogate (u : N) : bool := (56320 <=? u) && (u <=? 57343).
Definition replacement : N := 65533.

(** No surrogate stands alone: a high one is followed by a low one, and a
    low one follows a high one. *)
Fixpoint well_formed (s : text) : bool :=
  match s with
  | [] => true
  | u :: rest =>
      if high_surrogate u then
        match rest with
        | l :: rest' => low_surrogate l && well_formed rest'
        | [] => false
        end
      else negb (low_surrogate u) && (u <? 65536) && well_formed rest
  end.

(** The text with U+FFFD in the place of every surrogate that stands
    alone. *)
Fixpoint scrub (s : text) : text :=
  match s with
  | [] => []
  | u :: rest =>
      if high_surrogate u then
        match rest with
        | l :: rest' =>
            if low_surrogate l then u :: l :: scrub rest'
            else replacement :: scrub rest
        | [] => [replacement]
        end
      else if low_surrogate u then replacement :: scrub rest
      else u :: scrub rest
  end.

(** A string of one-byte code units as a text, and back when every code
    unit of the text is below 256. *)
Definition of_string (s : string) : text :=
  map N_of_ascii (list_ascii_of_string s).

Fixpoint to_string (s : text) : option string :=
  match s with
  | [] => Some EmptyString
  | u :: rest =>
      if u <? 256 then option_map (String (ascii_of_N u)) (to_string rest)
      else None
  end.

End Utf16.

Module Utf8.
Import Utf16.
Local Open Scope N_scope.
Local Open Scope list_scope.

(** The byte with the value [n], for [n] below 256. *)
Definition byte_of (n : N) : byte :=
  match Byte.of_N (n mod 256) with Some b => b | None => x00 end.

(** The one to four bytes of a code point. *)
Definition encode_scalar (c : N) : list N :=
  if c <? 128 then [c]
  else if c <? 2048 then [192 + c / 64; 128 + c mod 64]
  else if c <? 65536 then
    [224 + c / 4096; 128 + (c / 64) mod 64; 128 + c mod 64]
  else [240 + c / 262144; 128 + (c / 4096) mod 64; 128 + (c / 64) mod 64;
        128 + c mod 64].

(** The code point of a surrogate pair. *)
Definition pair_scalar (hi lo : N) : N :=
  65536 + (hi - 55296) * 1024 + (lo - 56320).

Fixpoint encode_units (s : text) : list N :=
  match s with
  | [] => []
  | u :: rest =>
      if high_surrogate u then
        match rest with
        | l :: rest' =>
            if low_surrogate l
            then encode_scalar (pair_scalar u l) ++ encode_units rest'
            else encode_scalar replacement ++ encode_units rest
        | [] => encode_scalar replacement
        end
      else if low_surrogate u then encode_scalar replacement ++ encode_units rest
      else encode_scalar u ++ encode_units rest
  end.

(** The ['utf8'] input encoding of the cipher stream. *)
Definition encode (s : text) : list byte := map byte_of (encode_units s).

(** *** A decoder

    The ['utf8'] output encoding of the decipher stream is a variable of the
    cipher; the function below is the instance used to run it.  It reads
    well-formed UTF-8; a byte it cannot read becomes U+FFFD, which is all
    that is said here about other input. *)

Definition continuation (b : N) : bool := (128 <=? b) && (b <=? 191).

Definition units_of_scalar (c : N) : text :=
  if c <? 65536 then [c]
  else [55296 + (c - 65536) / 1024; 56320 + (c - 65536) mod 1024].

Definition two (b0 b1 : N) : N := (b0 - 192) * 64 + (b1 - 128).
Definition three (b0 b1 b2 : N) : N :=
  ((b0 - 224) * 64 + (b1 - 128)) * 64 + (b2 - 128).
Definition four (b0 b1 b2 b3 : N) : N :=
  (((b0 - 240) * 64 + (b1 - 128)) * 64 + (b2 - 128)) * 64 + (b3 - 128).

Definition reads_two (b0 b1 : N) : bool :=
  (194 <=? b0) && (b0 <=? 223) && continuation b1.
Definition reads_three (b0 b1 b2 : N) : bool :=
  (224 <=? b0) && (b0 <=? 239) && continuation b1 && continuation b2
  && (2048 <=? three b0 b1 b2)
  && negb ((55296 <=? three b0 b1 b2) && (three b0 b1 b2 <=? 57343)).
Definition reads_four (b0 b1 b2 b3 : N) : bool :=
  (240 <=? b0) && (b0 <=? 244) && continuation b1 && continuation b2
  && continuation b3
  && (65536 <=? four b0 b1 b2 b3) && (four b0 b1 b2 b3 <=? 1114111).

Fixpoint decode_bytes (bs : list N) : text :=
  match bs with
  | [] => []
  | b0 :: r0 =>
      if b0 <? 128 then b0 :: decode_bytes r0
      else
        match r0 with
        | b1 :: r1 =>
            if reads_two b0 b1 then two b0 b1 :: decode_bytes r1
            else
              match r1 with
              | b2 :: r2 =>
                  if reads_three b0 b1 b2
                  then three b0 b1 b2 :: decode_bytes r2
                  else
                    match r2 with
                    | b3 :: r3 =>
                        if reads_four b0 b1 b2 b3
                        then units_of_scalar (four b0 b1 b2 b3)
                             ++ decode_bytes r3
                        else replacement :: decode_bytes r0
                    | [] => replacement :: decode_bytes r0
                    end
              | [] => replacement :: decode_bytes r0
              end
        | [] => [replacement]
        end
  end.

Definition decode (bs : list byte) : text := decode_bytes (map Byte.to_N bs).

(** Strict decoding, as [decodeURIComponent] does it: nothing is returned
    for bytes that are not the UTF-8 form of code points. *)
Fixpoint decode_strict (bs : list N) : option text :=
  match bs with
  | [] => Some []
  | b0 :: r0 =>
      if b0 <? 128 then option_map (cons b0) (decode_strict r0)
      else
        match r0 with
        | b1 :: r1 =>
            if reads_two b0 b1
            then option_map (cons (two b0 b1)) (decode_strict r1)
            else
              match r1 with
              | b2 :: r2 =>
                  if reads_three b0 b1 b2
                  then option_map (cons (three b0 b1 b2)) (decode_strict r2)
                  else
                    match r2 with
                    | b3 :: r3 =>
                        if reads_four b0 b1 b2 b3
                        then option_map
                               (app (units_of_scalar (four b0 b1 b2 b3)))
                               (decode_strict r3)
                        else None
                    | [] => None
                    end
              | [] => None
              end
        | [] => None
        end
  end.


Ltac div_lia := zify; Z.to_euclidean_division_equations; lia.

Lemma decode_bytes_one b0 r0 :
  (b0 <? 128) = true -> decode_bytes (b0 :: r0) = b0 :: decode_bytes r0.
Proof. intros H. simpl. now rewrite H. Qed.

Lemma decode_bytes_two b0 b1 r1 :
  (b0 <? 128) = false -> reads_two b0 b1 = true ->
  decode_bytes (b0 :: b1 :: r1) = two b0 b1 :: decode_bytes r1.
Proof. intros H0 H2. simpl. now rewrite H0, H2. Qed.

Lemma decode_bytes_three b0 b1 b2 r2 :
  (b0 <? 128) = false -> reads_two b0 b1 = false ->
  reads_three b0 b1 b2 = true ->
  decode_bytes (b0 :: b1 :: b2 :: r2) = three b0 b1 b2 :: decode_bytes r2.
Proof. intros H0 H2 H3. simpl. now rewrite H0, H2, H3. Qed.

Lemma decode_bytes_four b0 b1 b2 b3 r3 :
  (b0 <? 128) = false -> reads_two b0 b1 = false ->
  reads_three b0 b1 b2 = false -> reads_four b0 b1 b2 b3 = true ->
  decode_bytes (b0 :: b1 :: b2 :: b3 :: r3)
  = units_of_scalar (four b0 b1 b2 b3) ++ decode_bytes r3.
Proof. intros H0 H2 H3 H4. simpl. now rewrite H0, H2, H3, H4. Qed.

Ltac to_props :=
  repeat match goal with
         | |- _ && _ = true => apply andb_true_iff; split
         | |- negb _ = true => apply negb_true_iff
         | |- (_ <=? _) = true => apply N.leb_le
         | |- (_ <? _) = true => apply N.ltb_lt
         | |- (_ <? _) = false => apply N.ltb_ge
         | |- (_ <=? _) = false => apply N.leb_gt
         end.

(** A scalar value: a code point that is not a surrogate. *)
Definition scalar (c : N) : Prop := (c < 55296 \/ 57343 < c) /\ c <= 1114111.

Lemma decode_scalar c rest :
  scalar c ->
  decode_bytes (encode_scalar c ++ rest) = units_of_scalar c ++ decode_bytes rest.
Proof.
  intros [Hs Hmax]. unfold encode_scalar.
  destruct (N.ltb_spec c 128) as [H1|H1]; [|destruct (N.ltb_spec c 2048)
    as [H2|H2]; [|destruct (N.ltb_spec c 65536) as [H3|H3]]].
  - unfold units_of_scalar.
    replace (c <? 65536) with true by (symmetry; to_props; lia).
    cbn [app]. rewrite decode_bytes_one; [reflexivity|to_props; lia].
  - unfold units_of_scalar.
    replace (c <? 65536) with true by (symmetry; to_props; lia).
    cbn [app]. rewrite decode_bytes_two.
    + f_equal. unfold two. div_lia.
    + to_props; div_lia.
    + unfold reads_two, continuation. to_props; div_lia.
  - unfold units_of_scalar.
    replace (c <? 65536) with true by (symmetry; to_props; lia).
    cbn [app]. rewrite decode_bytes_three.
    + f_equal. unfold three. div_lia.
    + to_props; div_lia.
    + unfold reads_two. apply andb_false_iff. left.
      apply andb_false_iff. right. to_props. div_lia.
    + unfold reads_three, continuation, three. to_props; try div_lia.
      apply andb_false_iff.
      destruct Hs as [Hs|Hs]; [left|right]; to_props; div_lia.
  - cbn [app]. rewrite decode_bytes_four.
    + f_equal. f_equal. unfold four. div_lia.
    + to_props; div_lia.
    + unfold reads_two. apply andb_false_iff. left.
      apply andb_false_iff. right. to_props. div_lia.
    + unfold reads_three. do 4 (apply andb_false_iff; left).
      apply andb_false_iff. right. to_props. div_lia.
    + unfold reads_four, continuation, four. to_props; div_lia.
Qed.

Lemma units_of_pair hi lo :
  high_surrogate hi = true -> low_surrogate lo = true ->
  scalar (pair_scalar hi lo) /\ units_of_scalar (pair_scalar hi lo) = [hi; lo].
Proof.
  unfold high_surrogate, low_surrogate, scalar, pair_scalar, units_of_scalar.
  intros Hh Hl.
  apply andb_true_iff in Hh as [H1 H2]. apply andb_true_iff in Hl as [H3 H4].
  apply N.leb_le in H1, H2, H3, H4.
  split; [lia|].
  replace (_ <? 65536) with false by (symmetry; to_props; lia).
  f_equal; [|f_equal]; div_lia.
Qed.

Lemma scalar_unit u :
  high_surrogate u = false -> low_surrogate u = false -> u < 65536 ->
  scalar u /\ units_of_scalar u = [u].
Proof.
  unfold high_surrogate, low_surrogate, scalar, units_of_scalar.
  intros Hh Hl Hu.
  replace (u <? 65536) with true by (symmetry; to_props; lia).
  split; [|reflexivity].
  apply andb_false_iff in Hh, Hl. rewrite !N.leb_gt in Hh, Hl. lia.
Qed.

(** Induction on a text by one code unit or two at a time. *)
Lemma text_ind2 (P : text -> Prop) :
  P [] ->
  (forall u rest, P rest -> (forall l rest', rest = l :: rest' -> P rest') ->
                  P (u :: rest)) ->
  forall s, P s.
Proof.
  intros Hnil Hcons s.
  enough (H : P s /\ forall l rest', s = l :: rest' -> P rest') by apply H.
  induction s as [|u rest [IH1 IH2]].
  - split; [exact Hnil|discriminate].
  - split; [now apply Hcons|]. intros l rest' E. now inversion E; subst.
Qed.

Lemma decode_encode_units (s : text) :
  well_formed s = true -> decode_bytes (encode_units s) = s.
Proof.
  induction s as [|u rest IH1 IH2] using text_ind2; [reflexivity|].
  cbn [well_formed encode_units].
  destruct (high_surrogate u) eqn:Hh.
  - destruct rest as [|l rest']; [discriminate|].
    intros H. apply andb_true_iff in H as [Hl Hw]. rewrite Hl.
    destruct (units_of_pair u l Hh Hl) as [Hs Hu].
    rewrite decode_scalar by exact Hs. rewrite Hu.
    cbn [app]. now rewrite (IH2 l rest' eq_refl Hw).
  - intros H. apply andb_true_iff in H as [H Hw].
    apply andb_true_iff in H as [Hl Hu].
    apply negb_true_iff in Hl. apply N.ltb_lt in Hu. rewrite Hl.
    destruct (scalar_unit u Hh Hl Hu) as [Hs Hun].
    rewrite decode_scalar by exact Hs. rewrite Hun.
    cbn [app]. now rewrite (IH1 Hw).
Qed.

Lemma encode_scalar_bytes c :
  c <= 1114111 -> Forall (fun b => b < 256) (encode_scalar c).
Proof.
  intros Hc. unfold encode_scalar.
  destruct (N.ltb_spec c 128); [repeat constructor; lia|].
  destruct (N.ltb_spec c 2048); [repeat constructor; div_lia|].
  destruct (N.ltb_spec c 65536); repeat constructor; div_lia.
Qed.

Lemma encode_units_bytes (s : text) :
  code_units s = true ->
  Forall (fun b => b < 256) (encode_units s).
Proof.
  induction s as [|u rest IH1 IH2] using text_ind2; [constructor|].
  unfold code_units in *. cbn [forallb encode_units]. intros H.
  apply andb_true_iff in H as [Hu Hrest]. apply N.ltb_lt in Hu.
  assert (Hrep : Forall (fun b => b < 256) (encode_scalar replacement))
    by (apply encode_scalar_bytes; unfold replacement; lia).
  destruct (high_surrogate u) eqn:Hh.
  - destruct rest as [|l rest']; [exact Hrep|].
    destruct (low_surrogate l) eqn:Hl.
    + apply Forall_app. split.
      * apply encode_scalar_bytes.
        destruct (units_of_pair u l Hh Hl) as [[_ Hmax] _]. exact Hmax.
      * apply (IH2 l rest' eq_refl). cbn [forallb] in Hrest.
        now apply andb_true_iff in Hrest as [_ Hrest].
    + apply Forall_app. split; [exact Hrep|now apply IH1].
  - destruct (low_surrogate u).
    + apply Forall_app. split; [exact Hrep|now apply IH1].
    + apply Forall_app. split; [apply encode_scalar_bytes; lia|now apply IH1].
Qed.

Lemma to_N_byte_of n : n < 256 -> Byte.to_N (byte_of n) = n.
Proof.
  intros Hn. unfold byte_of. rewrite N.mod_small by exact Hn.
  destruct (Byte.of_N n) as [b|] eqn:E.
  - now apply Byte.to_of_N.
  - apply Byte.of_N_None_iff in E. lia.
Qed.

Lemma well_formed_code_units (s : text) :
  well_formed s = true -> code_units s = true.
Proof.
  induction s as [|u rest IH1 IH2] using text_ind2; [reflexivity|].
  unfold code_units in *. cbn [well_formed forallb].
  destruct (high_surrogate u) eqn:Hh.
  - destruct rest as [|l rest']; [discriminate|]. intros H.
    apply andb_true_iff in H as [Hl Hw]. cbn [forallb].
    unfold high_surrogate in Hh. unfold low_surrogate in Hl.
    apply andb_true_iff in Hh as [_ Hh]. apply andb_true_iff in Hl as [_ Hl].
    apply N.leb_le in Hh, Hl.
    rewrite (IH2 l rest' eq_refl Hw).
    replace (u <? 65536) with true by (symmetry; to_props; lia).
    replace (l <? 65536) with true by (symmetry; to_props; lia).
    reflexivity.
  - intros H. apply andb_true_iff in H as [H Hw].
    apply andb_true_iff in H as [_ Hu]. now rewrite Hu, IH1.
Qed.

(** The decoder inverts the encoder on every well-formed text. *)
Lemma decode_encode (s : text) : well_formed s = true -> decode (encode s) = s.
Proof.
  intros Hw. unfold decode, encode. rewrite map_map.
  rewrite <- (decode_encode_units s Hw) at 2. f_equal.
  pose proof (encode_units_bytes s (well_formed_code_units s Hw)) as Hb.
  induction Hb as [|b l Hb _ IH]; [reflexivity|].
  cbn [map]. now rewrite to_N_byte_of, IH.
Qed.

(** Unpaired surrogates are encoded as U+FFFD is. *)
Lemma encode_scrub (s : text) : encode (scrub s) = encode s.
Proof.
  unfold encode. f_equal.
  induction s as [|u rest IH1 IH2] using text_ind2; [reflexivity|].
  cbn [scrub encode_units].
  destruct (high_surrogate u) eqn:Hh.
  - destruct rest as [|l rest']; [reflexivity|].
    destruct (low_surrogate l) eqn:Hl.
    + cbn [encode_units]. rewrite Hh, Hl. now rewrite (IH2 l rest' eq_refl).
    + cbn [encode_units]. change (high_surrogate replacement) with false.
      change (low_surrogate replacement) with false. cbv iota.
      now rewrite IH1.
  - destruct (low_surrogate u) eqn:Hl.
    + cbn [encode_units]. change (high_surrogate replacement) with false.
      change (low_surrogate replacement) with false. cbv iota.
      now rewrite IH1.
    + cbn [encode_units]. now rewrite Hh, Hl, IH1.
Qed.

Lemma scrub_well_formed (s : text) :
  code_units s = true -> well_formed (scrub s) = true.
Proof.
  induction s as [|u rest IH1 IH2] using text_ind2; [reflexivity|].
  unfold code_units in *. cbn [forallb scrub]. intros H.
  apply andb_true_iff in H as [Hu Hrest].
  destruct (high_surrogate u) eqn:Hh.
  - destruct rest as [|l rest']; [reflexivity|].
    cbn [forallb] in Hrest.
    destruct (low_surrogate l) eqn:Hl.
    + cbn [well_formed]. rewrite Hh, Hl.
      apply andb_true_iff in Hrest as [_ Hrest].
      now rewrite (IH2 l rest' eq_refl Hrest).
    + cbn [well_formed]. change (high_surrogate replacement) with false.
      cbv iota. change (low_surrogate replacement) with false.
      change (replacement <? 65536) with true. cbn [negb andb].
      now apply IH1.
  - destruct (low_surrogate u) eqn:Hl.
    + cbn [well_formed]. change (high_surrogate replacement) with false.
      cbv iota. change (low_surrogate replacement) with false.
      change (replacement <? 65536) with true. cbn [negb andb].
      now apply IH1.
    + cbn [well_formed]. rewrite Hh, Hl, Hu. cbn [negb andb]. now apply IH1.
Qed.

Lemma scrub_of_well_formed (s : text) : well_formed s = true -> scrub s = s.
Proof.
  induction s as [|u rest IH1 IH2] using text_ind2; [reflexivity|].
  cbn [well_formed scrub].
  destruct (high_surrogate u) eqn:Hh.
  - destruct rest as [|l rest']; [discriminate|]. intros H.
    apply andb_true_iff in H as [Hl Hw]. rewrite Hl.
    now rewrite (IH2 l rest' eq_refl Hw).
  - intros H. apply andb_true_iff in H as [H Hw].
    apply andb_true_iff in H as [Hl _]. apply negb_true_iff in Hl.
    now rewrite Hl, IH1.
Qed.

End Utf8.

(** ** AES-256-CBC

    The block cipher as FIPS 197 defines it, on bytes as numbers, with the
    PKCS#7 padding that node:crypto applies.  It is the instance with which
    the examples of the secret cipher and of the export codec are run; the
    theorems take the cipher as a variable. *)

Module Aes.
Local Open Scope N_scope.
Local Open Scope list_scope.

(** The blocks of [n] elements of a list. *)
Fixpoint chunks_fuel {A} (fuel n : nat) (l : list A) : list (list A) :=
  match fuel, l with
  | S fuel', _ :: _ => firstn n l :: chunks_fuel fuel' n (skipn n l)
  | _, _ => []
  end.

Definition chunks {A} (n : nat) (l : list A) : list (list A) :=
  chunks_fuel (List.length l) n l.

(** Multiplication in the field of 256 elements, modulo
    [x^8 + x^4 + x^3 + x + 1]. *)
Definition xtime (a : N) : N :=
  let b := 2 * a in if 256 <=? b then N.lxor b 283 else b.

Fixpoint gmul_fuel (fuel : nat) (a b : N) : N :=
  match fuel with
  | O => 0
  | S fuel' =>
      N.lxor (if N.odd b then a else 0) (gmul_fuel fuel' (xtime a) (b / 2))
  end.

Definition gmul (a b : N) : N := gmul_fuel 8 a b.

Fixpoint gpow (n : nat) (a : N) : N :=
  match n with
  | O => 1
  | S n' => gmul a (gpow n' a)
  end.

Definition rotl8 (x n : N) : N :=
  (N.lor (N.shiftl x n) (N.shiftr x (8 - n))) mod 256.

(** The S-box: the inverse in the field, then the affine map. *)
Definition sbox_value (x : N) : N :=
  let b := gpow 254 x in
  N.lxor b (N.lxor (rotl8 b 1) (N.lxor (rotl8 b 2)
    (N.lxor (rotl8 b 3) (N.lxor (rotl8 b 4) 99)))).

Definition sbox_table : list N :=
  Eval vm_compute in map (fun i => sbox_value (N.of_nat i)) (seq 0 256).

Fixpoint index_of (y : N) (l : list N) : N :=
  match l with
  | [] => 0
  | x :: rest => if x =? y then 0 else 1 + index_of y rest
  end.

Definition inverse_sbox_table : list N :=
  Eval vm_compute in
    map (fun i => index_of (N.of_nat i) sbox_table) (seq 0 256).

Definition sbox (x : N) : N := nth (N.to_nat x) sbox_table 0.
Definition inverse_sbox (x : N) : N := nth (N.to_nat x) inverse_sbox_table 0.

Definition xor_bytes (a b : list N) : list N :=
  map (fun p => N.lxor (fst p) (snd p)) (combine a b).

(** The key schedule, word by word. *)
Definition next_word (nk : nat) (ws : list (list N) * N) (i : nat)
  : list (list N) * N :=
  let '(w, rcon) := ws in
  let previous := nth (i - 1) w [] in
  let '(t, rcon') :=
    if (i mod nk =? 0)%nat then
      match map sbox (skipn 1 previous ++ firstn 1 previous) with
      | t0 :: rest => (N.lxor t0 rcon :: rest, xtime rcon)
      | [] => ([], rcon)
      end
    else if ((6 <? nk) && (i mod nk =? 4))%nat then (map sbox previous, rcon)
    else (previous, rcon) in
  (w ++ [xor_bytes (nth (i - nk) w []) t], rcon').

Definition round_keys (key : list N) : list (list N) :=
  let nk := (List.length key / 4)%nat in
  let nr := (nk + 6)%nat in
  let w := fst (fold_left (next_word nk) (seq nk (4 * (nr + 1) - nk))
                          (chunks 4 key, 1)) in
  map (@concat N) (chunks 4 w).

Definition permute (idx : list nat) (s : list N) : list N :=
  map (fun i => nth i s 0) idx.

(** The state is kept column by column. *)
Definition shift_rows : list N -> list N :=
  permute [0; 5; 10; 15; 4; 9; 14; 3; 8; 13; 2; 7; 12; 1; 6; 11]%nat.
Definition inverse_shift_rows : list N -> list N :=
  permute [0; 13; 10; 7; 4; 1; 14; 11; 8; 5; 2; 15; 12; 9; 6; 3]%nat.

Definition mix_column (m0 m1 m2 m3 : N) (col : list N) : list N :=
  match col with
  | [a0; a1; a2; a3] =>
      let dot x0 x1 x2 x3 :=
        N.lxor (gmul a0 x0) (N.lxor (gmul a1 x1)
          (N.lxor (gmul a2 x2) (gmul a3 x3))) in
      [dot m0 m1 m2 m3; dot m3 m0 m1 m2; dot m2 m3 m0 m1; dot m1 m2 m3 m0]
  | _ => col
  end.

Definition mix_columns (s : list N) : list N :=
  concat (map (mix_column 2 3 1 1) (chunks 4 s)).
Definition inverse_mix_columns (s : list N) : list N :=
  concat (map (mix_column 14 11 13 9) (chunks 4 s)).

Definition encrypt_block (rk : list (list N)) (block : list N) : list N :=
  match rk, rev rk with
  | first :: middle_last, last :: _ =>
      let middle := removelast middle_last in
      let s := fold_left
                 (fun s k => xor_bytes (mix_columns (shift_rows (map sbox s))) k)
                 middle (xor_bytes block first) in
      xor_bytes (shift_rows (map sbox s)) last
  | _, _ => block
  end.

Definition decrypt_block (rk : list (list N)) (block : list N) : list N :=
  match rev rk, rk with
  | last :: middle_first, first :: _ =>
      let middle := removelast middle_first in
      let s := fold_left
                 (fun s k =>
                    inverse_mix_columns
                      (xor_bytes (map inverse_sbox (inverse_shift_rows s)) k))
                 middle (xor_bytes block last) in
      xor_bytes (map inverse_sbox (inverse_shift_rows s)) first
  | _, _ => block
  end.

Definition cbc_encrypt (key iv pt : list N) : list N :=
  let rk := round_keys key in
  concat (snd (fold_left
                 (fun st block =>
                    let c := encrypt_block rk (xor_bytes block (fst st)) in
                    (c, snd st ++ [c]))
                 (chunks 16 pt) (iv, []))).

Definition cbc_decrypt (key iv ct : list N) : list N :=
  let rk := round_keys key in
  concat (snd (fold_left
                 (fun st block =>
                    (block,
                     snd st ++ [xor_bytes (decrypt_block rk block) (fst st)]))
                 (chunks 16 ct) (iv, []))).

(** PKCS#7 padding, and the check that [decipher.final] makes of it. *)
Definition pad (m : list N) : list N :=
  let n := 16 - N.of_nat (List.length m) mod 16 in
  m ++ repeat n (N.to_nat n).

Definition checked_unpad (m : list N) : option (list N) :=
  let n := last m 0 in
  let kept := (List.length m - N.to_nat n)%nat in
  if (1 <=? n) && (n <=? 16) && forallb (N.eqb n) (skipn kept m)
  then Some (firstn kept m)
  else None.

Definition to_numbers (bs : list byte) : list N := map Byte.to_N bs.
Definition of_numbers (ns : list N) : list byte := map Utf8.byte_of ns.

(** [cipher.update(pt) + cipher.final()] and [decipher.update(ct) +
    decipher.final()] of [aes-256-cbc]; the latter fails on a ciphertext
    that is empty or not a number of whole blocks, and on padding that does
    not check. *)
Definition encrypt (key iv pt : list byte) : list byte :=
  of_numbers (cbc_encrypt (to_numbers key) (to_numbers iv)
                          (pad (to_numbers pt))).

Definition decrypt (key iv ct : list byte) : option (list byte) :=
  if ((List.length ct =? 0) || negb (List.length ct mod 16 =? 0))%nat
  then None
  else option_map of_numbers
         (checked_unpad (cbc_decrypt (to_numbers key) (to_numbers iv)
                                     (to_numbers ct))).

End Aes.

(** ** Secret cipher (utils/encryption.js)

    [encryptData] and [decryptData] wrap AES-256-CBC of node:crypto.  The
    block cipher with its PKCS#7 padding and the UTF-8 decoder of the
    runtime are variables; [createCipheriv] refuses a key that is not 32
    bytes or an IV that is not 16 bytes, which [cipheriv_accepts] writes
    out. *)

Module Cipher.

Definition encrypt_error : string := "Gagal mengenkripsi data".
Definition decrypt_error : string :=
  "Gagal mendekripsi data. Pastikan kunci enkripsi benar.".

Definition cipheriv_accepts (key iv : list byte) : bool :=
  (List.length key =? 32)%nat && (List.length iv =? 16)%nat.

Section WithPrimitives.

(** [cipher.update(pt) + cipher.final()] and its inverse on raw bytes; the
    inverse fails when the padding check of [decipher.final] fails. *)
Variable aes_cbc_encrypt : list byte -> list byte -> list byte -> list byte.
Variable aes_cbc_decrypt :
  list byte -> list byte -> list byte -> option (list byte).

(** The ['utf8'] output encoding of the decipher stream. *)
Variable utf8_decode : list byte -> Utf16.text.

(** [config.encryption.aesKey], a string of hexadecimal digits. *)
Variable aesKey : string.

(** [encryptData(plaintext)]; [iv] is the value of [crypto.randomBytes(16)]. *)
Definition encryptData (iv : list byte) (plaintext : Utf16.text)
  : js_result string :=
  if Utf16.falsy plaintext then Throws encrypt_error
  else
    let key := Hex.fromHex aesKey in
    if cipheriv_accepts key iv then
      let encrypted :=
        Hex.toHex (aes_cbc_encrypt key iv (Utf8.encode plaintext)) in
      Returns (Hex.toHex iv ++ ":" ++ encrypted)
    else Throws encrypt_error.

(** [decryptData(encryptedData)].  [decipher.update(encrypted, 'hex',
    'utf8')] throws on a text with an odd number of characters; otherwise it
    decodes the pairs of digits as [Buffer.from] does. *)
Definition decryptData (encryptedData : string) : js_result Utf16.text :=
  if JsString.falsy encryptedData
     || negb (JsString.includes ":" encryptedData)
  then Throws decrypt_error
  else
    let parts := JsString.split ":" encryptedData in
    match JsString.index parts 0, JsString.index parts 1 with
    | Some part0, Some encrypted =>
        let iv := Hex.fromHex part0 in
        let key := Hex.fromHex aesKey in
        if cipheriv_accepts key iv then
          if Nat.odd (String.length encrypted) then Throws decrypt_error
          else
            match aes_cbc_decrypt key iv (Hex.fromHex encrypted) with
            | Some decrypted => Returns (utf8_decode decrypted)
            | None => Throws decrypt_error
            end
        else Throws decrypt_error
    | _, _ => Throws decrypt_error
    end.

(** The wire format: hexadecimal IV, a colon, hexadecimal ciphertext. *)
Lemma encryptData_returns iv plaintext :
  plaintext <> [] ->
  cipheriv_accepts (Hex.fromHex aesKey) iv = true ->
  encryptData iv plaintext =
    Returns (Hex.toHex iv ++ ":" ++
             Hex.toHex (aes_cbc_encrypt (Hex.fromHex aesKey) iv
                          (Utf8.encode plaintext))).
Proof.
  intros Hne Hok. unfold encryptData.
  destruct plaintext as [|a p]; [congruence|]. simpl Utf16.falsy.
  cbv iota. now rewrite Hok.
Qed.

Lemma split_wire iv ct :
  JsString.split ":" (Hex.toHex iv ++ ":" ++ Hex.toHex ct)
  = [Hex.toHex iv; Hex.toHex ct].
Proof.
  change (":" ++ Hex.toHex ct) with (String ":" (Hex.toHex ct)).
  rewrite JsString.split_app_sep by apply Hex.toHex_no_colon.
  now rewrite JsString.split_no_sep by apply Hex.toHex_no_colon.
Qed.

Lemma wire_shape iv ct :
  JsString.falsy (Hex.toHex iv ++ ":" ++ Hex.toHex ct)
  || negb (JsString.includes ":" (Hex.toHex iv ++ ":" ++ Hex.toHex ct))
  = false.
Proof.
  apply orb_false_iff. split.
  - destruct (Hex.toHex iv); reflexivity.
  - rewrite JsString.includes_app. simpl. now rewrite orb_true_r.
Qed.

Lemma decryptData_wire iv ct :
  cipheriv_accepts (Hex.fromHex aesKey) iv = true ->
  decryptData (Hex.toHex iv ++ ":" ++ Hex.toHex ct) =
    match aes_cbc_decrypt (Hex.fromHex aesKey) iv ct with
    | Some decrypted => Returns (utf8_decode decrypted)
    | None => Throws decrypt_error
    end.
Proof.
  intros Hok. unfold decryptData.
  rewrite wire_shape, split_wire. simpl JsString.index.
  cbv iota beta zeta.
  now rewrite !Hex.fromHex_toHex, Hok, Hex.toHex_even.
Qed.

(** C1, as the code has it.  Under a configured key of 32 bytes, the
    round-trip contract of AES-256-CBC and a UTF-8 decoder that inverts the
    encoder on well-formed text, [encryptData] returns a field for every
    non-empty plaintext [P], whatever IV was drawn, and [decryptData] of
    that field returns [P] with U+FFFD in the place of every surrogate that
    stands alone.  What comes back is exactly [P] if and only if [P] has no
    such surrogate. *)
Theorem decryptData_encryptData (iv : list byte) (P : Utf16.text) :
  (forall key iv' pt,
      cipheriv_accepts key iv' = true ->
      aes_cbc_decrypt key iv' (aes_cbc_encrypt key iv' pt) = Some pt) ->
  (forall s, Utf16.well_formed s = true -> utf8_decode (Utf8.encode s) = s) ->
  List.length (Hex.fromHex aesKey) = 32%nat ->
  List.length iv = 16%nat ->
  Utf16.code_units P = true ->
  P <> [] ->
  exists field,
    encryptData iv P = Returns field /\
    decryptData field = Returns (Utf16.scrub P) /\
    (decryptData field = Returns P <-> Utf16.well_formed P = true).
Proof.
  intros Haes Hutf Hkey Hiv Hunits Hne.
  assert (Hok : cipheriv_accepts (Hex.fromHex aesKey) iv = true).
  { unfold cipheriv_accepts. now rewrite Hkey, Hiv. }
  assert (Hback : decryptData
                    (Hex.toHex iv ++ ":" ++
                     Hex.toHex (aes_cbc_encrypt (Hex.fromHex aesKey) iv
                                  (Utf8.encode P)))
                  = Returns (Utf16.scrub P)).
  { rewrite decryptData_wire by exact Hok. rewrite Haes by exact Hok.
    rewrite <- Utf8.encode_scrub.
    now rewrite Hutf by (now apply Utf8.scrub_well_formed). }
  eexists. split; [now apply encryptData_returns|].
  split; [exact Hback|]. rewrite Hback. split.
  - pose proof (Utf8.scrub_well_formed P Hunits) as Hwf.
    intros E. injection E as Escrub. rewrite Escrub in Hwf. exact Hwf.
  - intros Hw. now rewrite Utf8.scrub_of_well_formed.
Qed.

(** C8. Two calls of [encryptData] on the same non-empty plaintext that draw
    different IVs return different fields: the field determines the IV. *)
Theorem encryptData_fresh_iv (iv1 iv2 : list byte) (P : Utf16.text) :
  List.length (Hex.fromHex aesKey) = 32%nat ->
  List.length iv1 = 16%nat ->
  List.length iv2 = 16%nat ->
  P <> [] ->
  iv1 <> iv2 ->
  exists field1 field2,
    encryptData iv1 P = Returns field1 /\
    encryptData iv2 P = Returns field2 /\
    field1 <> field2.
Proof.
  intros Hkey H1 H2 Hne Hdiff.
  assert (Hok1 : cipheriv_accepts (Hex.fromHex aesKey) iv1 = true).
  { unfold cipheriv_accepts. now rewrite Hkey, H1. }
  assert (Hok2 : cipheriv_accepts (Hex.fromHex aesKey) iv2 = true).
  { unfold cipheriv_accepts. now rewrite Hkey, H2. }
  do 2 eexists. repeat split; try now apply encryptData_returns.
  intros E.
  apply JsString.app_sep_inj in E as [E _]; try apply Hex.toHex_no_colon.
  now apply Hex.toHex_inj in E.
Qed.

End WithPrimitives.

(** To run the definitions: [Aes.encrypt] and [Aes.decrypt], with
    [Utf8.decode] as the decoder.  Where a theorem is applied that needs the
    round-trip contract of the block cipher for every input, the identity
    stands in for it. *)
Definition demo_key : string :=
  "000102030405060708090a0b0c0d0e0f101112131415161718191a1b1c1d1e1f".
Definition demo_iv (first : byte) : list byte := first :: repeat x00 15.
Definition id_encrypt (_ _ pt : list byte) : list byte := pt.
Definition id_decrypt (_ _ ct : list byte) : option (list byte) := Some ct.

(** ["hunter2"] as a text. *)
Definition hunter2 : Utf16.text := Utf16.of_string "hunter2".

Example encryptData_demo :
  encryptData id_encrypt demo_key (demo_iv x2a) hunter2
  = Returns "2a000000000000000000000000000000:68756e74657232".
Proof. reflexivity. Qed.

Example encryptData_aes :
  encryptData Aes.encrypt demo_key (demo_iv x2a) hunter2
  = Returns "2a000000000000000000000000000000:5bd59864a56348239aa3fdd6dad825f1"
  /\
  decryptData Aes.decrypt Utf8.decode demo_key
    "2a000000000000000000000000000000:5bd59864a56348239aa3fdd6dad825f1"
  = Returns hunter2.
Proof. vm_compute. split; reflexivity. Qed.

Lemma decryptData_encryptData_witness :
  exists field,
    encryptData id_encrypt demo_key (demo_iv x2a) hunter2 = Returns field /\
    decryptData id_decrypt Utf8.decode demo_key field
      = Returns (Utf16.scrub hunter2) /\
    (decryptData id_decrypt Utf8.decode demo_key field = Returns hunter2
     <-> Utf16.well_formed hunter2 = true).
Proof.
  apply decryptData_encryptData; try reflexivity.
  - exact Utf8.decode_encode.
  - discriminate.
Defined.

(** The plaintext of one high surrogate, U+D800, with nothing after it,
    under AES-256-CBC with the key and the IV of the example: the field
    holds the encryption of the three bytes of U+FFFD, and [decryptData]
    returns U+FFFD, not the plaintext.  C1 has the plaintext come back. *)
Lemma lone_surrogate_is_not_restored :
  Utf16.falsy [55296%N] = false /\
  encryptData Aes.encrypt demo_key (demo_iv x2a) [55296%N]
    = Returns "2a000000000000000000000000000000:e466e2b98f6551d7e4bd79c4445cd712"
  /\
  decryptData Aes.decrypt Utf8.decode demo_key
    "2a000000000000000000000000000000:e466e2b98f6551d7e4bd79c4445cd712"
    = Returns [65533%N] /\
  decryptData Aes.decrypt Utf8.decode demo_key
    "2a000000000000000000000000000000:e466e2b98f6551d7e4bd79c4445cd712"
    <> Returns [55296%N].
Proof.
  split; [reflexivity|]. split; [vm_compute; reflexivity|].
  split; [vm_compute; reflexivity|]. vm_compute. discriminate.
Qed.

Lemma encryptData_fresh_iv_witness :
  exists field1 field2,
    encryptData id_encrypt demo_key (demo_iv x01) hunter2 = Returns field1 /\
    encryptData id_encrypt demo_key (demo_iv x02) hunter2 = Returns field2 /\
    field1 <> field2.
Proof.
  apply encryptData_fresh_iv; try reflexivity; discriminate.
Defined.

End Cipher.

(** ** Credential hasher (utils/encryption.js)

    [verifyPassword] awaits [bcrypt.compare] inside a try block whose handler
    logs the error and returns [false]. *)

Module Hasher.

Section WithBcrypt.

(** [bcrypt.compare(password, hash)]: a boolean, or an exception. *)
Variable bcrypt_compare : string -> string -> js_result bool.

Definition verifyPassword (password hash : string) : js_result bool :=
  match bcrypt_compare password hash with
  | Returns matched => Returns matched
  | Throws _ => Returns false
  end.

(** What [await verifyPassword(..)] evaluates to in a caller. *)
Definition verifyPassword_value (password hash : string) : bool :=
  match verifyPassword password hash with
  | Returns matched => matched
  | Throws _ => false
  end.

End WithBcrypt.

(** The textual shape of a bcrypt digest: sixty characters that start with
    the version marker ["$2"]. *)
Definition well_formed_digest (digest : string) : bool :=
  (String.length digest =? 60)%nat && String.prefix "$2" digest.

(** C7, as the code has it.  [verifyPassword] returns a boolean for every
    password and digest and never throws: it returns what [bcrypt.compare]
    returns, so a mismatch is [false], and when [bcrypt.compare] throws (as
    for a digest it cannot read) the handler returns [false] as well. *)
Theorem verifyPassword_never_throws
    (bcrypt_compare : string -> string -> js_result bool)
    (password digest : string) :
  exists matched,
    verifyPassword bcrypt_compare password digest = Returns matched /\
    (matched = true <-> bcrypt_compare password digest = Returns true) /\
    (bcrypt_compare password digest = Returns false -> matched = false) /\
    (forall e, bcrypt_compare password digest = Throws e -> matched = false).
Proof.
  unfold verifyPassword.
  destruct (bcrypt_compare password digest) as [b|e].
  - exists b. repeat split; intros; congruence.
  - exists false. repeat split; intros; congruence.
Qed.

(** A digest that is not well formed, with a [bcrypt.compare] that throws on
    it and with one that answers [false]: [verifyPassword] returns [false]
    both times, where C7 has it raise. *)
Lemma verifyPassword_malformed_digest_returns_false :
  well_formed_digest "not-a-digest" = false /\
  verifyPassword (fun _ _ => Throws "Invalid digest format")
                 "secret" "not-a-digest" = Returns false /\
  verifyPassword (fun _ _ => Returns false)
                 "secret" "not-a-digest" = Returns false.
Proof. repeat split. Qed.

End Hasher.

(** ** Tables (db/schema.sql, db/database.js)

    The columns the modelled code reads or writes.  [login_attempts] and the
    row ids are SQLite integers; [locked_until] and [refresh_token_hash] are
    nullable. *)

Module Db.

(** *** Datetime columns

    SQLite keeps a datetime as text and compares it as text, byte by byte.
    Two shapes reach the [expires_at] column: what [toISOString()] returns,
    [yyyy-mm-ddThh:mm:ss.sssZ], bound by [storeSession]; and what SQLite's
    own [datetime(...)] returns, [yyyy-mm-dd hh:mm:ss], written by the UPDATE
    of [refreshAccessToken].  Both begin with the ten characters of the UTC
    date; the eleventh is [T] in the first shape and a space, which sorts
    before [T], in the second.  Instants are taken in the years 0000 to
    9999, where both shapes have these fixed widths. *)
Inductive datetime_text : Type :=
| IsoString (ms : Z)              (* of an instant in milliseconds *)
| SqliteDatetime (seconds : Z).   (* of an instant in seconds *)

(** The number of the UTC day the text starts with. *)
Definition utc_day (t : datetime_text) : Z :=
  match t with
  | IsoString ms => (ms / 86400000)%Z
  | SqliteDatetime seconds => (seconds / 86400)%Z
  end.

(** [a < b] as SQLite evaluates it on two such texts: texts of one shape
    are in the order of their instants; texts of different shapes are in the
    order of their dates, and on the same date the one with the space comes
    first. *)
Definition text_ltb (a b : datetime_text) : bool :=
  match a, b with
  | IsoString x, IsoString y => (x <? y)%Z
  | SqliteDatetime x, SqliteDatetime y => (x <? y)%Z
  | IsoString _, SqliteDatetime _ => (utc_day a <? utc_day b)%Z
  | SqliteDatetime _, IsoString _ => (utc_day a <=? utc_day b)%Z
  end.

(** [datetime('now')] and [datetime('now', '+7 days')] at the instant
    [now], in milliseconds. *)
Definition datetime_now (now : Z) : datetime_text :=
  SqliteDatetime (now / 1000).

Definition seven_days : Z := 7 * 24 * 60 * 60.

Definition datetime_in_seven_days (now : Z) : datetime_text :=
  SqliteDatetime (now / 1000 + seven_days).

Record user_row : Type := mkUser {
  user_id : Z;
  username : string;
  email : string;
  password_hash : string;
  last_login : option Z;
  login_attempts : Z;
  locked_until : option Z;
  is_active : bool
}.

Record session_row : Type := mkSession {
  session_id : Z;
  session_user_id : Z;
  token_hash : string;
  refresh_token_hash : option string;
  expires_at : datetime_text;
  last_activity : Z;
  is_valid : bool
}.

Record log_row : Type := mkLog {
  log_user_id : Z;
  action_type : string;
  details : string
}.

Record database : Type := mkDb {
  users : list user_row;
  sessions : list session_row;
  next_session_id : Z;
  activity_logs : list log_row
}.

Definition with_users (d : database) (us : list user_row) : database :=
  mkDb us (sessions d) (next_session_id d) (activity_logs d).

Definition with_sessions (d : database) (ss : list session_row) : database :=
  mkDb (users d) ss (next_session_id d) (activity_logs d).

(** [UPDATE users SET login_attempts = ? WHERE id = ?] *)
Definition set_login_attempts (attempts id : Z) (u : user_row) : user_row :=
  if (user_id u =? id)%Z
  then mkUser (user_id u) (username u) (email u) (password_hash u)
              (last_login u) attempts (locked_until u) (is_active u)
  else u.

(** [UPDATE users SET login_attempts = ?, locked_until = ? WHERE id = ?] *)
Definition set_login_attempts_and_lock (attempts lockUntil id : Z)
    (u : user_row) : user_row :=
  if (user_id u =? id)%Z
  then mkUser (user_id u) (username u) (email u) (password_hash u)
              (last_login u) attempts (Some lockUntil) (is_active u)
  else u.

(** *** Statements that name a column [now]

    Two statements of the code write [datetime("now")], in double quotes.
    The SQLite of better-sqlite3 is built without double-quoted string
    literals: it reads the token as the name of a column, finds none in the
    table, and [db.prepare] throws.  [executeUpdate] logs the error and
    throws it again, so the statement changes nothing and its caller
    continues in its handler.  No handler reads the text of the error. *)
Definition no_such_column : string := "no such column: now".

(** [executeUpdate('UPDATE users SET login_attempts = 0, locked_until = NULL,
    last_login = datetime("now") WHERE id = ?', [id])] *)
Definition reset_login_attempts (id : Z) (d : database)
  : js_result database :=
  Throws no_such_column.

(** [executeUpdate('UPDATE sessions SET last_activity = datetime("now")
    WHERE id = ?', [id])] *)
Definition touch_session (id : Z) (d : database) : js_result database :=
  Throws no_such_column.

(** [UPDATE sessions SET is_valid = 0 WHERE token_hash = ?] *)
Definition revoke_by_token_hash (h : string) (s : session_row) : session_row :=
  if String.eqb (token_hash s) h
  then mkSession (session_id s) (session_user_id s) (token_hash s)
                 (refresh_token_hash s) (expires_at s) (last_activity s) false
  else s.

(** [UPDATE sessions SET is_valid = 0 WHERE user_id = ? AND is_valid = 1] *)
Definition revoke_by_user (uid : Z) (s : session_row) : session_row :=
  if (session_user_id s =? uid)%Z && is_valid s
  then mkSession (session_id s) (session_user_id s) (token_hash s)
                 (refresh_token_hash s) (expires_at s) (last_activity s) false
  else s.

(** [UPDATE sessions SET token_hash = ?, expires_at = datetime('now',
     '+7 days') WHERE id = ?] *)
Definition rotate_session (h : string) (now id : Z) (s : session_row)
  : session_row :=
  if (session_id s =? id)%Z
  then mkSession (session_id s) (session_user_id s) h
                 (refresh_token_hash s) (datetime_in_seven_days now)
                 (last_activity s) (is_valid s)
  else s.

(** [token_hash TEXT NOT NULL UNIQUE]: the statement is refused when another
    row already holds the value. *)
Definition token_hash_taken (h : string) (except : option Z)
    (ss : list session_row) : bool :=
  existsb (fun s =>
             String.eqb (token_hash s) h
             && match except with
                | Some id => negb (session_id s =? id)%Z
                | None => true
                end) ss.

(** [refresh_token_hash TEXT UNIQUE]; NULLs never collide. *)
Definition option_string_eqb (a b : option string) : bool :=
  match a, b with
  | Some x, Some y => String.eqb x y
  | _, _ => false
  end.

Definition refresh_hash_taken (h : option string) (ss : list session_row)
  : bool :=
  existsb (fun s => option_string_eqb (refresh_token_hash s) h) ss.

(** The number of rows a statement with this WHERE clause changes. *)
Definition changes {A} (where_ : A -> bool) (rows : list A) : Z :=
  Z.of_nat (List.length (filter where_ rows)).

(** A text that is later than [datetime('now')] at some instant is not
    earlier than [datetime('now')] at an instant before that one. *)
Lemma text_order_in_time (e : datetime_text) (now later : Z) :
  (now <= later)%Z ->
  text_ltb (datetime_now later) e = true ->
  text_ltb e (datetime_now now) = false.
Proof.
  intros Hle. unfold datetime_now.
  assert (H1 : (now / 1000 <= later / 1000)%Z)
    by (apply Z.div_le_mono; lia).
  assert (H2 : (now / 1000 / 86400 <= later / 1000 / 86400)%Z)
    by (apply Z.div_le_mono; lia).
  destruct e as [ms|seconds]; simpl; intros H.
  - apply Z.leb_le in H. apply Z.ltb_ge. lia.
  - apply Z.ltb_lt in H. apply Z.ltb_ge. lia.
Qed.

End Db.

(** ** Token authority (utils/jwt.js) *)

Module Jwt.
Import Db.

(** The claims the code signs into a token.  An access token carries
    [username] and [email]; a refresh token carries [tokenHash]. *)
Record payload : Type := mkPayload {
  userId : Z;
  claim_username : option string;
  claim_email : option string;
  tokenHash : option string;
  type : string
}.

(** The value of [jwt.verify] or [jwt.decode]: the payload and [exp], in
    seconds. *)
Record decoded_token : Type := mkDecoded {
  body : payload;
  exp : Z
}.

(** How [jwt.verify] ends: with the decoded token, or with an error of one of
    the names the handlers tell apart. *)
Inductive jwt_verdict : Type :=
| JwtVerified (decoded : decoded_token)
| TokenExpiredError
| JsonWebTokenError
| OtherError.

Inductive verification : Type :=
| Verified (decoded : decoded_token)
| NotVerified (error : string).

(** The user object handed to the token generators and returned to clients. *)
Record user_info : Type := mkUserInfo {
  info_id : Z;
  info_username : string;
  info_email : string
}.

Inductive session_validation : Type :=
| SessionValid (session : session_row) (owner : user_row)
| SessionInvalid (error : string).

Inductive refresh_result : Type :=
| RefreshSuccess (accessToken : string) (user : user_info)
| RefreshFailure (error : string).

Definition access_expired_msg : string := "Token telah kadaluarsa".
Definition access_invalid_msg : string := "Token tidak valid".
Definition access_failed_msg : string := "Gagal memverifikasi token".
Definition refresh_expired_msg : string :=
  "Refresh token telah kadaluarsa. Silakan login kembali.".
Definition refresh_invalid_msg : string := "Refresh token tidak valid".
Definition session_missing_msg : string :=
  "Session tidak ditemukan atau telah kadaluarsa".
Definition session_failed_msg : string := "Gagal memvalidasi session".
Definition refresh_revoked_msg : string :=
  "Refresh token tidak valid atau telah dicabut".
Definition owner_inactive_msg : string :=
  "User tidak ditemukan atau tidak aktif".
Definition refresh_failed_msg : string := "Gagal memperbarui token".
Definition store_failed_msg : string := "Gagal menyimpan session".

Section WithPrimitives.

(** [jwt.sign(payload, secret, options)] at an instant, [jwt.verify(token,
    secret, options)] at an instant, [jwt.decode(token)], and the SHA-256
    digest in hexadecimal that [hashToken] computes. *)
Variable jwt_sign : payload -> Z -> string.
Variable jwt_verify : string -> Z -> jwt_verdict.
Variable jwt_decode : string -> option decoded_token.
Variable hashToken : string -> string.

Definition generateAccessToken (user : user_info) (now : Z) : string :=
  jwt_sign (mkPayload (info_id user) (Some (info_username user))
                      (Some (info_email user)) None "access") now.

(** [random] is the value of [crypto.randomBytes(64)]. *)
Definition generateRefreshToken (user : user_info) (random : list byte)
    (now : Z) : string * string :=
  let token := Hex.toHex random in
  let tokenHash := hashToken token in
  let jwtToken :=
    jwt_sign (mkPayload (info_id user) None None (Some tokenHash) "refresh")
             now in
  (jwtToken, tokenHash).

(** A thrown [Error('Invalid token type')] has the name ["Error"], so the
    handler of [verifyAccessToken] answers with its last branch. *)
Definition verifyAccessToken (token : string) (now : Z) : verification :=
  match jwt_verify token now with
  | JwtVerified decoded =>
      if negb (String.eqb (type (body decoded)) "access")
      then NotVerified access_failed_msg
      else Verified decoded
  | TokenExpiredError => NotVerified access_expired_msg
  | JsonWebTokenError => NotVerified access_invalid_msg
  | OtherError => NotVerified access_failed_msg
  end.

Definition verifyRefreshToken (token : string) (now : Z) : verification :=
  match jwt_verify token now with
  | JwtVerified decoded =>
      if negb (String.eqb (type (body decoded)) "refresh")
      then NotVerified refresh_invalid_msg
      else Verified decoded
  | TokenExpiredError => NotVerified refresh_expired_msg
  | JsonWebTokenError => NotVerified refresh_invalid_msg
  | OtherError => NotVerified refresh_invalid_msg
  end.

(** [storeSession]: the INSERT is refused by a UNIQUE column that already
    holds the digest, or by the foreign key; a token that does not decode
    makes [decoded.exp] throw.  Either way the handler throws. *)
Definition storeSession (uid : Z) (accessToken : string)
    (refreshTokenHash : string) (d : database) (now : Z)
  : database * js_result Z :=
  match jwt_decode accessToken with
  | None => (d, Throws store_failed_msg)
  | Some decoded =>
      let expiresAt := IsoString (exp decoded * 1000) in
      let h := hashToken accessToken in
      if token_hash_taken h None (sessions d)
         || refresh_hash_taken (Some refreshTokenHash) (sessions d)
         || negb (existsb (fun u => (user_id u =? uid)%Z) (users d))
      then (d, Throws store_failed_msg)
      else
        let id := next_session_id d in
        let row := mkSession id uid h (Some refreshTokenHash) expiresAt
                             now true in
        (mkDb (users d) (sessions d ++ [row])%list (id + 1)%Z
              (activity_logs d),
         Returns id)
  end.

(** The row of the join [sessions s JOIN users u ON s.user_id = u.id]. *)
Definition owner_of (d : database) (s : session_row) : option user_row :=
  find (fun u => (user_id u =? session_user_id s)%Z) (users d).

(** The WHERE clause of the SELECT in [validateSession]:
    [s.token_hash = ? AND s.is_valid = 1 AND s.expires_at > datetime('now')
     AND u.is_active = 1]. *)
Definition live_session (d : database) (h : string) (now : Z)
    (s : session_row) : bool :=
  String.eqb (token_hash s) h
  && is_valid s
  && text_ltb (datetime_now now) (expires_at s)
  && match owner_of d s with
     | Some u => is_active u
     | None => false
     end.

(** [validateSession]: the SELECT, then the UPDATE of [last_activity], in a
    try block whose handler answers with its own error.  The UPDATE is one
    of the statements the store refuses ([Db.touch_session]), so a token
    whose row is found ends in the handler. *)
Definition validateSession (token : string) (d : database) (now : Z)
  : database * session_validation :=
  let h := hashToken token in
  match find (live_session d h now) (sessions d) with
  | None => (d, SessionInvalid session_missing_msg)
  | Some session =>
      match owner_of d session with
      | None => (d, SessionInvalid session_missing_msg)
      | Some owner =>
          match touch_session (session_id session) d with
          | Returns d' => (d', SessionValid session owner)
          | Throws _ => (d, SessionInvalid session_failed_msg)
          end
      end
  end.

Definition invalidateSession (token : string) (d : database)
  : database * bool :=
  let h := hashToken token in
  (with_sessions d (map (revoke_by_token_hash h) (sessions d)),
   (0 <? changes (fun s => String.eqb (token_hash s) h) (sessions d))%Z).

Definition invalidateAllUserSessions (uid : Z) (d : database)
  : database * Z :=
  (with_sessions d (map (revoke_by_user uid) (sessions d)),
   changes (fun s => (session_user_id s =? uid)%Z && is_valid s) (sessions d)).

(** The WHERE clause of the DELETE in [cleanExpiredSessions]:
    [expires_at < datetime('now') OR is_valid = 0]. *)
Definition stale (now : Z) (s : session_row) : bool :=
  text_ltb (expires_at s) (datetime_now now) || negb (is_valid s).

Definition cleanExpiredSessions (d : database) (now : Z) : database * Z :=
  (with_sessions d (filter (fun s => negb (stale now s)) (sessions d)),
   changes (stale now) (sessions d)).

Definition refresh_match (h : option string) (s : session_row) : bool :=
  option_string_eqb (refresh_token_hash s) h && is_valid s.

Definition active_user (uid : Z) (u : user_row) : bool :=
  (user_id u =? uid)%Z && is_active u.

(** [refreshAccessToken].  The session is looked up by the digest in the
    token and the valid flag alone ([expires_at] is not read); the user is
    looked up by the [userId] in the token.  The UPDATE throws when the new
    digest is held by another row, and the handler answers with its own
    error. *)
Definition refreshAccessToken (refreshToken : string) (d : database)
    (now : Z) : database * refresh_result :=
  match verifyRefreshToken refreshToken now with
  | NotVerified error => (d, RefreshFailure error)
  | Verified decoded =>
      match find (refresh_match (tokenHash (body decoded))) (sessions d) with
      | None => (d, RefreshFailure refresh_revoked_msg)
      | Some session =>
          match find (active_user (userId (body decoded))) (users d) with
          | None => (d, RefreshFailure owner_inactive_msg)
          | Some user =>
              let info :=
                mkUserInfo (user_id user) (username user) (email user) in
              let newAccessToken := generateAccessToken info now in
              let newTokenHash := hashToken newAccessToken in
              if token_hash_taken newTokenHash (Some (session_id session))
                                  (sessions d)
              then (d, RefreshFailure refresh_failed_msg)
              else
                (with_sessions d
                   (map (rotate_session newTokenHash now (session_id session))
                        (sessions d)),
                 RefreshSuccess newAccessToken info)
          end
      end
  end.

(** *** Facts about the queries *)

Lemma find_map_same {A} (p : A -> bool) (f : A -> A) (l : list A) :
  (forall x, p (f x) = p x) ->
  find p (map f l) = option_map f (find p l).
Proof.
  intros Hp. induction l as [|x l IH]; [reflexivity|].
  simpl. rewrite Hp. now destruct (p x).
Qed.

Lemma option_string_eqb_true a b :
  option_string_eqb a b = true -> exists h, a = Some h /\ b = Some h.
Proof.
  destruct a as [x|], b as [y|]; simpl; try discriminate.
  intros E. apply String.eqb_eq in E. subst. now exists y.
Qed.

Lemma refresh_match_true h s :
  refresh_match h s = true ->
  exists x, h = Some x /\ refresh_token_hash s = Some x /\ is_valid s = true.
Proof.
  unfold refresh_match. intros E. apply andb_true_iff in E as [E V].
  apply option_string_eqb_true in E as (x & Hs & Hh). now exists x.
Qed.

Lemma refresh_match_false h x s :
  refresh_match h s = false ->
  ~ (h = Some x /\ refresh_token_hash s = Some x /\ is_valid s = true).
Proof.
  unfold refresh_match. intros E (Hh & Hs & V).
  rewrite Hh, Hs, V in E. simpl in E. now rewrite String.eqb_refl in E.
Qed.

Lemma active_user_true uid u :
  active_user uid u = true <-> user_id u = uid /\ is_active u = true.
Proof.
  unfold active_user. rewrite andb_true_iff, Z.eqb_eq. reflexivity.
Qed.

Lemma refresh_match_rotate h h' now id s :
  refresh_match h (rotate_session h' now id s) = refresh_match h s.
Proof. unfold rotate_session. now destruct (session_id s =? id)%Z. Qed.

Lemma verifyRefreshToken_verified token now decoded :
  verifyRefreshToken token now = Verified decoded ->
  jwt_verify token now = JwtVerified decoded /\
  type (body decoded) = "refresh".
Proof.
  unfold verifyRefreshToken. destruct (jwt_verify token now) as [c| | |];
    try discriminate.
  destruct (String.eqb (type (body c)) "refresh") eqn:E; simpl;
    try discriminate.
  intros H. inversion H; subst. apply String.eqb_eq in E. now split.
Qed.

Lemma verifyRefreshToken_rejected token now error :
  verifyRefreshToken token now = NotVerified error ->
  error = refresh_expired_msg \/ error = refresh_invalid_msg.
Proof.
  unfold verifyRefreshToken. destruct (jwt_verify token now) as [c| | |].
  - destruct (String.eqb (type (body c)) "refresh"); simpl;
      [discriminate | intros H; inversion H; now right].
  - intros H; inversion H; now left.
  - intros H; inversion H; now right.
  - intros H; inversion H; now right.
Qed.

(** What a rotation leaves of a row, and what it writes. *)
Lemma rotate_session_fields h now id s :
  let s' := rotate_session h now id s in
  session_id s' = session_id s /\
  session_user_id s' = session_user_id s /\
  refresh_token_hash s' = refresh_token_hash s /\
  last_activity s' = last_activity s /\
  is_valid s' = is_valid s /\
  (session_id s <> id -> s' = s) /\
  (session_id s = id ->
   token_hash s' = h /\ expires_at s' = datetime_in_seven_days now).
Proof.
  unfold rotate_session. destruct (session_id s =? id)%Z eqn:E; simpl.
  - apply Z.eqb_eq in E. repeat split; congruence.
  - apply Z.eqb_neq in E. repeat split; congruence.
Qed.

(** The outcome of a refresh that finds its session and its user. *)
Lemma refreshAccessToken_found refreshToken d now decoded session user :
  verifyRefreshToken refreshToken now = Verified decoded ->
  find (refresh_match (tokenHash (body decoded))) (sessions d) = Some session ->
  find (active_user (userId (body decoded))) (users d) = Some user ->
  let info := mkUserInfo (user_id user) (username user) (email user) in
  let newAccessToken := generateAccessToken info now in
  refreshAccessToken refreshToken d now =
    if token_hash_taken (hashToken newAccessToken) (Some (session_id session))
                        (sessions d)
    then (d, RefreshFailure refresh_failed_msg)
    else (with_sessions d
            (map (rotate_session (hashToken newAccessToken) now
                                 (session_id session)) (sessions d)),
          RefreshSuccess newAccessToken info).
Proof.
  intros Hv Hs Hu. unfold refreshAccessToken. now rewrite Hv, Hs, Hu.
Qed.

(** No other row holds the digest: the UPDATE is accepted. *)
Lemma token_hash_free h id ss :
  (forall s, In s ss -> session_id s <> id -> token_hash s <> h) ->
  token_hash_taken h (Some id) ss = false.
Proof.
  intros H. unfold token_hash_taken.
  destruct (existsb _ ss) eqn:E; [|reflexivity].
  apply existsb_exists in E as (s & Hin & Hs).
  apply andb_true_iff in Hs as [Hh Hid].
  apply String.eqb_eq in Hh. apply negb_true_iff, Z.eqb_neq in Hid.
  now destruct (H s Hin Hid).
Qed.

Lemma refreshAccessToken_success_inv refreshToken d now d' accessToken info :
  refreshAccessToken refreshToken d now = (d', RefreshSuccess accessToken info) ->
  exists decoded session owner,
    verifyRefreshToken refreshToken now = Verified decoded /\
    find (refresh_match (tokenHash (body decoded))) (sessions d) = Some session /\
    find (active_user (userId (body decoded))) (users d) = Some owner /\
    info = mkUserInfo (user_id owner) (username owner) (email owner) /\
    accessToken = generateAccessToken info now /\
    token_hash_taken (hashToken accessToken) (Some (session_id session))
                     (sessions d) = false /\
    d' = with_sessions d
           (map (rotate_session (hashToken accessToken) now
                                (session_id session)) (sessions d)).
Proof.
  unfold refreshAccessToken.
  destruct (verifyRefreshToken refreshToken now) as [decoded|e] eqn:Hv;
    [|discriminate].
  destruct (find (refresh_match _) (sessions d)) as [session|] eqn:Hs;
    [|discriminate].
  destruct (find (active_user _) (users d)) as [owner|] eqn:Hu;
    [|discriminate].
  destruct (token_hash_taken _ _ _) eqn:Ht; [discriminate|].
  intros H. inversion H; subst.
  exists decoded, session, owner. repeat split; auto.
Qed.

(** C5, as the code has it.  A refresh succeeds only for a token that
    verifies as a refresh token, whose digest is held by a session row with
    the valid flag set, and whose user (the [userId] signed into the token)
    is an active row.  It then writes, on the rows with the id of that
    session, the digest of the access token it returns and the text of the
    instant seven days after the call, which is later than the text of the
    call; the row stops holding the digest it held before exactly when the
    new digest differs from it.  When one of the three requirements is not
    met it answers with the expired or invalid refresh token error, the
    revoked refresh token error or the inactive owner error, and every
    failure (also a refusal of the UPDATE by the store) leaves the database
    as it was. *)
Theorem refreshAccessToken_contract
    (refreshToken : string) (d : database) (now : Z) :
  match refreshAccessToken refreshToken d now with
  | (d', RefreshSuccess accessToken user) =>
      exists decoded h session owner,
        jwt_verify refreshToken now = JwtVerified decoded /\
        type (body decoded) = "refresh" /\
        tokenHash (body decoded) = Some h /\
        In session (sessions d) /\
        refresh_token_hash session = Some h /\
        is_valid session = true /\
        In owner (users d) /\
        user_id owner = userId (body decoded) /\
        is_active owner = true /\
        user = mkUserInfo (user_id owner) (username owner) (email owner) /\
        accessToken = generateAccessToken user now /\
        users d' = users d /\
        sessions d' =
          map (rotate_session (hashToken accessToken) now (session_id session))
              (sessions d) /\
        (forall s', In s' (sessions d') ->
                    session_id s' = session_id session ->
                    token_hash s' = hashToken accessToken /\
                    expires_at s' = datetime_in_seven_days now /\
                    text_ltb (datetime_now now) (expires_at s') = true /\
                    (token_hash s' <> token_hash session <->
                     hashToken accessToken <> token_hash session))
  | (d', RefreshFailure error) =>
      d' = d /\
      ((verifyRefreshToken refreshToken now = NotVerified error /\
        (error = refresh_expired_msg \/ error = refresh_invalid_msg))
       \/
       (error = refresh_revoked_msg /\
        exists decoded,
          verifyRefreshToken refreshToken now = Verified decoded /\
          forall s h, In s (sessions d) ->
            ~ (tokenHash (body decoded) = Some h /\
               refresh_token_hash s = Some h /\ is_valid s = true))
       \/
       (error = owner_inactive_msg /\
        exists decoded,
          verifyRefreshToken refreshToken now = Verified decoded /\
          forall u, In u (users d) ->
            ~ (user_id u = userId (body decoded) /\ is_active u = true))
       \/
       (error = refresh_failed_msg /\
        exists info other,
          In other (sessions d) /\
          token_hash other = hashToken (generateAccessToken info now)))
  end.
Proof.
  destruct (refreshAccessToken refreshToken d now) as [d' [accessToken user|error]]
    eqn:Hr.
  - apply refreshAccessToken_success_inv in Hr
      as (decoded & session & owner & Hv & Hs & Hu & -> & Ha & Ht & ->).
    apply verifyRefreshToken_verified in Hv as [Hj Hty].
    apply find_some in Hs as [Hin Hm].
    apply refresh_match_true in Hm as (h & Hh & Hrh & Hvalid).
    apply find_some in Hu as [Hinu Hau].
    apply active_user_true in Hau as [Hid Hact].
    exists decoded, h, session, owner.
    repeat (split; [assumption || reflexivity|]).
    intros s' Hin' Hid'. simpl in Hin'.
    apply in_map_iff in Hin' as (s & <- & _).
    pose proof (rotate_session_fields (hashToken accessToken) now
                  (session_id session) s) as (Hsid & _ & _ & _ & _ & _ & Hset).
    cbv zeta in Hsid, Hset. rewrite Hsid in Hid'.
    destruct (Hset Hid') as [E1 E2]. rewrite E1, E2.
    repeat split; try tauto.
    unfold datetime_in_seven_days, datetime_now, seven_days. simpl.
    apply Z.ltb_lt. lia.
  - unfold refreshAccessToken in Hr.
    destruct (verifyRefreshToken refreshToken now) as [decoded|e] eqn:Hv.
    + destruct (find (refresh_match _) (sessions d)) as [session|] eqn:Hs.
      * destruct (find (active_user _) (users d)) as [owner|] eqn:Hu.
        -- destruct (token_hash_taken _ _ _) eqn:Ht; [|discriminate].
           inversion Hr; subst. split; [reflexivity|].
           right; right; right. split; [reflexivity|].
           apply existsb_exists in Ht as (other & Hin & Ho).
           apply andb_true_iff in Ho as [Ho _]. apply String.eqb_eq in Ho.
           eexists _, other. split; [exact Hin|exact Ho].
        -- inversion Hr; subst. split; [reflexivity|].
           right; right; left. split; [reflexivity|].
           exists decoded. split; [reflexivity|].
           intros u Hin Hc. apply active_user_true in Hc.
           now rewrite (find_none _ _ Hu u Hin) in Hc.
      * inversion Hr; subst. split; [reflexivity|].
        right; left. split; [reflexivity|].
        exists decoded. split; [reflexivity|].
        intros s h Hin. apply refresh_match_false.
        exact (find_none _ _ Hs s Hin).
    + inversion Hr; subst. split; [reflexivity|].
      left. split; [reflexivity|].
      now apply verifyRefreshToken_rejected in Hv.
Qed.

(** C10. A successful refresh changes nothing but the access-token digest
    and the expiry of the rows that carry the id of the session it found:
    the users, the activity log, every other session row, and on the
    refreshed row the id, the owner, the refresh-token digest, the last
    activity and the valid flag stay as they were.  The same refresh token,
    as long as it still verifies, is therefore accepted again, provided the
    digest of the next access token is not already stored. *)
Theorem refresh_keeps_refresh_token
    (refreshToken : string) (d d' : database) (now : Z)
    (accessToken : string) (user : user_info) :
  refreshAccessToken refreshToken d now = (d', RefreshSuccess accessToken user) ->
  users d' = users d /\
  activity_logs d' = activity_logs d /\
  next_session_id d' = next_session_id d /\
  List.length (sessions d') = List.length (sessions d) /\
  (exists session,
      In session (sessions d) /\
      forall i s, nth_error (sessions d) i = Some s ->
        exists s',
          nth_error (sessions d') i = Some s' /\
          session_id s' = session_id s /\
          session_user_id s' = session_user_id s /\
          refresh_token_hash s' = refresh_token_hash s /\
          last_activity s' = last_activity s /\
          is_valid s' = is_valid s /\
          (session_id s <> session_id session -> s' = s) /\
          (session_id s = session_id session ->
           token_hash s' = hashToken accessToken /\
           expires_at s' = datetime_in_seven_days now)) /\
  (forall now2,
      jwt_verify refreshToken now2 = jwt_verify refreshToken now ->
      (forall s, In s (sessions d) ->
                 token_hash s <> hashToken (generateAccessToken user now2)) ->
      exists d'',
        refreshAccessToken refreshToken d' now2 =
          (d'', RefreshSuccess (generateAccessToken user now2) user)).
Proof.
  intros Hr.
  apply refreshAccessToken_success_inv in Hr
    as (decoded & session & owner & Hv & Hs & Hu & Hinfo & Ha & Ht & ->).
  simpl. repeat (split; [reflexivity|]).
  split; [now rewrite length_map|].
  split.
  - exists session. split; [now apply find_some in Hs|].
    intros i s Hi. eexists. rewrite nth_error_map, Hi. split; [reflexivity|].
    apply rotate_session_fields.
  - intros now2 Hsame Hfresh.
    assert (Hv2 : verifyRefreshToken refreshToken now2 = Verified decoded).
    { unfold verifyRefreshToken in *. now rewrite Hsame. }
    set (d1 := with_sessions d _).
    assert (Hs2 : find (refresh_match (tokenHash (body decoded))) (sessions d1)
                  = Some (rotate_session (hashToken accessToken) now
                            (session_id session) session)).
    { simpl. rewrite find_map_same by (intros; apply refresh_match_rotate).
      now rewrite Hs. }
    pose proof (refreshAccessToken_found refreshToken d1 now2 _ _ _ Hv2 Hs2 Hu)
      as Hcall.
    cbv zeta in Hcall. rewrite <- Hinfo in Hcall.
    rewrite token_hash_free in Hcall.
    + eexists. exact Hcall.
    + intros s' Hin Hid. simpl in Hin.
      apply in_map_iff in Hin as (s & <- & Hin).
      pose proof (rotate_session_fields (hashToken accessToken) now
                    (session_id session) s) as (Hsid & _ & _ & _ & _ & Hkeep & _).
      pose proof (rotate_session_fields (hashToken accessToken) now
                    (session_id session) session) as (Hsid0 & _).
      cbv zeta in Hsid, Hkeep, Hsid0. rewrite Hsid, Hsid0 in Hid.
      rewrite (Hkeep Hid). now apply Hfresh.
Qed.

(** *** Sequences of calls

    Every statement that writes the sessions table is issued by one of the
    functions above; [perform] runs one call and keeps the database. *)

Inductive operation : Type :=
| CallStoreSession (uid : Z) (accessToken refreshTokenHash : string) (now : Z)
| CallValidateSession (token : string) (now : Z)
| CallInvalidateSession (token : string)
| CallInvalidateAllUserSessions (uid : Z)
| CallCleanExpiredSessions (now : Z)
| CallRefreshAccessToken (refreshToken : string) (now : Z).

Definition perform (d : database) (op : operation) : database :=
  match op with
  | CallStoreSession uid a r now => fst (storeSession uid a r d now)
  | CallValidateSession t now => fst (validateSession t d now)
  | CallInvalidateSession t => fst (invalidateSession t d)
  | CallInvalidateAllUserSessions uid => fst (invalidateAllUserSessions uid d)
  | CallCleanExpiredSessions now => fst (cleanExpiredSessions d now)
  | CallRefreshAccessToken r now => fst (refreshAccessToken r d now)
  end.

Definition perform_all (d : database) (ops : list operation) : database :=
  fold_left perform ops d.

(** [validateSession] never finds a token valid, and writes nothing: where
    the SELECT finds a row, the UPDATE that follows is refused. *)
Lemma validateSession_never_valid token d now :
  exists error,
    validateSession token d now = (d, SessionInvalid error) /\
    (error = session_missing_msg \/ error = session_failed_msg).
Proof.
  unfold validateSession.
  destruct (find _ (sessions d)) as [session|]; [|eauto].
  destruct (owner_of d session); [|eauto].
  unfold touch_session. eauto.
Qed.

Lemma validateSession_reads_only token d now :
  fst (validateSession token d now) = d.
Proof.
  destruct (validateSession_never_valid token d now) as (error & E & _).
  now rewrite E.
Qed.

(** The call issues no access token whose digest is [h]. *)
Definition issues_other_than (h : string) (op : operation) : Prop :=
  match op with
  | CallStoreSession _ accessToken _ _ => hashToken accessToken <> h
  | CallRefreshAccessToken _ now =>
      forall info, hashToken (generateAccessToken info now) <> h
  | _ => True
  end.

(** No row with digest [h] has the valid flag set. *)
Definition revoked (h : string) (d : database) : Prop :=
  forall s, In s (sessions d) -> token_hash s = h -> is_valid s = false.

Lemma revoked_after_invalidateSession token d :
  revoked (hashToken token) (fst (invalidateSession token d)).
Proof.
  intros s' Hin Hh. simpl in Hin. apply in_map_iff in Hin as (s & <- & _).
  unfold revoke_by_token_hash in *.
  destruct (String.eqb (token_hash s) (hashToken token)) eqn:E;
    [reflexivity|].
  apply String.eqb_neq in E. contradiction.
Qed.

Lemma revoked_map h d (f : session_row -> session_row) :
  (forall s, token_hash (f s) = h ->
             is_valid (f s) = false \/
             (token_hash s = h /\ is_valid (f s) = is_valid s)) ->
  revoked h d -> revoked h (with_sessions d (map f (sessions d))).
Proof.
  intros Hf Hrev s' Hin Hh. simpl in Hin.
  apply in_map_iff in Hin as (s & <- & Hin).
  destruct (Hf s Hh) as [E|[E1 E2]]; [exact E|].
  rewrite E2. now apply Hrev.
Qed.

Lemma revoked_perform h d op :
  issues_other_than h op -> revoked h d -> revoked h (perform d op).
Proof.
  intros Hop Hrev. destruct op as [uid a r now|t now|t|uid|now|r now]; simpl.
  - unfold storeSession. destruct (jwt_decode a); [|exact Hrev].
    destruct (_ || _); [exact Hrev|]. simpl.
    intros s Hin Hh. simpl in Hin. apply in_app_iff in Hin as [Hin|[<-|[]]].
    + now apply Hrev.
    + simpl in Hh, Hop. contradiction.
  - now rewrite validateSession_reads_only.
  - apply revoked_map; [|exact Hrev].
    intros s Hh. unfold revoke_by_token_hash in *.
    destruct (String.eqb (token_hash s) (hashToken t)); auto.
  - apply revoked_map; [|exact Hrev].
    intros s Hh. unfold revoke_by_user in *.
    destruct ((session_user_id s =? uid)%Z && is_valid s); auto.
  - intros s Hin Hh. simpl in Hin. apply filter_In in Hin as [Hin _].
    now apply Hrev.
  - unfold refreshAccessToken.
    destruct (verifyRefreshToken r now) as [decoded|]; [|exact Hrev].
    destruct (find _ (sessions d)) as [session|]; [|exact Hrev].
    destruct (find _ (users d)) as [owner|]; [|exact Hrev].
    destruct (token_hash_taken _ _ _); [exact Hrev|]. simpl.
    apply revoked_map; [|exact Hrev].
    intros s Hh. right. unfold rotate_session in *.
    destruct (session_id s =? session_id session)%Z; auto.
    simpl in Hh. now destruct (Hop _ Hh).
Qed.

Lemma revoked_perform_all h ops d :
  Forall (issues_other_than h) ops -> revoked h d ->
  revoked h (perform_all d ops).
Proof.
  intros Hops. revert d.
  induction Hops as [|op ops Hop _ IH]; intros d Hrev; [exact Hrev|].
  simpl. apply IH. now apply revoked_perform.
Qed.

(** A revoked digest has no live session. *)
Lemma validateSession_revoked token d now :
  revoked (hashToken token) d ->
  validateSession token d now = (d, SessionInvalid session_missing_msg).
Proof.
  intros Hrev. unfold validateSession.
  destruct (find _ (sessions d)) as [s|] eqn:E; [|reflexivity].
  apply find_some in E as [Hin Hlive]. unfold live_session in Hlive.
  apply andb_true_iff in Hlive as [Hlive _].
  apply andb_true_iff in Hlive as [Hlive _].
  apply andb_true_iff in Hlive as [Hh Hv].
  apply String.eqb_eq in Hh. rewrite (Hrev s Hin Hh) in Hv. discriminate.
Qed.

(** A refresh token whose session was revoked through its access token is
    refused: the lookup finds no row with the valid flag set. *)
Lemma refreshAccessToken_after_revocation token refreshToken d now decoded :
  verifyRefreshToken refreshToken now = Verified decoded ->
  (forall s, In s (sessions d) ->
             refresh_token_hash s = tokenHash (body decoded) ->
             token_hash s = hashToken token) ->
  let d' := fst (invalidateSession token d) in
  refreshAccessToken refreshToken d' now
  = (d', RefreshFailure refresh_revoked_msg).
Proof.
  intros Hv Hsame d'. unfold refreshAccessToken. rewrite Hv.
  destruct (find _ (sessions d')) as [s'|] eqn:E; [|reflexivity].
  apply find_some in E as [Hin Hm]. simpl in Hin.
  apply in_map_iff in Hin as (s & <- & Hin).
  apply refresh_match_true in Hm as (h & Hh & Hr & Hvalid).
  unfold revoke_by_token_hash in Hr, Hvalid.
  destruct (String.eqb (token_hash s) (hashToken token)) eqn:Et;
    [discriminate|].
  apply String.eqb_neq in Et. destruct Et. apply Hsame; congruence.
Qed.

Lemma invalidateSession_reports token d s :
  In s (sessions d) -> token_hash s = hashToken token ->
  snd (invalidateSession token d) = true.
Proof.
  intros Hin Hh. simpl. apply Z.ltb_lt. unfold changes.
  assert (In s (filter (fun s0 => String.eqb (token_hash s0) (hashToken token))
                       (sessions d))) as Hf.
  { apply filter_In. split; [exact Hin|]. now apply String.eqb_eq. }
  destruct (filter _ (sessions d)); [destruct Hf|]. simpl List.length. lia.
Qed.

End WithPrimitives.

(** *** A small instance, to run the definitions

    Tokens are readable strings, the digest brackets its input, and
    verification knows the two tokens of the example. *)

Definition demo_sign (p : payload) (now : Z) : string :=
  type p ++ "@" ++ NilZero.string_of_int (Z.to_int now) ++ "."
  ++ match claim_username p with Some u => u | None => "" end
  ++ match tokenHash p with Some h => h | None => "" end.

Definition demo_hash (s : string) : string := "sha256(" ++ s ++ ")".

Definition demo_access_payload : payload :=
  mkPayload 1 (Some "ayu") (Some "ayu@example.com") None "access".

Definition demo_refresh_payload : payload :=
  mkPayload 1 None None (Some "sha256(c0ffee)") "refresh".

Definition demo_access_token : string := demo_sign demo_access_payload 1000.
Definition demo_refresh_token : string := demo_sign demo_refresh_payload 1000.

(** Both tokens verify until their expiry, in milliseconds here. *)
Definition demo_verify (token : string) (now : Z) : jwt_verdict :=
  if String.eqb token demo_access_token then
    if (now <? 604801000)%Z
    then JwtVerified (mkDecoded demo_access_payload 604801)
    else TokenExpiredError
  else if String.eqb token demo_refresh_token then
    if (now <? 2592001000)%Z
    then JwtVerified (mkDecoded demo_refresh_payload 2592001)
    else TokenExpiredError
  else JsonWebTokenError.

(** Decoding reads no signature: every access token of the example user
    decodes. *)
Definition demo_decode (token : string) : option decoded_token :=
  if String.prefix "access@" token
  then Some (mkDecoded demo_access_payload 604801)
  else if String.eqb token demo_refresh_token
  then Some (mkDecoded demo_refresh_payload 2592001)
  else None.

Definition demo_user : user_row :=
  mkUser 1 "ayu" "ayu@example.com" "$2b$12$demo" None 0 None true.

Definition demo_info : user_info := mkUserInfo 1 "ayu" "ayu@example.com".

Definition demo_session : session_row :=
  mkSession 10 1 (demo_hash demo_access_token) (Some "sha256(c0ffee)")
            (IsoString 604801000) 1000 true.

Definition demo_db : database := mkDb [demo_user] [demo_session] 11 [].

Definition demo_refresh (d : database) (now : Z) : database * refresh_result :=
  refreshAccessToken demo_sign demo_verify demo_hash demo_refresh_token d now.

Example demo_refresh_rotates :
  demo_refresh demo_db 5000 =
    (mkDb [demo_user]
          [mkSession 10 1 "sha256(access@5000.ayu)" (Some "sha256(c0ffee)")
                     (SqliteDatetime 604805) 1000 true]
          11 [],
     RefreshSuccess "access@5000.ayu" demo_info).
Proof. reflexivity. Qed.

Example demo_refresh_after_revocation :
  demo_refresh (fst (invalidateSession demo_hash demo_access_token demo_db))
               5000
  = (fst (invalidateSession demo_hash demo_access_token demo_db),
     RefreshFailure refresh_revoked_msg).
Proof. reflexivity. Qed.

Lemma refresh_keeps_refresh_token_witness :
  demo_refresh demo_db 5000 =
    (fst (demo_refresh demo_db 5000),
     RefreshSuccess "access@5000.ayu" demo_info) /\
  exists d'',
    demo_refresh (fst (demo_refresh demo_db 5000)) 6000 =
      (d'', RefreshSuccess "access@6000.ayu" demo_info).
Proof.
  split; [reflexivity|].
  destruct (refresh_keeps_refresh_token demo_sign demo_verify demo_hash
              demo_refresh_token demo_db (fst (demo_refresh demo_db 5000))
              5000 "access@5000.ayu" demo_info eq_refl)
    as (_ & _ & _ & _ & _ & Hagain).
  apply (Hagain 6000%Z); [reflexivity|].
  intros s [<-|[]]. discriminate.
Defined.

(** The session of the example was stored for the access token signed at
    1000, which expires seven days later.  A refresh at that same instant
    signs the same claims again and returns the same token: the call
    succeeds, the row holds the digest it held before, the lookup of
    [validateSession] for the old token still finds the row, and the new
    expiry is the same instant written in the other shape, not a later
    one.  C5 has the old digest superseded and the expiry extended. *)
Lemma refresh_in_the_second_of_issue_keeps_the_digest :
  let refreshed :=
    mkSession 10 1 (demo_hash demo_access_token) (Some "sha256(c0ffee)")
              (SqliteDatetime 604801) 1000 true in
  demo_refresh demo_db 1000
  = (mkDb [demo_user] [refreshed] 11 [],
     RefreshSuccess demo_access_token demo_info) /\
  token_hash refreshed = token_hash demo_session /\
  find (live_session (fst (demo_refresh demo_db 1000))
                     (demo_hash demo_access_token) 2000)
       (sessions (fst (demo_refresh demo_db 1000)))
  = Some refreshed /\
  expires_at demo_session = IsoString (604801 * 1000) /\
  text_ltb (expires_at demo_session) (expires_at refreshed) = false.
Proof. vm_compute. repeat split. Qed.

End Jwt.


(** ** Authentication middleware (middleware/auth.js) *)

Module Middleware.
Import Db Jwt.

(** The middleware either calls [next()] with [req.user] and [req.session]
    attached, or answers with a status and an error text. *)
Inductive outcome : Type :=
| Next (req_user : payload) (req_session : session_row)
| Respond (status : Z) (error : string).

Definition no_token_msg : string :=
  "Token autentikasi tidak ditemukan. Silakan login terlebih dahulu.".

(** [authHeader && authHeader.split(' ')[1]], with every falsy value read as
    an absent token. *)
Definition bearer_token (authHeader : option string) : option string :=
  match authHeader with
  | Some header =>
      match JsString.index (JsString.split " " header) 1 with
      | Some token => if JsString.falsy token then None else Some token
      | None => None
      end
  | None => None
  end.

Section WithPrimitives.

Variable jwt_verify : string -> Z -> jwt_verdict.
Variable hashToken : string -> string.

Definition authenticateToken (authHeader : option string) (d : database)
    (now : Z) : database * outcome :=
  match bearer_token authHeader with
  | None => (d, Respond 401 no_token_msg)
  | Some token =>
      match verifyAccessToken jwt_verify token now with
      | NotVerified error => (d, Respond 401 error)
      | Verified decoded =>
          match validateSession hashToken token d now with
          | (d', SessionInvalid error) => (d', Respond 401 error)
          | (d', SessionValid session _) => (d', Next (body decoded) session)
          end
      end
  end.

Variable jwt_sign : payload -> Z -> string.
Variable jwt_decode : string -> option decoded_token.

(** C2. Once [invalidateSession] has run for an access token whose session
    row exists, it has reported a change, and after any later calls of the
    token authority whatever, a request that presents the token is answered
    401 with one of the two session errors and attaches nothing, although
    the signature check of the token still succeeds.  When none of the
    later calls issues an access token with the same digest again, the
    error is the one of a session that was not found. *)
Theorem revoked_token_is_rejected
    (token : string) (d : database) (s : session_row)
    (later : list operation) (authHeader : option string) (now : Z)
    (decoded : decoded_token) :
  In s (sessions d) ->
  token_hash s = hashToken token ->
  bearer_token authHeader = Some token ->
  verifyAccessToken jwt_verify token now = Verified decoded ->
  let revocation := invalidateSession hashToken token d in
  let d' :=
    perform_all jwt_sign jwt_verify jwt_decode hashToken (fst revocation)
                later in
  snd revocation = true /\
  (exists error,
      authenticateToken authHeader d' now = (d', Respond 401 error) /\
      (error = session_missing_msg \/ error = session_failed_msg)) /\
  (Forall (issues_other_than jwt_sign hashToken (hashToken token)) later ->
   authenticateToken authHeader d' now
   = (d', Respond 401 session_missing_msg)).
Proof.
  intros Hin Hh Hbearer Hsig revocation d'. split; [|split].
  - exact (invalidateSession_reports hashToken token d s Hin Hh).
  - unfold authenticateToken. rewrite Hbearer, Hsig.
    destruct (validateSession_never_valid hashToken token d' now)
      as (error & E & Herror).
    rewrite E. eauto.
  - intros Hlater. unfold authenticateToken. rewrite Hbearer, Hsig.
    rewrite validateSession_revoked; [reflexivity|].
    apply revoked_perform_all; [exact Hlater|].
    apply revoked_after_invalidateSession.
Qed.

End WithPrimitives.

Definition demo_header : option string :=
  Some ("Bearer " ++ demo_access_token).

(** The token of the example session, presented while the session is live:
    the row is found, the UPDATE is refused, the answer is 401. *)
Example demo_live_token_is_turned_away :
  authenticateToken demo_verify demo_hash demo_header demo_db 2000 =
    (demo_db, Respond 401 session_failed_msg).
Proof. reflexivity. Qed.

(** The calls that follow the revocation in the example: the sweep, which
    deletes the revoked row; a refresh of another session of the user in
    the instant the revoked token was signed, which signs that token again
    and stores its digest on the other row; and a new session for a third
    token. *)
Definition demo_other_payload : payload :=
  mkPayload 1 None None (Some "sha256(decaf)") "refresh".

Definition demo_other_refresh_token : string :=
  demo_sign demo_other_payload 500.

Definition demo_other_session : session_row :=
  mkSession 11 1 "sha256(access@500.ayu)" (Some "sha256(decaf)")
            (IsoString 604800500) 500 true.

Definition demo_two_sessions : database :=
  mkDb [demo_user] [demo_session; demo_other_session] 12 [].

Definition demo_verify_both (token : string) (now : Z) : jwt_verdict :=
  if String.eqb token demo_other_refresh_token
  then JwtVerified (mkDecoded demo_other_payload 2592000)
  else demo_verify token now.

Definition demo_later : list operation :=
  [ CallCleanExpiredSessions 1000;
    CallRefreshAccessToken demo_other_refresh_token 1000;
    CallStoreSession 1 "access@4000.ayu" "sha256(f00d)" 4000 ].

Definition demo_after_revocation : database :=
  perform_all demo_sign demo_verify_both demo_decode demo_hash
    (fst (invalidateSession demo_hash demo_access_token demo_two_sessions))
    demo_later.

(** In this run the revoked token meets a row again, the one of the other
    session, and is turned away by the refused UPDATE. *)
Example demo_revoked_token_after_reissue :
  sessions demo_after_revocation
  = [ mkSession 11 1 (demo_hash demo_access_token) (Some "sha256(decaf)")
                (SqliteDatetime 604801) 500 true;
      mkSession 12 1 "sha256(access@4000.ayu)" (Some "sha256(f00d)")
                (IsoString 604801000) 4000 true ] /\
  authenticateToken demo_verify_both demo_hash demo_header
                    demo_after_revocation 6000
  = (demo_after_revocation, Respond 401 session_failed_msg).
Proof. vm_compute. split; reflexivity. Qed.

Lemma revoked_token_is_rejected_witness :
  let d' := demo_after_revocation in
  snd (invalidateSession demo_hash demo_access_token demo_two_sessions)
  = true /\
  (exists error,
      authenticateToken demo_verify_both demo_hash demo_header d' 6000
      = (d', Respond 401 error) /\
      (error = session_missing_msg \/ error = session_failed_msg)) /\
  (Forall (issues_other_than demo_sign demo_hash (demo_hash demo_access_token))
          demo_later ->
   authenticateToken demo_verify_both demo_hash demo_header d' 6000
   = (d', Respond 401 session_missing_msg)).
Proof.
  apply (revoked_token_is_rejected demo_verify_both demo_hash demo_sign
           demo_decode demo_access_token demo_two_sessions demo_session
           demo_later demo_header 6000
           (mkDecoded demo_access_payload 604801)).
  - now left.
  - reflexivity.
  - reflexivity.
  - reflexivity.
Defined.

End Middleware.

(** ** Login and the lockout policy (controllers/authController.js) *)

Module AuthController.
Import Db Jwt.

(** [sanitizeInput]: [input.trim().replace(/[<>]/g, '').substring(0, 1000)],
    over the one-byte code units of the model. *)
Definition is_space (c : ascii) : bool :=
  let n := N_of_ascii c in
  (((9 <=? n) && (n <=? 13)) || (n =? 32) || (n =? 160))%N.

Fixpoint trim_start (l : list ascii) : list ascii :=
  match l with
  | c :: rest => if is_space c then trim_start rest else l
  | [] => []
  end.

Definition trim (s : string) : string :=
  string_of_list_ascii
    (rev (trim_start (rev (trim_start (list_ascii_of_string s))))).

Fixpoint remove_angle_brackets (s : string) : string :=
  match s with
  | String c rest =>
      if Ascii.eqb c "<" || Ascii.eqb c ">"
      then remove_angle_brackets rest
      else String c (remove_angle_brackets rest)
  | EmptyString => EmptyString
  end.

Definition sanitizeInput (input : string) : string :=
  String.substring 0 1000 (remove_angle_brackets (trim input)).

(** The state a request runs in: the database, and the calls of
    [verifyPassword] made so far, each with its password and digest. *)
Record world : Type := mkWorld {
  store : database;
  hasher_calls : list (string * string)
}.

(** The error texts of [login]; two of them carry a number. *)
Inductive login_error : Type :=
| MissingCredentials   (* Username/email dan password harus diisi *)
| BadCredentials       (* Username/email atau password salah *)
| AccountDeactivated   (* Akun Anda telah dinonaktifkan. ... *)
| AccountLocked (minutesLeft : Z)
    (* Akun terkunci ... Coba lagi dalam ${minutesLeft} menit. *)
| WrongPassword (newAttempts : Z)
    (* ... password salah. Percobaan ke-${newAttempts} dari 5. *)
| LoginFailed.         (* Terjadi kesalahan saat login. ... *)

Inductive login_reply : Type :=
| Rejected (status : Z) (error : login_error)
| LoggedIn (status : Z) (user : user_info) (lastLogin : option Z)
           (accessToken refreshToken : string).

Definition lock_duration : Z := 30 * 60000.

(** [Math.ceil(x / 60000)] *)
Definition ceil_minutes (x : Z) : Z := - ((- x) / 60000).

(** [user.locked_until && new Date(user.locked_until) > new Date()], with
    the unlock time when it holds. *)
Definition locked_at (user : user_row) (now : Z) : option Z :=
  match locked_until user with
  | Some unlockTime => if (now <? unlockTime)%Z then Some unlockTime else None
  | None => None
  end.

Definition user_matches (identifier : string) (u : user_row) : bool :=
  String.eqb (username u) identifier || String.eqb (email u) identifier.

Definition logActivity (uid : Z) (actionType details_ : string)
    (d : database) : database :=
  mkDb (users d) (sessions d) (next_session_id d)
       (activity_logs d ++ [mkLog uid actionType details_])%list.

Section WithPrimitives.

Variable bcrypt_compare : string -> string -> js_result bool.
Variable jwt_sign : payload -> Z -> string.
Variable jwt_decode : string -> option decoded_token.
Variable hashToken : string -> string.

(** The branch of [login] taken when the password does not verify. *)
Definition record_failure (user : user_row) (d : database) (now : Z)
  : database * login_reply :=
  let newAttempts := (login_attempts user + 1)%Z in
  let d1 :=
    if (5 <=? newAttempts)%Z then
      let lockUntil := (now + lock_duration)%Z in
      with_users d (map (set_login_attempts_and_lock newAttempts lockUntil
                                                     (user_id user))
                        (users d))
    else
      with_users d (map (set_login_attempts newAttempts (user_id user))
                        (users d)) in
  (logActivity (user_id user) "login_failed" "Percobaan login gagal" d1,
   Rejected 401 (WrongPassword newAttempts)).

(** The branch of [login] taken when the password verifies.  Its first
    statement is the UPDATE that resets the attempts, one of the statements
    the store refuses ([Db.reset_login_attempts]): the exception reaches the
    handler of [login], which answers 500. *)
Definition open_session (user : user_row) (random : list byte)
    (d : database) (now : Z) : database * login_reply :=
  match reset_login_attempts (user_id user) d with
  | Throws _ => (d, Rejected 500 LoginFailed)
  | Returns d1 =>
      let userData :=
        mkUserInfo (user_id user) (username user) (email user) in
      let accessToken := generateAccessToken jwt_sign userData now in
      let refreshTokenData :=
        generateRefreshToken jwt_sign hashToken userData random now in
      match storeSession jwt_decode hashToken (user_id user) accessToken
                         (snd refreshTokenData) d1 now with
      | (d2, Throws _) => (d2, Rejected 500 LoginFailed)
      | (d2, Returns _) =>
          (logActivity (user_id user) "login" "Login berhasil" d2,
           LoggedIn 200 userData (last_login user) accessToken
                    (fst refreshTokenData))
      end
  end.

Definition login (identifier password : string) (random : list byte)
    (w : world) (now : Z) : world * login_reply :=
  if JsString.falsy identifier || JsString.falsy password
  then (w, Rejected 400 MissingCredentials)
  else
    let cleanIdentifier := sanitizeInput identifier in
    match find (user_matches cleanIdentifier) (users (store w)) with
    | None => (w, Rejected 401 BadCredentials)
    | Some user =>
        if negb (is_active user)
        then (w, Rejected 403 AccountDeactivated)
        else
          match locked_at user now with
          | Some unlockTime =>
              let minutesLeft := ceil_minutes (unlockTime - now) in
              (w, Rejected 403 (AccountLocked minutesLeft))
          | None =>
              let isPasswordValid :=
                Hasher.verifyPassword_value bcrypt_compare password
                                            (password_hash user) in
              let calls :=
                (hasher_calls w ++ [(password, password_hash user)])%list in
              let '(d', reply) :=
                if negb isPasswordValid
                then record_failure user (store w) now
                else open_session user random (store w) now in
              (mkWorld d' calls, reply)
          end
    end.

(** A run of login requests for one identifier, in order. *)
Fixpoint login_all (identifier : string) (random : list byte)
    (tries : list (string * Z)) (w : world) : world * list login_reply :=
  match tries with
  | [] => (w, [])
  | (password, now) :: rest =>
      let '(w1, reply) := login identifier password random w now in
      let '(w2, replies) := login_all identifier random rest w1 in
      (w2, reply :: replies)
  end.

(** *** The failure branch, row by row *)

(** The row of [user] after [record_failure] at [now]. *)
Definition after_failure (user : user_row) (now : Z) : user_row :=
  let newAttempts := (login_attempts user + 1)%Z in
  mkUser (user_id user) (username user) (email user) (password_hash user)
         (last_login user) newAttempts
         (if (5 <=? newAttempts)%Z then Some (now + lock_duration)%Z
          else locked_until user)
         (is_active user).

Lemma user_matches_set_login_attempts ident n id u :
  user_matches ident (set_login_attempts n id u) = user_matches ident u.
Proof. unfold set_login_attempts. now destruct (user_id u =? id)%Z. Qed.

Lemma user_matches_set_lock ident n t id u :
  user_matches ident (set_login_attempts_and_lock n t id u)
  = user_matches ident u.
Proof.
  unfold set_login_attempts_and_lock. now destruct (user_id u =? id)%Z.
Qed.

Lemma record_failure_row ident user d now :
  find (user_matches ident) (users d) = Some user ->
  find (user_matches ident) (users (fst (record_failure user d now)))
  = Some (after_failure user now).
Proof.
  intros Hfind. unfold record_failure, after_failure. cbv zeta.
  destruct (5 <=? login_attempts user + 1)%Z; simpl.
  - rewrite find_map_same by (intros; apply user_matches_set_lock).
    rewrite Hfind. simpl. unfold set_login_attempts_and_lock.
    now rewrite Z.eqb_refl.
  - rewrite find_map_same by (intros; apply user_matches_set_login_attempts).
    rewrite Hfind. simpl. unfold set_login_attempts.
    now rewrite Z.eqb_refl.
Qed.

(** A request with a wrong password for an active identity that is not
    locked at [now]. *)
Lemma login_wrong_password identifier password random w now user :
  JsString.falsy identifier = false ->
  JsString.falsy password = false ->
  find (user_matches (sanitizeInput identifier)) (users (store w))
    = Some user ->
  is_active user = true ->
  locked_at user now = None ->
  Hasher.verifyPassword_value bcrypt_compare password (password_hash user)
    = false ->
  login identifier password random w now =
    (mkWorld (fst (record_failure user (store w) now))
             (hasher_calls w ++ [(password, password_hash user)])%list,
     Rejected 401 (WrongPassword (login_attempts user + 1))).
Proof.
  intros Hi Hp Hfind Hact Hlock Hwrong. unfold login.
  rewrite Hi, Hp, Hfind, Hact, Hlock, Hwrong. reflexivity.
Qed.

(** The same request while the lock is in force. *)
Lemma login_while_locked identifier password random w now user unlockTime :
  JsString.falsy identifier = false ->
  JsString.falsy password = false ->
  find (user_matches (sanitizeInput identifier)) (users (store w))
    = Some user ->
  is_active user = true ->
  locked_until user = Some unlockTime ->
  (now < unlockTime)%Z ->
  login identifier password random w now =
    (w, Rejected 403 (AccountLocked (ceil_minutes (unlockTime - now)))).
Proof.
  intros Hi Hp Hfind Hact Hlock Hlt. unfold login, locked_at.
  rewrite Hi, Hp, Hfind, Hact, Hlock.
  apply Z.ltb_lt in Hlt. now rewrite Hlt.
Qed.

Lemma ceil_minutes_pos x : (0 < x)%Z -> (0 < ceil_minutes x)%Z.
Proof.
  intros Hx. unfold ceil_minutes.
  assert ((- x) / 60000 < 0)%Z by (apply Z.div_lt_upper_bound; lia). lia.
Qed.

(** One failed request below the threshold keeps the identity unlocked. *)
Lemma login_failure_counts identifier password random w now user :
  JsString.falsy identifier = false ->
  JsString.falsy password = false ->
  find (user_matches (sanitizeInput identifier)) (users (store w))
    = Some user ->
  is_active user = true ->
  locked_until user = None ->
  Hasher.verifyPassword_value bcrypt_compare password (password_hash user)
    = false ->
  exists w',
    login identifier password random w now =
      (w', Rejected 401 (WrongPassword (login_attempts user + 1))) /\
    find (user_matches (sanitizeInput identifier)) (users (store w'))
      = Some (after_failure user now).
Proof.
  intros Hi Hp Hfind Hact Hlock Hwrong. eexists. split.
  - apply login_wrong_password; auto. unfold locked_at. now rewrite Hlock.
  - simpl. now apply record_failure_row.
Qed.

Lemma after_failure_below user now :
  (login_attempts user + 1 < 5)%Z ->
  locked_until user = None ->
  is_active (after_failure user now) = is_active user /\
  password_hash (after_failure user now) = password_hash user /\
  login_attempts (after_failure user now) = (login_attempts user + 1)%Z /\
  locked_until (after_failure user now) = None.
Proof.
  intros Hlt Hnone. unfold after_failure. simpl.
  apply Z.leb_gt in Hlt. rewrite Hlt. auto.
Qed.

Lemma after_failure_reaching user now :
  (5 <= login_attempts user + 1)%Z ->
  is_active (after_failure user now) = is_active user /\
  login_attempts (after_failure user now) = (login_attempts user + 1)%Z /\
  locked_until (after_failure user now) = Some (now + lock_duration)%Z.
Proof.
  intros Hle. unfold after_failure. simpl.
  apply Z.leb_le in Hle. rewrite Hle. auto.
Qed.

(** C3. (1) Five failed requests in a row for an active identity with no
    failed attempt and no lock are answered "attempt 1" to "attempt 5", and
    leave the identity with five attempts and [locked_until] thirty minutes
    after the fifth request, which is later than that request.  (2) A
    request for an active identity whose [locked_until] is later than now is
    answered 403 with the minutes left, a positive number, and leaves the
    whole state as it was: the attempt counter keeps its value and
    [verifyPassword] is not called. *)
Theorem lockout_after_five_failures :
  (forall identifier random w user p1 p2 p3 p4 p5 t1 t2 t3 t4 t5,
      JsString.falsy identifier = false ->
      find (user_matches (sanitizeInput identifier)) (users (store w))
        = Some user ->
      is_active user = true ->
      login_attempts user = 0%Z ->
      locked_until user = None ->
      Forall (fun p =>
                JsString.falsy p = false /\
                Hasher.verifyPassword_value bcrypt_compare p
                                            (password_hash user) = false)
             [p1; p2; p3; p4; p5] ->
      exists w' user',
        login_all identifier random
                  [(p1, t1); (p2, t2); (p3, t3); (p4, t4); (p5, t5)] w
        = (w', [Rejected 401 (WrongPassword 1); Rejected 401 (WrongPassword 2);
                Rejected 401 (WrongPassword 3); Rejected 401 (WrongPassword 4);
                Rejected 401 (WrongPassword 5)]) /\
        find (user_matches (sanitizeInput identifier)) (users (store w'))
          = Some user' /\
        is_active user' = true /\
        login_attempts user' = 5%Z /\
        locked_until user' = Some (t5 + lock_duration)%Z /\
        lock_duration = 1800000%Z /\
        (t5 < t5 + lock_duration)%Z)
  /\
  (forall identifier password random w now user unlockTime,
      JsString.falsy identifier = false ->
      JsString.falsy password = false ->
      find (user_matches (sanitizeInput identifier)) (users (store w))
        = Some user ->
      is_active user = true ->
      locked_until user = Some unlockTime ->
      (now < unlockTime)%Z ->
      login identifier password random w now =
        (w, Rejected 403 (AccountLocked (ceil_minutes (unlockTime - now)))) /\
      (0 < ceil_minutes (unlockTime - now))%Z).
Proof.
  split.
  - intros identifier random w user p1 p2 p3 p4 p5 t1 t2 t3 t4 t5
           Hi Hfind Hact Hzero Hnone Hwrong.
    repeat match goal with
           | H : Forall _ (_ :: _) |- _ => inversion_clear H
           end.
    repeat match goal with H : _ /\ _ |- _ => destruct H end.
    destruct (login_failure_counts identifier p1 random w t1 user)
      as (w1 & E1 & F1); auto.
    destruct (after_failure_below user t1) as (Ka1 & Kh1 & Kn1 & Kl1);
      [lia|auto|]. set (u1 := after_failure user t1) in *.
    destruct (login_failure_counts identifier p2 random w1 t2 u1)
      as (w2 & E2 & F2); try congruence.
    destruct (after_failure_below u1 t2) as (Ka2 & Kh2 & Kn2 & Kl2);
      [lia|auto|]. set (u2 := after_failure u1 t2) in *.
    destruct (login_failure_counts identifier p3 random w2 t3 u2)
      as (w3 & E3 & F3); try congruence.
    destruct (after_failure_below u2 t3) as (Ka3 & Kh3 & Kn3 & Kl3);
      [lia|auto|]. set (u3 := after_failure u2 t3) in *.
    destruct (login_failure_counts identifier p4 random w3 t4 u3)
      as (w4 & E4 & F4); try congruence.
    destruct (after_failure_below u3 t4) as (Ka4 & Kh4 & Kn4 & Kl4);
      [lia|auto|]. set (u4 := after_failure u3 t4) in *.
    destruct (login_failure_counts identifier p5 random w4 t5 u4)
      as (w5 & E5 & F5); try congruence.
    destruct (after_failure_reaching u4 t5) as (Ka5 & Kn5 & Kl5); [lia|].
    exists w5, (after_failure u4 t5).
    split; [|repeat split; try assumption; try congruence;
             unfold lock_duration; try lia].
    simpl login_all. rewrite E1, E2, E3, E4, E5.
    replace (login_attempts user + 1)%Z with 1%Z by lia.
    replace (login_attempts u1 + 1)%Z with 2%Z by lia.
    replace (login_attempts u2 + 1)%Z with 3%Z by lia.
    replace (login_attempts u3 + 1)%Z with 4%Z by lia.
    replace (login_attempts u4 + 1)%Z with 5%Z by lia.
    reflexivity.
  - intros identifier password random w now user unlockTime
           Hi Hp Hfind Hact Hlock Hlt.
    split; [now apply (login_while_locked _ _ _ _ _ user)|].
    apply ceil_minutes_pos. lia.
Qed.

(** A failed request after the lock has run out, for an identity that kept
    the five attempts that set the lock: the counter goes on from there and
    the identity is locked again at once. *)
Lemma failure_after_expiry_relocks
    identifier password random w now user unlockTime :
  JsString.falsy identifier = false ->
  JsString.falsy password = false ->
  find (user_matches (sanitizeInput identifier)) (users (store w))
    = Some user ->
  is_active user = true ->
  locked_until user = Some unlockTime ->
  (unlockTime <= now)%Z ->
  (5 <= login_attempts user)%Z ->
  Hasher.verifyPassword_value bcrypt_compare password (password_hash user)
    = false ->
  exists w' user',
    login identifier password random w now =
      (w', Rejected 401 (WrongPassword (login_attempts user + 1))) /\
    find (user_matches (sanitizeInput identifier)) (users (store w'))
      = Some user' /\
    login_attempts user' = (login_attempts user + 1)%Z /\
    locked_until user' = Some (now + lock_duration)%Z.
Proof.
  intros Hi Hp Hfind Hact Hlock Hpast Hfive Hwrong.
  exists (mkWorld (fst (record_failure user (store w) now))
                  (hasher_calls w ++ [(password, password_hash user)])%list),
         (after_failure user now).
  split; [|split].
  - apply login_wrong_password; auto.
    unfold locked_at. rewrite Hlock.
    apply Z.ltb_ge in Hpast. now rewrite Hpast.
  - simpl. now apply record_failure_row.
  - destruct (after_failure_reaching user now) as (_ & Hn & Hl); [lia|].
    now split.
Qed.

End WithPrimitives.

(** *** A small instance, to run the definitions *)

Local Open Scope Z_scope.

(** The stand-in for bcrypt: the digest of [pw] is ["$2b$12$"] followed by
    [pw]. *)
Definition demo_compare (password hash : string) : js_result bool :=
  Returns (String.eqb ("$2b$12$" ++ password) hash).

Definition demo_login (password : string) (w : world) (now : Z)
  : world * login_reply :=
  login demo_compare demo_sign demo_decode demo_hash "ayu" password [] w now.

Definition demo_login_all (tries : list (string * Z)) (w : world)
  : world * list login_reply :=
  login_all demo_compare demo_sign demo_decode demo_hash "ayu" [] tries w.

Definition demo_world : world := mkWorld demo_db [].

Definition five_wrong : list (string * Z) :=
  [("a", 1000); ("b", 2000); ("c", 3000); ("d", 4000); ("e", 5000)]%Z.

Example demo_five_failures :
  users (store (fst (demo_login_all five_wrong demo_world)))
  = [mkUser 1 "ayu" "ayu@example.com" "$2b$12$demo" None 5 (Some 1805000) true].
Proof. reflexivity. Qed.

Example demo_sixth_attempt_while_locked :
  let w5 := fst (demo_login_all five_wrong demo_world) in
  demo_login "demo" w5 6000 = (w5, Rejected 403 (AccountLocked 30)).
Proof. reflexivity. Qed.

(** The right password after the lock has run out: the reset is refused,
    the answer is 500 and the row keeps its five attempts. *)
Example demo_right_password_after_the_lock :
  let w5 := fst (demo_login_all five_wrong demo_world) in
  users (store (fst (demo_login "demo" w5 1900000)))
  = [mkUser 1 "ayu" "ayu@example.com" "$2b$12$demo" None 5 (Some 1805000) true]
  /\
  snd (demo_login "demo" w5 1900000) = Rejected 500 LoginFailed.
Proof. vm_compute. split; reflexivity. Qed.

Lemma lockout_after_five_failures_witness :
  (exists w' user',
      demo_login_all five_wrong demo_world
      = (w', [Rejected 401 (WrongPassword 1); Rejected 401 (WrongPassword 2);
              Rejected 401 (WrongPassword 3); Rejected 401 (WrongPassword 4);
              Rejected 401 (WrongPassword 5)]) /\
      find (user_matches (sanitizeInput "ayu")) (users (store w')) = Some user' /\
      is_active user' = true /\
      login_attempts user' = 5%Z /\
      locked_until user' = Some (5000 + lock_duration)%Z /\
      lock_duration = 1800000%Z /\
      (5000 < 5000 + lock_duration)%Z)
  /\
  (let w5 := fst (demo_login_all five_wrong demo_world) in
   demo_login "demo" w5 6000 =
     (w5, Rejected 403 (AccountLocked (ceil_minutes (1805000 - 6000)))) /\
   (0 < ceil_minutes (1805000 - 6000))%Z).
Proof.
  destruct (lockout_after_five_failures demo_compare demo_sign demo_decode
              demo_hash) as [Hfive Hlocked].
  split.
  - apply (Hfive "ayu" [] demo_world demo_user); try reflexivity.
    repeat constructor.
  - apply (Hlocked "ayu" "demo" [] _ 6000%Z
             (mkUser 1 "ayu" "ayu@example.com" "$2b$12$demo" None 5
                     (Some 1805000%Z) true) 1805000%Z);
      reflexivity.
Defined.

(** C4. The run of the code at the failing input: five failed requests lock
    the identity until 1805000; the next failed request, at 1900000 when the
    lock has run out, is answered "attempt 6" and locks the identity again,
    until thirty minutes later.  It is not counted as attempt 1. *)
Theorem failure_after_expired_lock_is_sixth_attempt :
  let w5 := fst (demo_login_all five_wrong demo_world) in
  users (store w5)
  = [mkUser 1 "ayu" "ayu@example.com" "$2b$12$demo" None 5 (Some 1805000) true]
  /\
  snd (demo_login "wrong" w5 1900000) = Rejected 401 (WrongPassword 6) /\
  users (store (fst (demo_login "wrong" w5 1900000)))
  = [mkUser 1 "ayu" "ayu@example.com" "$2b$12$demo" None 6 (Some 3700000) true]
  /\
  demo_login "demo" (fst (demo_login "wrong" w5 1900000)) 1900001
  = (fst (demo_login "wrong" w5 1900000), Rejected 403 (AccountLocked 30)).
Proof. vm_compute. repeat split. Qed.

End AuthController.


(** ** CryptoJS.AES with a passphrase

    [CryptoJS.AES.encrypt(message, passphrase)] derives a key and an IV from
    the passphrase and a random salt of eight bytes the way OpenSSL does (MD5,
    one iteration), encrypts with AES-256-CBC and PKCS#7, and prints
    ["Salted__"], the salt and the ciphertext in Base64.  [decrypt] reads
    the salt back, derives and decrypts, drops as many bytes as the last
    byte says without checking them, and [toString(CryptoJS.enc.Utf8)]
    throws on bytes that are not UTF-8.  This is the instance with which
    the export codec is run; its theorems take CryptoJS as variables. *)

Module CryptoJs.
Import Aes.
Local Open Scope N_scope.
Local Open Scope list_scope.

(** Bytes and 32-bit words as numbers. *)
Definition w32 (x : N) : N := x mod 4294967296.

Definition rotl32 (x s : N) : N :=
  w32 (N.lor (N.shiftl x s) (N.shiftr x (32 - s))).

Definition not32 (x : N) : N := 4294967295 - x.

(** *** MD5 (RFC 1321) *)

Definition word_le (bs : list N) : N :=
  fold_right (fun b acc => b + 256 * acc) 0 bs.

Definition bytes_le (w : N) : list N :=
  [w mod 256; (w / 256) mod 256; (w / 65536) mod 256; (w / 16777216) mod 256].

Definition md5_shifts : list N :=
  [7; 12; 17; 22; 7; 12; 17; 22; 7; 12; 17; 22; 7; 12; 17; 22;
   5; 9; 14; 20; 5; 9; 14; 20; 5; 9; 14; 20; 5; 9; 14; 20;
   4; 11; 16; 23; 4; 11; 16; 23; 4; 11; 16; 23; 4; 11; 16; 23;
   6; 10; 15; 21; 6; 10; 15; 21; 6; 10; 15; 21; 6; 10; 15; 21].

(** [floor (2^32 * abs (sin (i + 1)))] for [i] from 0 to 63. *)
Definition md5_sines : list N :=
  [3614090360; 3905402710; 606105819; 3250441966; 4118548399; 1200080426;
   2821735955; 4249261313; 1770035416; 2336552879; 4294925233; 2304563134;
   1804603682; 4254626195; 2792965006; 1236535329; 4129170786; 3225465664;
   643717713; 3921069994; 3593408605; 38016083; 3634488961; 3889429448;
   568446438; 3275163606; 4107603335; 1163531501; 2850285829; 4243563512;
   1735328473; 2368359562; 4294588738; 2272392833; 1839030562; 4259657740;
   2763975236; 1272893353; 4139469664; 3200236656; 681279174; 3936430074;
   3572445317; 76029189; 3654602809; 3873151461; 530742520; 3299628645;
   4096336452; 1126891415; 2878612391; 4237533241; 1700485571; 2399980690;
   4293915773; 2240044497; 1873313359; 4264355552; 2734768916; 1309151649;
   4149444226; 3174756917; 718787259; 3951481745].

Definition md5_state : Type := (N * N * N * N)%type.

Definition md5_round (M : list N) (st : md5_state) (i : nat) : md5_state :=
  let '(a, b, c, d) := st in
  let n := N.of_nat i in
  let '(f, g) :=
    if n <? 16 then (N.lor (N.land b c) (N.land (not32 b) d), n)
    else if n <? 32
    then (N.lor (N.land d b) (N.land (not32 d) c), (5 * n + 1) mod 16)
    else if n <? 48 then (N.lxor b (N.lxor c d), (3 * n + 5) mod 16)
    else (N.lxor c (N.lor b (not32 d)), (7 * n) mod 16) in
  let sum := w32 (f + a + nth i md5_sines 0 + nth (N.to_nat g) M 0) in
  (d, w32 (b + rotl32 sum (nth i md5_shifts 0)), b, c).

Definition md5_block (st : md5_state) (block : list N) : md5_state :=
  let M := map word_le (chunks 4 block) in
  let '(a, b, c, d) := st in
  let '(a', b', c', d') := fold_left (md5_round M) (seq 0 64) st in
  (w32 (a + a'), w32 (b + b'), w32 (c + c'), w32 (d + d')).

Definition md5_pad (m : list N) : list N :=
  let len := N.of_nat (List.length m) in
  let zeros := (119 - len mod 64) mod 64 in
  m ++ [128] ++ repeat 0 (N.to_nat zeros)
    ++ bytes_le (w32 (8 * len)) ++ bytes_le ((8 * len) / 4294967296).

Definition md5 (m : list N) : list N :=
  let '(a, b, c, d) :=
    fold_left md5_block (chunks 64 (md5_pad m))
              (1732584193, 4023233417, 2562383102, 271733878) in
  bytes_le a ++ bytes_le b ++ bytes_le c ++ bytes_le d.

(** *** Key derivation, Base64 and the two calls *)

(** The key derivation of OpenSSL with MD5 and one iteration: 32 bytes of
    key, then 16 bytes of IV. *)
Definition derive (passphrase salt : list N) : list N * list N :=
  let d1 := md5 (passphrase ++ salt) in
  let d2 := md5 (d1 ++ passphrase ++ salt) in
  let d3 := md5 (d2 ++ passphrase ++ salt) in
  (d1 ++ d2, d3).

(** The Base64 digit of a number below 64, by character code, and back; a
    character that is no digit counts as zero, as it does in the bit
    operations of [Base64.parse]. *)
Definition base64_digit (v : N) : ascii :=
  ascii_of_N (if v <? 26 then 65 + v
              else if v <? 52 then 71 + v
              else if v <? 62 then v - 4
              else if v =? 62 then 43 else 47).

Definition base64_value (c : ascii) : N :=
  let n := N_of_ascii c in
  if (65 <=? n) && (n <=? 90) then n - 65
  else if (97 <=? n) && (n <=? 122) then n - 71
  else if (48 <=? n) && (n <=? 57) then n + 4
  else if n =? 43 then 62
  else if n =? 47 then 63
  else 0.

Definition base64_group (g : list N) : string :=
  match g with
  | [a; b; c] =>
      String (base64_digit (a / 4))
        (String (base64_digit ((a mod 4) * 16 + b / 16))
           (String (base64_digit ((b mod 16) * 4 + c / 64))
              (String (base64_digit (c mod 64)) EmptyString)))
  | [a; b] =>
      String (base64_digit (a / 4))
        (String (base64_digit ((a mod 4) * 16 + b / 16))
           (String (base64_digit ((b mod 16) * 4)) (String "=" EmptyString)))
  | [a] =>
      String (base64_digit (a / 4))
        (String (base64_digit ((a mod 4) * 16))
           (String "=" (String "=" EmptyString)))
  | _ => EmptyString
  end.

Definition base64_stringify (bs : list N) : string :=
  String.concat EmptyString (map base64_group (chunks 3 bs)).

Fixpoint before_padding (s : string) : list ascii :=
  match s with
  | EmptyString => []
  | String c rest => if Ascii.eqb c "=" then [] else c :: before_padding rest
  end.

Definition base64_bytes (g : list N) : list N :=
  match g with
  | [a; b; c; d] =>
      [a * 4 + b / 16; (b mod 16) * 16 + c / 4; (c mod 4) * 64 + d]
  | [a; b; c] => [a * 4 + b / 16; (b mod 16) * 16 + c / 4]
  | [a; b] => [a * 4 + b / 16]
  | _ => []
  end.

Definition base64_parse (s : string) : list N :=
  concat (map base64_bytes (chunks 4 (map base64_value (before_padding s)))).

(** ["Salted__"] *)
Definition salted : list N := [83; 97; 108; 116; 101; 100; 95; 95].

Definition utf8 (s : string) : list N :=
  Utf8.encode_units (Utf16.of_string s).

(** [unpad] of CryptoJS: the last byte is the number of bytes to drop. *)
Definition unpad (m : list N) : list N :=
  firstn (List.length m - N.to_nat (last m 0)) m.

(** [CryptoJS.AES.encrypt(message, passphrase).toString()], with the salt
    that was drawn. *)
Definition encrypt (message passphrase : string) (salt : list byte)
  : string :=
  let '(key, iv) := derive (utf8 passphrase) (to_numbers salt) in
  base64_stringify
    (salted ++ to_numbers salt ++ cbc_encrypt key iv (pad (utf8 message))).

(** [CryptoJS.AES.decrypt(ciphertext, passphrase).toString(CryptoJS.enc.Utf8)]
    for a ciphertext text that starts with the header and the salt.  (A
    text without the header is decrypted under a salt drawn afresh; the
    instance derives without salt there.  Decrypted text with a code unit
    above 255 has no [string]; the instance reports it as an error of its
    own.) *)
Definition decrypt_utf8 (ciphertext passphrase : string)
  : js_result string :=
  let raw := base64_parse ciphertext in
  let '(salt, body) :=
    if forallb (fun p => fst p =? snd p) (combine (firstn 8 raw) salted)
       && (8 <=? List.length raw)%nat
    then (firstn 8 (skipn 8 raw), skipn 16 raw)
    else ([], raw) in
  let '(key, iv) := derive (utf8 passphrase) salt in
  match Utf8.decode_strict (unpad (cbc_decrypt key iv body)) with
  | None => Throws "Malformed UTF-8 data"
  | Some text =>
      match Utf16.to_string text with
      | Some s => Returns s
      | None => Throws "text outside the one-byte strings"
      end
  end.

End CryptoJs.

(** ** Export codec (utils/encryption.js, controllers/exportController.js) *)

Module ExportCodec.

(** A JSON document. *)
#[local] Unset Elimination Schemes.
Inductive json : Type :=
| JNull
| JBool (b : bool)
| JNumber (n : Z)
| JString (s : string)
| JArray (items : list json)
| JObject (fields : list (string * json)).
#[local] Set Elimination Schemes.

(** [doc.key], with [undefined] as [None]. *)
Definition property (key : string) (doc : json) : option json :=
  match doc with
  | JObject fields =>
      option_map snd (find (fun kv => String.eqb (fst kv) key) fields)
  | _ => None
  end.

(** The truthiness of a property value. *)
Definition truthy (v : option json) : bool :=
  match v with
  | None | Some JNull => false
  | Some (JBool b) => b
  | Some (JNumber n) => negb (n =? 0)%Z
  | Some (JString s) => negb (JsString.falsy s)
  | Some (JArray _) | Some (JObject _) => true
  end.

Definition field_names (doc : json) : list string :=
  match doc with
  | JObject fields => map fst fields
  | _ => []
  end.

Definition export_error : string := "Gagal mengenkripsi data export".
Definition import_error : string :=
  "Gagal mendekripsi file import. Pastikan password benar.".

(** [customKey || config.encryption.exportKey] *)
Definition key_or (customKey : option string) (exportKey : string) : string :=
  match customKey with
  | Some k => if JsString.falsy k then exportKey else k
  | None => exportKey
  end.

(** The [exportPackage] object literal of [encryptExportData]. *)
Definition exportPackage (timestamp encrypted : string) : json :=
  JObject [ ("version", JString "1.0");
            ("timestamp", JString timestamp);
            ("data", JString encrypted) ].

(** The [exportData] object literal of [exportVault]. *)
Definition exportData (accounts : list json) (exportedAt exportedBy : string)
  : json :=
  JObject [ ("version", JString "1.0");
            ("exportedAt", JString exportedAt);
            ("exportedBy", JString exportedBy);
            ("totalAccounts", JNumber (Z.of_nat (List.length accounts)));
            ("accounts", JArray accounts) ].

(** [decryptedData.accounts] as [importVault] accepts it: an array. *)
Definition accounts_of (decryptedData : json) : option (list json) :=
  match property "accounts" decryptedData with
  | Some (JArray accounts) => Some accounts
  | _ => None
  end.

Section WithPrimitives.

(** [JSON.stringify] and [JSON.parse]; [None] is a SyntaxError. *)
Variable JSON_stringify : json -> string.
Variable JSON_parse : string -> option json.

(** [CryptoJS.AES.encrypt(message, passphrase).toString()] for the salt it
    draws, and [CryptoJS.AES.decrypt(ciphertext, passphrase)
    .toString(CryptoJS.enc.Utf8)], which throws on bytes that are not UTF-8. *)
Variable cryptojs_encrypt : string -> string -> list byte -> string.
Variable cryptojs_decrypt_utf8 : string -> string -> js_result string.

(** [new Date(now).toISOString()] and [config.encryption.exportKey]. *)
Variable toISOString : Z -> string.
Variable exportKey : string.

Definition encryptExportData (data : json) (customKey : option string)
    (salt : list byte) (now : Z) : js_result string :=
  let key := key_or customKey exportKey in
  let encrypted := cryptojs_encrypt (JSON_stringify data) key salt in
  Returns (JSON_stringify (exportPackage (toISOString now) encrypted)).

(** A [data] field that is not a string makes [CryptoJS.AES.decrypt] throw;
    every exception ends in the one error of the handler. *)
Definition decryptImportData (encryptedPackage : string)
    (customKey : option string) : js_result json :=
  let key := key_or customKey exportKey in
  match JSON_parse encryptedPackage with
  | None => Throws import_error
  | Some packageData =>
      if negb (truthy (property "version" packageData))
         || negb (truthy (property "data" packageData))
      then Throws import_error
      else
        match property "data" packageData with
        | Some (JString ciphertext) =>
            match cryptojs_decrypt_utf8 ciphertext key with
            | Throws _ => Throws import_error
            | Returns decryptedString =>
                if JsString.falsy decryptedString then Throws import_error
                else
                  match JSON_parse decryptedString with
                  | Some decrypted => Returns decrypted
                  | None => Throws import_error
                  end
            end
        | _ => Throws import_error
        end
  end.

Lemma decryptImportData_package timestamp encrypted customKey :
  JSON_parse (JSON_stringify (exportPackage timestamp encrypted))
    = Some (exportPackage timestamp encrypted) ->
  encrypted <> "" ->
  decryptImportData (JSON_stringify (exportPackage timestamp encrypted))
                    customKey
  = match cryptojs_decrypt_utf8 encrypted (key_or customKey exportKey) with
    | Throws _ => Throws import_error
    | Returns decryptedString =>
        if JsString.falsy decryptedString then Throws import_error
        else match JSON_parse decryptedString with
             | Some decrypted => Returns decrypted
             | None => Throws import_error
             end
    end.
Proof.
  intros Hpkg Hne. unfold decryptImportData. rewrite Hpkg.
  destruct encrypted as [|c rest]; [congruence|]. reflexivity.
Qed.

Lemma key_or_passphrase passphrase :
  (8 <= String.length passphrase)%nat ->
  key_or (Some passphrase) exportKey = passphrase.
Proof.
  destruct passphrase as [|c rest]; simpl; [lia|reflexivity].
Qed.

(** C6, as the code has it.  For a passphrase of at least eight
    characters, the container that [encryptExportData] builds from the
    bundle of an account list is decoded by [decryptImportData] under the
    same passphrase to a bundle whose accounts are the original list.
    Under any other passphrase the call throws the import error exactly
    when the decryption of CryptoJS throws or gives text that is empty or
    is no JSON document; when it gives the text of a document, the call
    returns that document.  Assumed of the libraries: [JSON.parse] inverts
    [JSON.stringify] on the bundle and on the package and refuses the empty
    text; CryptoJS gives a non-empty ciphertext text and decrypts under the
    passphrase what it encrypted under it. *)
Theorem import_of_export
    (accounts : list json) (exportedAt exportedBy passphrase : string)
    (salt : list byte) (now : Z) :
  let data := exportData accounts exportedAt exportedBy in
  let encrypted := cryptojs_encrypt (JSON_stringify data) passphrase salt in
  let package := exportPackage (toISOString now) encrypted in
  (8 <= String.length passphrase)%nat ->
  JSON_parse "" = None ->
  JSON_parse (JSON_stringify data) = Some data ->
  JSON_parse (JSON_stringify package) = Some package ->
  encrypted <> "" ->
  cryptojs_decrypt_utf8 encrypted passphrase = Returns (JSON_stringify data) ->
  exists container,
    encryptExportData data (Some passphrase) salt now = Returns container /\
    (exists decrypted,
        decryptImportData container (Some passphrase) = Returns decrypted /\
        accounts_of decrypted = Some accounts) /\
    (forall other,
        other <> "" ->
        (decryptImportData container (Some other) = Throws import_error <->
         match cryptojs_decrypt_utf8 encrypted other with
         | Throws _ => True
         | Returns text => JSON_parse text = None
         end) /\
        (forall text document,
            cryptojs_decrypt_utf8 encrypted other = Returns text ->
            JSON_parse text = Some document ->
            decryptImportData container (Some other) = Returns document)).
Proof.
  intros data encrypted package Hlen Hempty Hdata Hpkg Hne Hcipher.
  exists (JSON_stringify package). split; [|split].
  - unfold encryptExportData. now rewrite key_or_passphrase.
  - exists data. split; [|reflexivity].
    unfold package. rewrite decryptImportData_package by assumption.
    rewrite key_or_passphrase by assumption. fold encrypted.
    rewrite Hcipher.
    destruct (JSON_stringify data) as [|c rest] eqn:E; [congruence|].
    simpl JsString.falsy. cbv iota. now rewrite Hdata.
  - intros other Hother.
    unfold package. rewrite decryptImportData_package by assumption.
    assert (Hkey : key_or (Some other) exportKey = other).
    { destruct other; [congruence|reflexivity]. }
    rewrite Hkey. fold encrypted.
    destruct (cryptojs_decrypt_utf8 encrypted other) as [text|e].
    + destruct text as [|c rest].
      * simpl JsString.falsy. cbv iota. rewrite Hempty.
        split; [tauto|]. intros text document E. inversion E; subst.
        congruence.
      * simpl JsString.falsy. cbv iota.
        destruct (JSON_parse (String c rest)) as [document|] eqn:Ep.
        -- split; [split; discriminate|].
           intros text d E Ed. inversion E; subst. congruence.
        -- split; [tauto|]. intros text d E Ed. inversion E; subst.
           congruence.
    + split; [tauto|]. discriminate.
Qed.

(** C9, as the code has it.  The container of [encryptExportData] is the
    JSON text of an object with exactly the fields [version], the string
    ["1.0"]; [timestamp], the ISO-8601 text of the current instant; and
    [data], the ciphertext text that CryptoJS returns for the serialized
    bundle.  It has no field [createdAt] and no field [payload]. *)
Theorem export_container_fields
    (data : json) (customKey : option string) (salt : list byte) (now : Z) :
  exists package,
    encryptExportData data customKey salt now
      = Returns (JSON_stringify package) /\
    field_names package = ["version"; "timestamp"; "data"] /\
    property "version" package = Some (JString "1.0") /\
    property "timestamp" package = Some (JString (toISOString now)) /\
    property "data" package
      = Some (JString (cryptojs_encrypt (JSON_stringify data)
                                        (key_or customKey exportKey) salt)) /\
    property "createdAt" package = None /\
    property "payload" package = None.
Proof.
  eexists. split; [reflexivity|]. repeat split.
Qed.

End WithPrimitives.

(** *** An instance, to run the definitions

    A printer of JSON text without escapes, which prints the documents of
    the example as [JSON.stringify] does; a parser that reads a text back by
    search among the documents it is given; and [CryptoJs] above. *)

Definition quote : string := String (ascii_of_nat 34) "".

Fixpoint demo_stringify (doc : json) : string :=
  match doc with
  | JNull => "null"
  | JBool b => if b then "true" else "false"
  | JNumber n => NilZero.string_of_int (Z.to_int n)
  | JString s => quote ++ s ++ quote
  | JArray items =>
      "[" ++ (fix go (l : list json) : string :=
                match l with
                | [] => ""
                | [x] => demo_stringify x
                | x :: rest => demo_stringify x ++ "," ++ go rest
                end) items ++ "]"
  | JObject fields =>
      "{" ++ (fix go (l : list (string * json)) : string :=
                match l with
                | [] => ""
                | [(k, x)] => quote ++ k ++ quote ++ ":" ++ demo_stringify x
                | (k, x) :: rest =>
                    quote ++ k ++ quote ++ ":" ++ demo_stringify x ++ ","
                    ++ go rest
                end) fields ++ "}"
  end.

Definition demo_parse (known : list json) (text : string) : option json :=
  find (fun doc => String.eqb (demo_stringify doc) text) known.

Definition demo_iso (now : Z) : string :=
  if (now =? 0)%Z then "1970-01-01T00:00:00.000Z"
  else "+" ++ NilZero.string_of_int (Z.to_int now).

Definition demo_accounts : list json :=
  [ JObject [ ("siteName", JString "github"); ("username", JString "ayu");
              ("password", JString "hunter2"); ("notes", JNull);
              ("isFavorite", JBool true) ] ].

Definition demo_data : json :=
  exportData demo_accounts "1970-01-01T00:00:00.000Z" "ayu".

Definition demo_salt : list byte := [x01; x02; x03; x04; x05; x06; x07; x08].

Definition demo_container : js_result string :=
  encryptExportData demo_stringify CryptoJs.encrypt demo_iso
                    "server-export-key" demo_data (Some "correct horse")
                    demo_salt 0.

Definition demo_encrypted : string :=
  CryptoJs.encrypt (demo_stringify demo_data) "correct horse" demo_salt.

Definition demo_package : json := exportPackage (demo_iso 0) demo_encrypted.

Definition demo_known : list json := [demo_data; demo_package; JNumber 9].

Definition demo_import (container passphrase : string) : js_result json :=
  decryptImportData (demo_parse demo_known) CryptoJs.decrypt_utf8
                    "server-export-key" container (Some passphrase).

Example demo_container_text :
  demo_container = Returns (demo_stringify demo_package).
Proof. reflexivity. Qed.

(** The ciphertext text of the example, as CryptoJS prints it. *)
Example demo_encrypted_text :
  String.substring 0 40 demo_encrypted
  = "U2FsdGVkX18BAgMEBQYHCA2ok+k6Y5liDX6x0Sn9" /\
  String.length demo_encrypted = 300%nat.
Proof. vm_compute. split; reflexivity. Qed.

Example demo_import_same_passphrase :
  demo_import (demo_stringify demo_package) "correct horse"
  = Returns demo_data.
Proof. vm_compute. reflexivity. Qed.

Example demo_import_other_passphrase :
  demo_import (demo_stringify demo_package) "battery staple"
  = Throws import_error.
Proof. vm_compute. reflexivity. Qed.

Lemma import_of_export_witness :
  exists container,
    demo_container = Returns container /\
    (exists decrypted,
        demo_import container "correct horse" = Returns decrypted /\
        accounts_of decrypted = Some demo_accounts) /\
    (demo_import container "battery staple" = Throws import_error <->
     match CryptoJs.decrypt_utf8 demo_encrypted "battery staple" with
     | Throws _ => True
     | Returns text => demo_parse demo_known text = None
     end).
Proof.
  destruct (import_of_export demo_stringify (demo_parse demo_known)
              CryptoJs.encrypt CryptoJs.decrypt_utf8 demo_iso
              "server-export-key"
              demo_accounts "1970-01-01T00:00:00.000Z" "ayu" "correct horse"
              demo_salt 0%Z)
    as (container & Hexport & Hsame & Hother).
  - vm_compute. lia.
  - vm_compute. reflexivity.
  - vm_compute. reflexivity.
  - vm_compute. reflexivity.
  - vm_compute. discriminate.
  - vm_compute. reflexivity.
  - exists container. split; [exact Hexport|]. split; [exact Hsame|].
    apply (Hother "battery staple"). discriminate.
Defined.

(** The container of the example was sealed with ["correct horse"].  Under
    the passphrase ["battery staple 1011"] the last byte of the decrypted
    blocks is 207, [unpad] drops 207 of the 208 bytes, the byte that is left
    is the digit 9, and [decryptImportData] returns the number 9.  C6 has
    every other passphrase fail. *)
Lemma another_passphrase_returns_a_document :
  demo_container = Returns (demo_stringify demo_package) /\
  demo_import (demo_stringify demo_package) "correct horse"
  = Returns demo_data /\
  CryptoJs.decrypt_utf8 demo_encrypted "battery staple 1011" = Returns "9" /\
  demo_import (demo_stringify demo_package) "battery staple 1011"
  = Returns (JNumber 9) /\
  "battery staple 1011" <> "correct horse".
Proof.
  repeat split; try (vm_compute; reflexivity). discriminate.
Qed.

(** The container of the example, read back: it has the fields [timestamp]
    and [data], and neither [createdAt] nor [payload], the names C9 gives. *)
Lemma export_container_has_no_createdAt_payload :
  exists text package,
    demo_container = Returns text /\
    demo_parse demo_known text = Some package /\
    field_names package = ["version"; "timestamp"; "data"] /\
    field_names package <> ["version"; "createdAt"; "payload"] /\
    property "createdAt" package = None /\
    property "payload" package = None.
Proof.
  exists (demo_stringify demo_package), demo_package.
  repeat split; try (vm_compute; reflexivity). discriminate.
Qed.

End ExportCodec.


(** * Further properties of the code

    The modules below cover functions the development above only passes by:
    the password policy, the input sanitizer, the configured key, the rate
    limiters, the remaining session operations and the import loop. *)

(** ** Password policy (utils/encryption.js) *)

Module PasswordPolicy.

(** [/re/.test(s)] for a character class: some character is in the class. *)
Fixpoint any (class : ascii -> bool) (s : string) : bool :=
  match s with
  | EmptyString => false
  | String c rest => class c || any class rest
  end.

Definition in_range (lo hi : N) (c : ascii) : bool :=
  let n := N_of_ascii c in ((lo <=? n) && (n <=? hi))%N.

Definition upper : ascii -> bool := in_range 65 90.
Definition lower : ascii -> bool := in_range 97 122.
Definition digit : ascii -> bool := in_range 48 57.

(** The class of punctuation characters that both regular expressions
    spell out, by character code; the underscore (95) is one of them. *)
Definition special_codes : list N :=
  [33; 64; 35; 36; 37; 94; 38; 42; 40; 41; 95; 43; 45; 61; 91; 93; 123; 125;
   59; 39; 58; 34; 92; 124; 44; 46; 60; 62; 47; 63]%N.

Definition special (c : ascii) : bool :=
  existsb (N.eqb (N_of_ascii c)) special_codes.

(** The class [[^\w\s]]: neither a word character nor white space. *)
Definition word (c : ascii) : bool :=
  upper c || lower c || digit c || (N_of_ascii c =? 95)%N.

Definition symbol (c : ascii) : bool :=
  negb (word c) && negb (AuthController.is_space c).

Definition bump (b : bool) (score : nat) : nat :=
  if b then S score else score.

(** The value of [score] when [calculatePasswordStrength] reaches its
    returns. *)
Definition strength_score (password : string) : nat :=
  let len := String.length password in
  bump (any symbol password)
    (bump (any special password)
       (bump (any digit password)
          (bump (any upper password)
             (bump (any lower password)
                (bump (16 <=? len)%nat
                   (bump (12 <=? len)%nat
                      (bump (8 <=? len)%nat 0%nat))))))).

Definition calculatePasswordStrength (password : string) : string :=
  let score := strength_score password in
  if (score <=? 3)%nat then "weak"
  else if (score <=? 5)%nat then "medium"
  else if (score <=? 7)%nat then "strong"
  else "very-strong".

Record validation : Type := mkValidation {
  isValid : bool;
  errors : list string;
  strength : string
}.

Definition push (failed : bool) (message : string) (errors : list string)
  : list string :=
  if failed then (errors ++ [message])%list else errors.

Definition validatePasswordStrength (password : string) : validation :=
  let minLength := 8%nat in
  let hasUpperCase := any upper password in
  let hasLowerCase := any lower password in
  let hasNumber := any digit password in
  let hasSpecialChar := any special password in
  let errors :=
    push (negb hasSpecialChar) "Password harus mengandung karakter spesial"
      (push (negb hasNumber) "Password harus mengandung angka"
         (push (negb hasLowerCase) "Password harus mengandung huruf kecil"
            (push (negb hasUpperCase) "Password harus mengandung huruf kapital"
               (push (String.length password <? minLength)%nat
                     "Password harus minimal 8 karakter" [])))) in
  mkValidation (List.length errors =? 0)%nat errors
               (calculatePasswordStrength password).

Lemma push_length failed message errors :
  List.length (push failed message errors)
  = (List.length errors + if failed then 1 else 0)%nat.
Proof.
  destruct failed; simpl; [|lia]. now rewrite length_app.
Qed.

(** The password is accepted exactly when none of the five checks fails. *)
Lemma isValid_true password :
  isValid (validatePasswordStrength password) = true <->
  (8 <= String.length password)%nat /\
  any upper password = true /\ any lower password = true /\
  any digit password = true /\ any special password = true.
Proof.
  unfold validatePasswordStrength. cbv zeta. simpl isValid.
  rewrite Nat.eqb_eq, !push_length. simpl List.length.
  destruct (String.length password <? 8)%nat eqn:El;
    [apply Nat.ltb_lt in El | apply Nat.ltb_ge in El];
    destruct (any upper password), (any lower password),
             (any digit password), (any special password);
    simpl; split; intros H; try lia; try (repeat split; (lia || reflexivity));
    try (destruct H as (? & ? & ? & ? & ?); (lia || discriminate)).
Qed.

Lemma any_app class s t : any class (s ++ t) = any class s || any class t.
Proof.
  induction s as [|c s IH]; simpl; [reflexivity|].
  now rewrite IH, orb_assoc.
Qed.

Lemma length_append s t :
  String.length (s ++ t) = (String.length s + String.length t)%nat.
Proof. induction s as [|c s IH]; simpl; [reflexivity|now rewrite IH]. Qed.

Lemma bump_mono b b' n n' :
  (b = true -> b' = true) -> (n <= n')%nat -> (bump b n <= bump b' n')%nat.
Proof.
  intros Hb Hn.
  destruct b, b'; simpl; first [lia | specialize (Hb eq_refl); discriminate].
Qed.

(** A password that passes the five checks scores at least five, so it is
    never rated weak; it is rated medium only when it is shorter than twelve
    characters and has no character outside letters, digits, underscore and
    white space. *)
Theorem valid_password_is_not_weak (password : string) :
  isValid (validatePasswordStrength password) = true ->
  (5 <= strength_score password)%nat /\
  strength (validatePasswordStrength password) <> "weak" /\
  (strength (validatePasswordStrength password) = "medium" ->
   (String.length password < 12)%nat /\ any symbol password = false).
Proof.
  intros Hvalid. apply isValid_true in Hvalid as (Hlen & Hu & Hl & Hd & Hs).
  simpl strength. unfold calculatePasswordStrength, strength_score.
  rewrite Hu, Hl, Hd, Hs.
  assert (H8 : (8 <=? String.length password)%nat = true)
    by now apply Nat.leb_le.
  rewrite H8.
  destruct (12 <=? String.length password)%nat eqn:E12;
    destruct (16 <=? String.length password)%nat eqn:E16;
    destruct (any symbol password); simpl;
    apply Nat.leb_gt in E12 || apply Nat.leb_le in E12;
    repeat split; intros; try lia; try discriminate.
Qed.

(** A password rated very strong scores eight: every criterion holds, so it
    has at least sixteen characters and passes validation. *)
Theorem very_strong_password_is_valid (password : string) :
  calculatePasswordStrength password = "very-strong" ->
  (16 <= String.length password)%nat /\
  any symbol password = true /\
  isValid (validatePasswordStrength password) = true.
Proof.
  unfold calculatePasswordStrength, strength_score. intros H.
  rewrite isValid_true.
  destruct (8 <=? String.length password)%nat eqn:E8;
    destruct (12 <=? String.length password)%nat eqn:E12;
    destruct (16 <=? String.length password)%nat eqn:E16;
    destruct (any lower password), (any upper password),
             (any digit password), (any special password),
             (any symbol password);
    simpl in H; try discriminate.
  apply Nat.leb_le in E8, E16. repeat split; (lia || reflexivity).
Qed.

(** Characters added at the end never lower the score. *)
Theorem strength_score_monotone (password more : string) :
  (strength_score password <= strength_score (password ++ more))%nat.
Proof.
  unfold strength_score. rewrite !any_app, length_append.
  repeat apply bump_mono; try lia;
    try (intros H; rewrite H; reflexivity);
    intros H; apply Nat.leb_le in H; apply Nat.leb_le; lia.
Qed.

Example strength_demo :
  map calculatePasswordStrength
      ["abc"; "Passw0rd_"; "Passw0rd!"; "Correct-Horse-42-Staple"]
  = ["weak"; "medium"; "strong"; "very-strong"].
Proof. reflexivity. Qed.

Lemma valid_password_is_not_weak_witness :
  (5 <= strength_score "Passw0rd_")%nat /\
  strength (validatePasswordStrength "Passw0rd_") <> "weak" /\
  (strength (validatePasswordStrength "Passw0rd_") = "medium" ->
   (String.length "Passw0rd_" < 12)%nat /\ any symbol "Passw0rd_" = false).
Proof. apply valid_password_is_not_weak. reflexivity. Defined.

Lemma very_strong_password_is_valid_witness :
  (16 <= String.length "Correct-Horse-42-Staple")%nat /\
  any symbol "Correct-Horse-42-Staple" = true /\
  isValid (validatePasswordStrength "Correct-Horse-42-Staple") = true.
Proof. apply very_strong_password_is_valid. reflexivity. Defined.

End PasswordPolicy.

(** ** The input sanitizer (utils/encryption.js) *)

Module SanitizerFacts.
Import AuthController.

Lemma substring_length n s : (String.length (String.substring 0 n s) <= n)%nat.
Proof.
  revert s. induction n as [|n IH]; intros [|c s]; simpl; try lia.
  specialize (IH s). lia.
Qed.

Lemma substring_includes c n s :
  JsString.includes c s = false ->
  JsString.includes c (String.substring 0 n s) = false.
Proof.
  revert s. induction n as [|n IH]; intros [|a s]; simpl; auto.
  intros H. apply orb_false_iff in H as [Ha Hs]. now rewrite Ha, IH.
Qed.

Lemma substring_all n s :
  (String.length s <= n)%nat -> String.substring 0 n s = s.
Proof.
  revert s. induction n as [|n IH]; intros [|c s]; simpl; intros H;
    try reflexivity; try lia.
  rewrite IH by lia. reflexivity.
Qed.

Lemma remove_angle_brackets_clean s :
  JsString.includes "<" (remove_angle_brackets s) = false /\
  JsString.includes ">" (remove_angle_brackets s) = false.
Proof.
  induction s as [|c s [IH1 IH2]]; simpl; [now split|].
  destruct (Ascii.eqb c "<") eqn:E1; [now split|].
  destruct (Ascii.eqb c ">") eqn:E2; [now split|].
  simpl. now rewrite E1, E2, IH1, IH2.
Qed.

(** What [sanitizeInput] returns has at most 1000 characters and holds
    neither ["<"] nor [">"]. *)
Theorem sanitizeInput_bounds (input : string) :
  (String.length (sanitizeInput input) <= 1000)%nat /\
  JsString.includes "<" (sanitizeInput input) = false /\
  JsString.includes ">" (sanitizeInput input) = false.
Proof.
  unfold sanitizeInput. split; [apply substring_length|].
  destruct (remove_angle_brackets_clean (trim input)) as [H1 H2].
  split; now apply substring_includes.
Qed.

(** The characters [register] allows in a username: [[a-zA-Z0-9_]]. *)
Definition username_chars (s : string) : bool :=
  forallb PasswordPolicy.word (list_ascii_of_string s).

Lemma word_not_space c :
  PasswordPolicy.word c = true -> is_space c = false.
Proof.
  unfold PasswordPolicy.word, PasswordPolicy.upper, PasswordPolicy.lower,
    PasswordPolicy.digit, PasswordPolicy.in_range, is_space.
  cbv zeta. generalize (N_of_ascii c). intros n H.
  repeat match type of H with
         | (_ || _) = true => apply orb_true_iff in H as [H|H]
         end;
    repeat match goal with
           | H : (_ && _) = true |- _ => apply andb_true_iff in H as [? ?]
           | H : (_ <=? _)%N = true |- _ => apply N.leb_le in H
           | H : (_ =? _)%N = true |- _ => apply N.eqb_eq in H
           end;
    repeat match goal with
           | |- (_ || _) = false => apply orb_false_iff; split
           | |- (_ && _) = false => apply andb_false_iff
           end;
    try (apply N.eqb_neq; lia);
    try (right; apply N.leb_gt; lia); try (left; apply N.leb_gt; lia).
Qed.

Lemma word_not_bracket c :
  PasswordPolicy.word c = true ->
  Ascii.eqb c "<" || Ascii.eqb c ">" = false.
Proof.
  intros H. apply orb_false_iff. split; apply Ascii.eqb_neq; intros ->;
    discriminate.
Qed.

Lemma trim_start_words l :
  forallb PasswordPolicy.word l = true -> trim_start l = l.
Proof.
  destruct l as [|c l]; simpl; [reflexivity|]. intros H.
  apply andb_true_iff in H as [H _]. now rewrite (word_not_space c H).
Qed.

Lemma forallb_rev {A} (p : A -> bool) l :
  forallb p (rev l) = forallb p l.
Proof.
  induction l as [|x l IH]; simpl; [reflexivity|].
  rewrite forallb_app, IH. simpl. rewrite andb_true_r. apply andb_comm.
Qed.

Lemma remove_angle_brackets_words s :
  username_chars s = true -> remove_angle_brackets s = s.
Proof.
  unfold username_chars. induction s as [|c s IH]; simpl; [reflexivity|].
  intros H. apply andb_true_iff in H as [Hc Hs].
  now rewrite (word_not_bracket c Hc), IH.
Qed.

(** An input of at most 1000 letters, digits and underscores, the only
    usernames [register] stores, comes back unchanged: [login] looks up the
    identifier as it was typed. *)
Theorem sanitizeInput_keeps_usernames (input : string) :
  username_chars input = true ->
  (String.length input <= 1000)%nat ->
  sanitizeInput input = input.
Proof.
  intros Hw Hlen. unfold sanitizeInput.
  assert (Htrim : trim input = input).
  { unfold trim, username_chars in *.
    rewrite (trim_start_words _ Hw).
    rewrite trim_start_words by now rewrite forallb_rev.
    now rewrite rev_involutive, string_of_list_ascii_of_string. }
  rewrite Htrim, remove_angle_brackets_words by assumption.
  now apply substring_all.
Qed.

Example sanitizeInput_demo :
  sanitizeInput "  <b>ayu</b> " = "bayu/b" /\
  sanitizeInput "<  ayu" = "  ayu".
Proof. split; reflexivity. Qed.

Lemma sanitizeInput_keeps_usernames_witness :
  sanitizeInput "ayu_2024" = "ayu_2024".
Proof.
  apply sanitizeInput_keeps_usernames; [reflexivity|]. simpl. lia.
Defined.

End SanitizerFacts.

(** ** The configured key and the wire format (config/config.js,
       utils/encryption.js) *)

Module CipherFacts.
Import Cipher.

(** The start-up check of [config.js] on [AES_ENCRYPTION_KEY]: present, and
    not shorter than 32 characters. *)
Definition key_accepted_at_startup (aesKey : string) : bool :=
  negb (JsString.falsy aesKey) && negb (String.length aesKey <? 32)%nat.

Lemma fromHex_length_pair s :
  (2 * List.length (Hex.fromHex s) <= String.length s)%nat /\
  forall c, (2 * List.length (Hex.fromHex (String c s))
             <= S (String.length s))%nat.
Proof.
  induction s as [|a s [IH1 IH2]].
  - split; [simpl; lia|]. intros c. simpl. lia.
  - split; [apply IH2|]. intros c.
    change (Hex.fromHex (String c (String a s)))
      with (match Hex.value c, Hex.value a with
            | Some hi, Some lo =>
                match Byte.of_N (hi * 16 + lo) with
                | Some b => b :: Hex.fromHex s
                | None => []
                end
            | _, _ => []
            end).
    destruct (Hex.value c), (Hex.value a); simpl; try lia.
    destruct (Byte.of_N _); simpl; lia.
Qed.

Lemma fromHex_length s :
  (2 * List.length (Hex.fromHex s) <= String.length s)%nat.
Proof. apply fromHex_length_pair. Qed.

Section WithPrimitives.

Variable aes_cbc_encrypt : list byte -> list byte -> list byte -> list byte.
Variable aes_cbc_decrypt :
  list byte -> list byte -> list byte -> option (list byte).
Variable utf8_decode : list byte -> Utf16.text.
Variable aesKey : string.

Local Abbreviation encryptData :=
  (Cipher.encryptData aes_cbc_encrypt aesKey).
Local Abbreviation decryptData :=
  (Cipher.decryptData aes_cbc_decrypt utf8_decode aesKey).

(** A key of 32 to 63 characters passes the start-up check, yet it decodes
    to fewer than 32 bytes: every call of [encryptData] and of [decryptData]
    throws. *)
Theorem short_key_passes_startup_and_never_works :
  (32 <= String.length aesKey < 64)%nat ->
  key_accepted_at_startup aesKey = true /\
  (forall iv plaintext, encryptData iv plaintext = Throws encrypt_error) /\
  (forall encryptedData, decryptData encryptedData = Throws decrypt_error).
Proof.
  intros [Hlo Hhi].
  assert (Hrej : forall iv, cipheriv_accepts (Hex.fromHex aesKey) iv = false).
  { intros iv. unfold cipheriv_accepts.
    pose proof (fromHex_length aesKey).
    replace (List.length (Hex.fromHex aesKey) =? 32)%nat with false;
      [reflexivity|]. symmetry. apply Nat.eqb_neq. lia. }
  split; [|split].
  - unfold key_accepted_at_startup.
    destruct aesKey; [simpl in Hlo; lia|]. simpl JsString.falsy.
    apply andb_true_iff. split; [reflexivity|].
    apply negb_true_iff, Nat.ltb_ge. exact Hlo.
  - intros iv plaintext. unfold Cipher.encryptData.
    destruct (Utf16.falsy plaintext); [reflexivity|]. now rewrite Hrej.
  - intros encryptedData. unfold Cipher.decryptData.
    destruct (_ || _); [reflexivity|].
    destruct (JsString.index _ 0); [|reflexivity].
    destruct (JsString.index _ 1); [|reflexivity]. now rewrite Hrej.
Qed.

Lemma split_three p0 p1 rest :
  JsString.includes ":" p0 = false ->
  JsString.includes ":" p1 = false ->
  JsString.split ":" (p0 ++ ":" ++ p1 ++ ":" ++ rest)
  = p0 :: p1 :: JsString.split ":" rest.
Proof.
  intros H0 H1.
  change (":" ++ p1 ++ ":" ++ rest) with (String ":" (p1 ++ String ":" rest)).
  rewrite JsString.split_app_sep by assumption.
  now rewrite JsString.split_app_sep by assumption.
Qed.

Lemma split_two p0 p1 :
  JsString.includes ":" p0 = false ->
  JsString.includes ":" p1 = false ->
  JsString.split ":" (p0 ++ ":" ++ p1) = [p0; p1].
Proof.
  intros H0 H1. change (":" ++ p1) with (String ":" p1).
  rewrite JsString.split_app_sep by assumption.
  now rewrite JsString.split_no_sep by assumption.
Qed.

Lemma guard_with_colon p0 tail :
  JsString.falsy (p0 ++ ":" ++ tail)
  || negb (JsString.includes ":" (p0 ++ ":" ++ tail)) = false.
Proof.
  apply orb_false_iff. split.
  - destruct p0; reflexivity.
  - rewrite JsString.includes_app. simpl. now rewrite orb_true_r.
Qed.

(** [decryptData] reads the first two parts only: whatever follows a second
    colon does not change its result. *)
Theorem decryptData_ignores_further_parts (p0 p1 rest : string) :
  JsString.includes ":" p0 = false ->
  JsString.includes ":" p1 = false ->
  decryptData (p0 ++ ":" ++ p1 ++ ":" ++ rest) = decryptData (p0 ++ ":" ++ p1).
Proof.
  intros H0 H1. unfold Cipher.decryptData.
  rewrite !guard_with_colon, split_three, split_two by assumption.
  reflexivity.
Qed.

(** A field that [encryptData] returns is the 32 hexadecimal digits of the
    IV, a colon, and an even number of hexadecimal digits: it splits at the
    colon into exactly these two parts, and the first decodes to the IV. *)
Theorem encryptData_wire_format
    (iv : list byte) (plaintext : Utf16.text) (field : string) :
  encryptData iv plaintext = Returns field ->
  exists ciphertext,
    field = Hex.toHex iv ++ ":" ++ Hex.toHex ciphertext /\
    JsString.split ":" field = [Hex.toHex iv; Hex.toHex ciphertext] /\
    String.length (Hex.toHex iv) = 32%nat /\
    Hex.fromHex (Hex.toHex iv) = iv /\
    String.length field = (33 + 2 * List.length ciphertext)%nat.
Proof.
  unfold Cipher.encryptData. intros H.
  destruct (Utf16.falsy plaintext); [discriminate|].
  destruct (cipheriv_accepts _ iv) eqn:Hok; [|discriminate].
  inversion H; subst; clear H.
  apply andb_true_iff in Hok as [_ Hiv]. apply Nat.eqb_eq in Hiv.
  eexists. split; [reflexivity|].
  split; [apply Cipher.split_wire|].
  split; [rewrite Hex.toHex_length; lia|].
  split; [apply Hex.fromHex_toHex|].
  rewrite PasswordPolicy.length_append. simpl String.length.
  rewrite !Hex.toHex_length. lia.
Qed.

End WithPrimitives.

Definition key_of_32_characters : string := "0123456789abcdef0123456789abcdef".

Lemma short_key_passes_startup_and_never_works_witness :
  key_accepted_at_startup key_of_32_characters = true /\
  Cipher.encryptData id_encrypt key_of_32_characters
                     (demo_iv x2a) hunter2 = Throws encrypt_error /\
  Cipher.decryptData id_decrypt Utf8.decode key_of_32_characters
                     "2a000000000000000000000000000000:68756e74657232"
  = Throws decrypt_error.
Proof.
  destruct (short_key_passes_startup_and_never_works id_encrypt id_decrypt
              Utf8.decode key_of_32_characters)
    as (Hok & Henc & Hdec); [simpl; lia|].
  split; [exact Hok|]. split; [apply Henc|apply Hdec].
Defined.

Lemma decryptData_ignores_further_parts_witness :
  Cipher.decryptData id_decrypt Utf8.decode demo_key
    ("2a000000000000000000000000000000" ++ ":" ++ "68756e74657232"
     ++ ":" ++ "anything:else")
  = Cipher.decryptData id_decrypt Utf8.decode demo_key
      ("2a000000000000000000000000000000" ++ ":" ++ "68756e74657232").
Proof.
  apply decryptData_ignores_further_parts; reflexivity.
Defined.

Lemma encryptData_wire_format_witness :
  exists ciphertext,
    "2a000000000000000000000000000000:68756e74657232"
    = Hex.toHex (demo_iv x2a) ++ ":" ++ Hex.toHex ciphertext /\
    JsString.split ":" "2a000000000000000000000000000000:68756e74657232"
    = [Hex.toHex (demo_iv x2a); Hex.toHex ciphertext] /\
    String.length (Hex.toHex (demo_iv x2a)) = 32%nat /\
    Hex.fromHex (Hex.toHex (demo_iv x2a)) = demo_iv x2a /\
    String.length "2a000000000000000000000000000000:68756e74657232"
    = (33 + 2 * List.length ciphertext)%nat.
Proof.
  apply (encryptData_wire_format id_encrypt demo_key (demo_iv x2a) hunter2).
  reflexivity.
Defined.

End CipherFacts.

(** ** Rate limiters (middleware/auth.js)

    [requestCounts] is one [Map] shared by [rateLimiter] and
    [loginRateLimiter].  A key is a user id (a number) or a string, an
    address or ["login:"] followed by a name or an address; a number and a
    string are never the same key. *)

Module RateLimit.

Local Open Scope Z_scope.

Inductive client_key : Type :=
| UserKey (id : Z)
| TextKey (text : string).

Definition key_eqb (a b : client_key) : bool :=
  match a, b with
  | UserKey x, UserKey y => (x =? y)%Z
  | TextKey x, TextKey y => String.eqb x y
  | _, _ => false
  end.

Record limit : Type := mkLimit {
  count : Z;
  resetTime : Z
}.

Definition request_counts : Type := list (client_key * limit).

(** [requestCounts.get(key)]; [None] when [requestCounts.has(key)] is false. *)
Definition get (key : client_key) (m : request_counts) : option limit :=
  option_map snd (find (fun kv => key_eqb (fst kv) key) m).

(** [requestCounts.set(key, value)] *)
Fixpoint set (key : client_key) (value : limit) (m : request_counts)
  : request_counts :=
  match m with
  | [] => [(key, value)]
  | (k, v) :: rest =>
      if key_eqb k key then (key, value) :: rest
      else (k, v) :: set key value rest
  end.

Inductive verdict : Type :=
| Pass
| TooManyRequests (resetIn : Z).

(** The body both limiters share, for the key, the bound and the window
    each of them uses. *)
Definition count_request (key : client_key) (maxRequests windowMs : Z)
    (now : Z) (m : request_counts) : request_counts * verdict :=
  match get key m with
  | None => (set key (mkLimit 1 (now + windowMs)) m, Pass)
  | Some userLimit =>
      if resetTime userLimit <? now
      then (set key (mkLimit 1 (now + windowMs)) m, Pass)
      else if maxRequests <=? count userLimit
      then (m, TooManyRequests
                 (AuthController.ceil_minutes (resetTime userLimit - now)))
      else (set key (mkLimit (count userLimit + 1) (resetTime userLimit)) m,
            Pass)
  end.

(** [req.user ? req.user.id : req.ip] *)
Definition limiter_key (req_user : option Z) (ip : string) : client_key :=
  match req_user with
  | Some id => UserKey id
  | None => TextKey ip
  end.

Definition rateLimiter (maxRequests windowMs : Z)
    (req_user : option Z) (ip : string) (now : Z) (m : request_counts)
  : request_counts * verdict :=
  count_request (limiter_key req_user ip) maxRequests windowMs now m.

(** [`login:${req.body.username || req.ip}`] *)
Definition login_key (body_username : option string) (ip : string)
  : client_key :=
  TextKey ("login:" ++
           match body_username with
           | Some name => if JsString.falsy name then ip else name
           | None => ip
           end).

Definition loginRateLimiter (body_username : option string) (ip : string)
    (now : Z) (m : request_counts) : request_counts * verdict :=
  count_request (login_key body_username ip) 5 900000 now m.

(** A run of requests of one key, at the given instants. *)
Fixpoint count_requests (key : client_key) (maxRequests windowMs : Z)
    (times : list Z) (m : request_counts) : request_counts * list verdict :=
  match times with
  | [] => (m, [])
  | now :: rest =>
      let '(m1, v) := count_request key maxRequests windowMs now m in
      let '(m2, vs) := count_requests key maxRequests windowMs rest m1 in
      (m2, v :: vs)
  end.

Lemma key_eqb_eq a b : key_eqb a b = true <-> a = b.
Proof.
  destruct a, b; simpl; try (split; [discriminate|congruence]).
  - rewrite Z.eqb_eq. split; congruence.
  - rewrite String.eqb_eq. split; congruence.
Qed.

Lemma key_eqb_refl a : key_eqb a a = true.
Proof. now apply key_eqb_eq. Qed.

Lemma get_set_same key value m : get key (set key value m) = Some value.
Proof.
  unfold get. induction m as [|[k v] m IH]; simpl.
  - now rewrite key_eqb_refl.
  - destruct (key_eqb k key) eqn:E; simpl.
    + now rewrite key_eqb_refl.
    + now rewrite E.
Qed.

Lemma get_set_other key other value m :
  other <> key -> get other (set key value m) = get other m.
Proof.
  intros Hne. unfold get. induction m as [|[k v] m IH]; simpl.
  - destruct (key_eqb key other) eqn:E; [|reflexivity].
    apply key_eqb_eq in E. congruence.
  - destruct (key_eqb k key) eqn:E; simpl.
    + apply key_eqb_eq in E. subst k.
      destruct (key_eqb key other) eqn:E'; [|reflexivity].
      apply key_eqb_eq in E'. congruence.
    + destruct (key_eqb k other); [reflexivity|exact IH].
Qed.

(** Limiting is per key: a request leaves the entry of every other key as it
    was, and its verdict and the entry it leaves for its own key depend on
    nothing but that entry. *)
Theorem count_request_per_key
    (key : client_key) (maxRequests windowMs now : Z) (m : request_counts) :
  (forall other, other <> key ->
     get other (fst (count_request key maxRequests windowMs now m))
     = get other m) /\
  (forall m', get key m' = get key m ->
     snd (count_request key maxRequests windowMs now m')
     = snd (count_request key maxRequests windowMs now m) /\
     get key (fst (count_request key maxRequests windowMs now m'))
     = get key (fst (count_request key maxRequests windowMs now m))).
Proof.
  split.
  - intros other Hne. unfold count_request.
    destruct (get key m) as [l|]; simpl;
      [|now apply get_set_other].
    destruct (resetTime l <? now); simpl; [now apply get_set_other|].
    destruct (maxRequests <=? count l); simpl;
      [reflexivity|now apply get_set_other].
  - intros m' Hsame. unfold count_request. rewrite Hsame.
    destruct (get key m) as [l|] eqn:E; simpl;
      [|now rewrite !get_set_same].
    destruct (resetTime l <? now); simpl; [now rewrite !get_set_same|].
    destruct (maxRequests <=? count l); simpl;
      [now rewrite Hsame, E|now rewrite !get_set_same].
Qed.

(** Inside a window, the entry counts the requests that passed. *)
Lemma count_requests_in_window key maxRequests windowMs times m c reset :
  get key m = Some (mkLimit c reset) ->
  Forall (fun now => now <= reset) times ->
  forall i v,
    nth_error (snd (count_requests key maxRequests windowMs times m)) i
      = Some v ->
    (v = Pass <-> c + Z.of_nat i < maxRequests).
Proof.
  intros Hget Htimes. revert m c Hget.
  induction Htimes as [|now rest Hnow _ IH]; intros m c Hget i v Hnth.
  - destruct i; discriminate.
  - simpl in Hnth.
    destruct (count_request key maxRequests windowMs now m) as [m1 v1] eqn:E1.
    destruct (count_requests key maxRequests windowMs rest m1) as [m2 vs]
      eqn:E2.
    unfold count_request in E1. rewrite Hget in E1. simpl in E1.
    assert (Hin : (reset <? now) = false) by (apply Z.ltb_ge; lia).
    rewrite Hin in E1.
    destruct (maxRequests <=? c) eqn:Emax.
    + apply Z.leb_le in Emax. inversion E1; subst m1 v1.
      destruct i as [|i]; simpl in Hnth.
      * inversion Hnth; subst. split; [discriminate|lia].
      * specialize (IH m c Hget i v). rewrite E2 in IH.
        specialize (IH Hnth). rewrite IH. lia.
    + apply Z.leb_gt in Emax. inversion E1; subst m1 v1.
      destruct i as [|i]; simpl in Hnth.
      * inversion Hnth; subst. split; [lia|reflexivity].
      * specialize (IH (set key (mkLimit (c + 1) reset) m) (c + 1)
                       (get_set_same _ _ _) i v).
        rewrite E2 in IH. specialize (IH Hnth). rewrite IH. lia.
Qed.

(** A window lets through exactly the first [maxRequests] requests of a key.
    When the key has no entry, or its window has run out, and the limiter
    allows at least one request, then among the requests that come no later
    than [windowMs] after the first, a request passes exactly when fewer than
    [maxRequests] requests came before it. *)
Theorem rateLimiter_window
    (maxRequests windowMs : Z) (req_user : option Z) (ip : string)
    (first : Z) (later : list Z) (m : request_counts) :
  1 <= maxRequests ->
  match get (limiter_key req_user ip) m with
  | None => True
  | Some l => resetTime l < first
  end ->
  Forall (fun now => now <= first + windowMs) later ->
  forall i v,
    nth_error (snd (count_requests (limiter_key req_user ip) maxRequests
                                   windowMs (first :: later) m)) i = Some v ->
    (v = Pass <-> Z.of_nat i < maxRequests).
Proof.
  intros Hmax Hfresh Hlater i v Hnth. simpl in Hnth.
  set (key := limiter_key req_user ip) in *.
  assert (E1 : count_request key maxRequests windowMs first m
               = (set key (mkLimit 1 (first + windowMs)) m, Pass)).
  { unfold count_request. destruct (get key m) as [l|]; [|reflexivity].
    apply Z.ltb_lt in Hfresh. now rewrite Hfresh. }
  rewrite E1 in Hnth.
  destruct (count_requests key maxRequests windowMs later _) as [m2 vs] eqn:E2.
  destruct i as [|i]; simpl in Hnth.
  - inversion Hnth; subst. split; [lia|reflexivity].
  - pose proof (count_requests_in_window key maxRequests windowMs later
                  (set key (mkLimit 1 (first + windowMs)) m) 1
                  (first + windowMs) (get_set_same _ _ _) Hlater i v) as H.
    rewrite E2 in H. specialize (H Hnth). rewrite H. lia.
Qed.

Example rateLimiter_demo :
  snd (count_requests (limiter_key None "10.0.0.7") 2 900000
                      [1000; 2000; 3000; 901000; 901001] [])
  = [Pass; Pass; TooManyRequests 15; TooManyRequests 0; Pass].
Proof. reflexivity. Qed.

Lemma rateLimiter_window_witness :
  nth_error (snd (count_requests (limiter_key None "10.0.0.7") 2 900000
                                 [1000; 2000; 3000] [])) 2
  = Some (TooManyRequests 15) /\
  (TooManyRequests 15 = Pass <-> Z.of_nat 2 < 2).
Proof.
  split; [reflexivity|].
  apply (rateLimiter_window 2 900000 None "10.0.0.7" 1000 [2000; 3000] []).
  - lia.
  - exact I.
  - repeat constructor; lia.
  - reflexivity.
Defined.

End RateLimit.

(** ** The login route (routes/api.js): [loginRateLimiter], then [login] *)

Module LoginRoute.
Import Db Jwt AuthController RateLimit.

Local Open Scope Z_scope.

Record login_request : Type := mkLoginRequest {
  body_username : option string;
  ip : string;
  identifier : string;
  password : string;
  random : list byte;
  arrival : Z
}.

Inductive route_reply : Type :=
| Limited (status : Z) (resetIn : Z)
| Handled (reply : login_reply).

(** A run of [loginRateLimiter] alone. *)
Fixpoint loginRateLimiter_all (requests : list login_request)
    (m : request_counts) : request_counts * list verdict :=
  match requests with
  | [] => (m, [])
  | r :: rest =>
      let '(m1, v) := loginRateLimiter (body_username r) (ip r) (arrival r) m in
      let '(m2, vs) := loginRateLimiter_all rest m1 in
      (m2, v :: vs)
  end.

Definition name_of (r : login_request) : string :=
  match body_username r with Some name => name | None => "" end.

Lemma login_key_named r :
  name_of r <> "" ->
  login_key (body_username r) (ip r) = TextKey ("login:" ++ name_of r).
Proof.
  unfold login_key, name_of. destruct (body_username r) as [[|c n]|];
    simpl; congruence.
Qed.

(** The limiter keys a request by the [username] field of its body when
    there is one.  A run of requests that each carry a name no earlier
    request carried, and that has no entry yet, is never limited, however
    many they are and whatever address they come from. *)
Theorem loginRateLimiter_new_names_pass
    (requests : list login_request) (m : request_counts) :
  Forall (fun r => name_of r <> "") requests ->
  NoDup (map name_of requests) ->
  Forall (fun r => get (TextKey ("login:" ++ name_of r)) m = None) requests ->
  Forall (fun v => v = Pass) (snd (loginRateLimiter_all requests m)).
Proof.
  revert m. induction requests as [|r rest IH]; intros m Hnamed Hnodup Hnew;
    [constructor|].
  inversion_clear Hnamed as [|? ? Hr Hrest].
  inversion_clear Hnodup as [|? ? Hnotin Hnodup'].
  inversion_clear Hnew as [|? ? Hget Hnew'].
  simpl. unfold loginRateLimiter. rewrite (login_key_named r Hr).
  unfold count_request. rewrite Hget.
  destruct (loginRateLimiter_all rest _) as [m2 vs] eqn:E. simpl.
  constructor; [reflexivity|].
  specialize (IH (set (TextKey ("login:" ++ name_of r))
                      (mkLimit 1 (arrival r + 900000)) m) Hrest Hnodup').
  rewrite E in IH. apply IH.
  rewrite Forall_forall in *. intros r' Hin.
  rewrite get_set_other; [now apply Hnew'|].
  intros Heq. inversion Heq as [Hname]. apply Hnotin.
  rewrite <- Hname. now apply in_map.
Qed.

Section WithPrimitives.

Variable bcrypt_compare : string -> string -> js_result bool.
Variable jwt_sign : payload -> Z -> string.
Variable jwt_decode : string -> option decoded_token.
Variable hashToken : string -> string.

Local Abbreviation login :=
  (AuthController.login bcrypt_compare jwt_sign jwt_decode hashToken).

(** [router.post('/auth/login', loginRateLimiter, authController.login)] *)
Definition login_route (r : login_request)
    (st : request_counts * world) : (request_counts * world) * route_reply :=
  match loginRateLimiter (body_username r) (ip r) (arrival r) (fst st) with
  | (m', TooManyRequests resetIn) => ((m', snd st), Limited 429 resetIn)
  | (m', Pass) =>
      let '(w', reply) :=
        login (identifier r) (password r) (random r) (snd st) (arrival r) in
      ((m', w'), Handled reply)
  end.

Fixpoint login_route_all (requests : list login_request)
    (st : request_counts * world)
  : (request_counts * world) * list route_reply :=
  match requests with
  | [] => (st, [])
  | r :: rest =>
      let '(st1, reply) := login_route r st in
      let '(st2, replies) := login_route_all rest st1 in
      (st2, reply :: replies)
  end.

(** One call of [login] checks at most one password. *)
Lemma login_checks_at_most_one ident pw rnd w now :
  (List.length (hasher_calls (fst (login ident pw rnd w now)))
   <= S (List.length (hasher_calls w)))%nat.
Proof.
  unfold AuthController.login.
  destruct (_ || _); [simpl; lia|].
  destruct (find _ _) as [user|]; [|simpl; lia].
  destruct (negb (is_active user)); [simpl; lia|].
  destruct (locked_at user now); [simpl; lia|].
  destruct (if negb _ then _ else _) as [d' reply]. simpl.
  rewrite length_app. simpl. lia.
Qed.

Definition checks (w : world) : Z := Z.of_nat (List.length (hasher_calls w)).

Lemma login_route_in_window requests key :
  forall m w c reset,
    Forall (fun r => login_key (body_username r) (ip r) = key
                     /\ arrival r <= reset) requests ->
    get key m = Some (mkLimit c reset) ->
    checks (snd (fst (login_route_all requests (m, w))))
    <= checks w + Z.max 0 (5 - c).
Proof.
  induction requests as [|r rest IH]; intros m w c reset Hall Hget;
    [simpl; lia|].
  inversion_clear Hall as [|? ? [Hkey Hnow] Hrest].
  cbn [login_route_all]. unfold login_route at 1. unfold loginRateLimiter.
  rewrite Hkey. unfold count_request. cbn [fst snd]. rewrite Hget.
  cbn [count resetTime].
  assert (Hin : (reset <? arrival r) = false) by (apply Z.ltb_ge; lia).
  rewrite Hin.
  destruct (5 <=? c) eqn:E5.
  - apply Z.leb_le in E5.
    destruct (login_route_all rest (m, w)) as [st2 replies] eqn:E. cbn [fst snd].
    specialize (IH m w c reset Hrest Hget). rewrite E in IH. cbn [fst snd] in IH.
    exact IH.
  - apply Z.leb_gt in E5.
    destruct (login (identifier r) (password r) (random r) w (arrival r))
      as [w' reply] eqn:El.
    destruct (login_route_all rest _) as [st2 replies] eqn:E. cbn [fst snd].
    specialize (IH (set key (mkLimit (c + 1) reset) m) w' (c + 1) reset Hrest
                   (get_set_same _ _ _)).
    rewrite E in IH. cbn [fst snd] in IH.
    pose proof (login_checks_at_most_one (identifier r) (password r)
                  (random r) w (arrival r)) as H1.
    rewrite El in H1. cbn [fst snd] in H1. unfold checks in *. lia.
Qed.

(** At most five passwords are checked per window and key.  For requests
    that share the limiter key, the first arriving when the key has no entry
    or an entry whose window has run out, and the others no later than
    fifteen minutes after the first, [verifyPassword] is called at most five
    times in all, whatever identifiers and passwords they carry. *)
Theorem login_route_checks_at_most_five
    (first : login_request) (later : list login_request)
    (m : request_counts) (w : world) :
  let key := login_key (body_username first) (ip first) in
  match get key m with
  | None => True
  | Some l => resetTime l < arrival first
  end ->
  Forall (fun r => login_key (body_username r) (ip r) = key
                   /\ arrival r <= arrival first + 900000) later ->
  (List.length
     (hasher_calls (snd (fst (login_route_all (first :: later) (m, w)))))
   <= List.length (hasher_calls w) + 5)%nat.
Proof.
  intros key Hfresh Hlater. cbn [login_route_all].
  unfold login_route at 1. unfold loginRateLimiter. fold key.
  assert (E1 : count_request key 5 900000 (arrival first) m
               = (set key (mkLimit 1 (arrival first + 900000)) m, Pass)).
  { unfold count_request. destruct (get key m) as [l|]; [|reflexivity].
    apply Z.ltb_lt in Hfresh. now rewrite Hfresh. }
  cbn [fst snd]. rewrite E1.
  destruct (login (identifier first) (password first) (random first) w
                  (arrival first)) as [w' reply] eqn:El.
  destruct (login_route_all later _) as [st2 replies] eqn:E. cbn [fst snd].
  pose proof (login_route_in_window later key
                (set key (mkLimit 1 (arrival first + 900000)) m) w' 1
                (arrival first + 900000) Hlater (get_set_same _ _ _)) as H.
  rewrite E in H. cbn [fst snd] in H.
  pose proof (login_checks_at_most_one (identifier first) (password first)
                (random first) w (arrival first)) as H1.
  rewrite El in H1. cbn [fst snd] in H1. unfold checks in H. lia.
Qed.

End WithPrimitives.

(** Seven guesses from one address within a minute: five reach [login], the
    fifth locks the identity, the last two are turned away by the limiter. *)
Definition guess (pw : string) (now : Z) : login_request :=
  mkLoginRequest None "10.0.0.7" "ayu" pw [] now.

Definition seven_guesses : list login_request :=
  [guess "a" 1000; guess "b" 2000; guess "c" 3000; guess "d" 4000;
   guess "e" 5000; guess "f" 6000; guess "demo" 7000].

Definition demo_route_all (requests : list login_request)
  : (request_counts * world) * list route_reply :=
  login_route_all demo_compare demo_sign demo_decode demo_hash requests
                  ([], demo_world).

Example seven_guesses_replies :
  snd (demo_route_all seven_guesses)
  = [Handled (Rejected 401 (WrongPassword 1));
     Handled (Rejected 401 (WrongPassword 2));
     Handled (Rejected 401 (WrongPassword 3));
     Handled (Rejected 401 (WrongPassword 4));
     Handled (Rejected 401 (WrongPassword 5));
     Limited 429 15; Limited 429 15].
Proof. vm_compute. reflexivity. Qed.

Lemma login_route_checks_at_most_five_witness :
  (List.length
     (hasher_calls (snd (fst (demo_route_all seven_guesses))))
   <= List.length (hasher_calls demo_world) + 5)%nat.
Proof.
  apply (login_route_checks_at_most_five demo_compare demo_sign demo_decode
           demo_hash (guess "a" 1000)).
  - exact I.
  - repeat constructor; simpl; lia.
Defined.

Definition named_guess (name : string) (now : Z) : login_request :=
  mkLoginRequest (Some name) "10.0.0.7" "ayu" "guess" [] now.

Lemma loginRateLimiter_new_names_pass_witness :
  Forall (fun v => v = Pass)
    (snd (loginRateLimiter_all
            [named_guess "n1" 1000; named_guess "n2" 1001;
             named_guess "n3" 1002; named_guess "n4" 1003;
             named_guess "n5" 1004; named_guess "n6" 1005;
             named_guess "n7" 1006] [])).
Proof.
  apply loginRateLimiter_new_names_pass.
  - repeat constructor; discriminate.
  - repeat constructor; simpl; intuition discriminate.
  - repeat constructor.
Defined.

End LoginRoute.

(** ** More on the session operations (utils/jwt.js, middleware/auth.js) *)

Module SessionFacts.
Import Db Jwt.

Local Open Scope Z_scope.

Lemma filter_map_same {A} (p : A -> bool) (f : A -> A) (l : list A) :
  (forall x, p (f x) = p x) ->
  filter p (map f l) = map f (filter p l).
Proof.
  intros Hp. induction l as [|x l IH]; [reflexivity|].
  simpl. rewrite Hp. destruct (p x); simpl; now rewrite IH.
Qed.

Lemma find_filter {A} (p q : A -> bool) (l : list A) :
  (forall x, p x = true -> q x = true) ->
  find p (filter q l) = find p l.
Proof.
  intros Hpq. induction l as [|x l IH]; [reflexivity|]. simpl.
  destruct (q x) eqn:Eq; simpl.
  - now rewrite IH.
  - destruct (p x) eqn:Ep; [|exact IH].
    rewrite (Hpq x Ep) in Eq. discriminate.
Qed.

Lemma filter_length_split {A} (p : A -> bool) (l : list A) :
  List.length l
  = (List.length (filter (fun x => negb (p x)) l)
     + List.length (filter p l))%nat.
Proof.
  induction l as [|x l IH]; [reflexivity|]. simpl.
  destruct (p x); simpl; lia.
Qed.

Section WithPrimitives.

Variable jwt_sign : payload -> Z -> string.
Variable jwt_verify : string -> Z -> jwt_verdict.
Variable jwt_decode : string -> option decoded_token.
Variable hashToken : string -> string.

Local Abbreviation verifyAccessToken := (Jwt.verifyAccessToken jwt_verify).
Local Abbreviation verifyRefreshToken := (Jwt.verifyRefreshToken jwt_verify).
Local Abbreviation validateSession := (Jwt.validateSession hashToken).
Local Abbreviation invalidateSession := (Jwt.invalidateSession hashToken).
Local Abbreviation storeSession := (Jwt.storeSession jwt_decode hashToken).
Local Abbreviation refreshAccessToken :=
  (Jwt.refreshAccessToken jwt_sign jwt_verify hashToken).
Local Abbreviation authenticateToken :=
  (Middleware.authenticateToken jwt_verify hashToken).

(** The two kinds of token do not stand in for each other.  A token that
    verifies as an access token is refused as a refresh token, so a refresh
    with it fails and changes nothing; a token that verifies as a refresh
    token is refused as an access token, so the middleware answers 401. *)
Theorem token_types_are_disjoint
    (token : string) (now : Z) (decoded : decoded_token) (d : database)
    (authHeader : option string) :
  (verifyAccessToken token now = Verified decoded ->
   verifyRefreshToken token now = NotVerified refresh_invalid_msg /\
   refreshAccessToken token d now = (d, RefreshFailure refresh_invalid_msg))
  /\
  (verifyRefreshToken token now = Verified decoded ->
   verifyAccessToken token now = NotVerified access_failed_msg /\
   (Middleware.bearer_token authHeader = Some token ->
    authenticateToken authHeader d now
    = (d, Middleware.Respond 401 access_failed_msg))).
Proof.
  unfold Middleware.authenticateToken, Jwt.refreshAccessToken,
    Jwt.verifyAccessToken, Jwt.verifyRefreshToken.
  destruct (jwt_verify token now) as [c| | |] eqn:Ej; split; try discriminate.
  - destruct (String.eqb (type (body c)) "access") eqn:Ea; simpl;
      [|discriminate].
    intros _. apply String.eqb_eq in Ea. rewrite Ea. simpl. now split.
  - destruct (String.eqb (type (body c)) "refresh") eqn:Er; simpl;
      [|discriminate].
    intros _. apply String.eqb_eq in Er. rewrite Er. simpl.
    split; [reflexivity|]. intros Hb. rewrite Hb, Ej, Er. reflexivity.
Qed.

Lemma revoke_by_token_hash_twice h s :
  revoke_by_token_hash h (revoke_by_token_hash h s) = revoke_by_token_hash h s.
Proof.
  unfold revoke_by_token_hash.
  destruct (String.eqb (token_hash s) h) eqn:E; simpl; now rewrite E.
Qed.

Lemma revoke_by_token_hash_digest h s :
  token_hash (revoke_by_token_hash h s) = token_hash s.
Proof.
  unfold revoke_by_token_hash. now destruct (String.eqb (token_hash s) h).
Qed.

(** Logging out twice is logging out once: the second [invalidateSession]
    leaves the database of the first, and reports what the first reported
    (the UPDATE matches the row whether or not it was valid). *)
Theorem invalidateSession_twice (token : string) (d : database) :
  let once := invalidateSession token d in
  invalidateSession token (fst once) = once.
Proof.
  cbv zeta. unfold Jwt.invalidateSession. cbn [fst sessions with_sessions].
  apply f_equal2.
  - unfold with_sessions. cbn [users sessions next_session_id activity_logs].
    f_equal. rewrite map_map.
    apply map_ext. intros s. apply revoke_by_token_hash_twice.
  - unfold changes.
    rewrite filter_map_same, length_map; [reflexivity|].
    intros s. now rewrite revoke_by_token_hash_digest.
Qed.

Lemma revoke_by_user_fields uid s :
  let s' := revoke_by_user uid s in
  session_id s' = session_id s /\
  session_user_id s' = session_user_id s /\
  token_hash s' = token_hash s /\
  refresh_token_hash s' = refresh_token_hash s /\
  expires_at s' = expires_at s /\
  last_activity s' = last_activity s /\
  (session_user_id s <> uid -> s' = s) /\
  (session_user_id s = uid -> is_valid s' = false).
Proof.
  unfold revoke_by_user.
  destruct (session_user_id s =? uid) eqn:E; simpl.
  - apply Z.eqb_eq in E. destruct (is_valid s) eqn:V; simpl;
      repeat split; congruence.
  - apply Z.eqb_neq in E. repeat split; congruence.
Qed.

(** "Logout everywhere".  After [invalidateAllUserSessions] no session row
    of the user has the valid flag, the rows of other users are untouched,
    and a row of the user differs from before in the flag alone; a token all
    of whose session rows belong to the user no longer validates; and a
    second call finds nothing to change and returns 0. *)
Theorem invalidateAllUserSessions_effect (uid : Z) (d : database) :
  let d' := fst (invalidateAllUserSessions uid d) in
  users d' = users d /\
  (forall i s, nth_error (sessions d) i = Some s ->
     exists s',
       nth_error (sessions d') i = Some s' /\
       session_id s' = session_id s /\
       session_user_id s' = session_user_id s /\
       token_hash s' = token_hash s /\
       refresh_token_hash s' = refresh_token_hash s /\
       expires_at s' = expires_at s /\
       last_activity s' = last_activity s /\
       (session_user_id s <> uid -> s' = s) /\
       (session_user_id s = uid -> is_valid s' = false)) /\
  (forall token now,
     (forall s, In s (sessions d) -> token_hash s = hashToken token ->
                session_user_id s = uid) ->
     validateSession token d' now = (d', SessionInvalid session_missing_msg)) /\
  invalidateAllUserSessions uid d' = (d', 0).
Proof.
  cbv zeta. split; [reflexivity|]. split; [|split].
  - intros i s Hi. eexists. simpl. rewrite nth_error_map, Hi.
    split; [reflexivity|]. apply revoke_by_user_fields.
  - intros token now Hown. apply validateSession_revoked.
    intros s' Hin Hh. simpl in Hin. apply in_map_iff in Hin as (s & <- & Hin).
    pose proof (revoke_by_user_fields uid s) as (_ & _ & Ht & _ & _ & _ & _ & Hv).
    cbv zeta in Ht, Hv. rewrite Ht in Hh. apply Hv. now apply Hown.
  - unfold invalidateAllUserSessions. simpl. f_equal.
    + unfold with_sessions. simpl. f_equal. rewrite map_map.
      apply map_ext_in. intros s _. unfold revoke_by_user.
      destruct ((session_user_id s =? uid) && is_valid s) eqn:E; simpl.
      * apply andb_true_iff in E as [E _]. rewrite E. reflexivity.
      * now rewrite E.
    + unfold changes.
      replace (filter _ (map (revoke_by_user uid) (sessions d))) with
        (@nil session_row); [reflexivity|].
      symmetry. induction (sessions d) as [|s l IH]; [reflexivity|].
      simpl. rewrite IH. unfold revoke_by_user.
      destruct ((session_user_id s =? uid) && is_valid s) eqn:E; simpl.
      * now rewrite andb_false_r.
      * now rewrite E.
Qed.

(** The hourly sweep takes nothing from [validateSession].  At any instant
    from the sweep on, the SELECT of [validateSession] finds the row it
    would have found without the sweep, and the call gives the same answer.
    The sweep returns the number of rows it deleted. *)
Theorem cleanExpiredSessions_keeps_live_sessions
    (d : database) (now later : Z) (t : string) :
  now <= later ->
  let d' := fst (cleanExpiredSessions d now) in
  find (live_session d' (hashToken t) later) (sessions d')
  = find (live_session d (hashToken t) later) (sessions d) /\
  snd (validateSession t d' later) = snd (validateSession t d later) /\
  Z.of_nat (List.length (sessions d))
  = Z.of_nat (List.length (sessions d')) + snd (cleanExpiredSessions d now).
Proof.
  intros Hle d'.
  assert (Hfind : find (live_session d' (hashToken t) later) (sessions d')
                  = find (live_session d (hashToken t) later) (sessions d)).
  { unfold d'. simpl. unfold live_session, owner_of. simpl.
    apply find_filter. intros s Hlive.
    apply andb_true_iff in Hlive as [Hlive _].
    apply andb_true_iff in Hlive as [Hlive Hexp].
    apply andb_true_iff in Hlive as [_ Hv].
    unfold stale. rewrite Hv, (text_order_in_time _ now later Hle Hexp).
    reflexivity. }
  split; [exact Hfind|]. split.
  - unfold Jwt.validateSession. rewrite Hfind.
    destruct (find _ (sessions d)) as [s|]; [|reflexivity].
    unfold owner_of. simpl. now destruct (find _ (users d)).
  - unfold d', cleanExpiredSessions, changes. simpl.
    rewrite (filter_length_split (stale now) (sessions d)). lia.
Qed.

End WithPrimitives.

End SessionFacts.

(** ** The constraints of the sessions table as an invariant (db/schema.sql,
       utils/jwt.js) *)

Module SessionInvariant.
Import Db Jwt.

Local Open Scope Z_scope.

(** The refresh-token digests that are not NULL. *)
Definition refresh_digests (ss : list session_row) : list string :=
  flat_map (fun s => match refresh_token_hash s with
                     | Some h => [h]
                     | None => []
                     end) ss.

(** [id INTEGER PRIMARY KEY AUTOINCREMENT], [token_hash UNIQUE],
    [refresh_token_hash UNIQUE]. *)
Record well_formed (d : database) : Prop := mkWellFormed {
  ids_unique : NoDup (map session_id (sessions d));
  ids_below_next :
    forall s, In s (sessions d) -> session_id s < next_session_id d;
  digests_unique : NoDup (map token_hash (sessions d));
  refresh_digests_unique : NoDup (refresh_digests (sessions d))
}.

(** A rewrite of rows that keeps the three key columns. *)
Definition keeps_keys (f : session_row -> session_row) : Prop :=
  forall s, session_id (f s) = session_id s /\
            token_hash (f s) = token_hash s /\
            refresh_token_hash (f s) = refresh_token_hash s.

Lemma refresh_digests_map f ss :
  (forall s, refresh_token_hash (f s) = refresh_token_hash s) ->
  refresh_digests (map f ss) = refresh_digests ss.
Proof.
  intros Hf. unfold refresh_digests. induction ss as [|s ss IH];
    [reflexivity|]. simpl. now rewrite Hf, IH.
Qed.

Lemma well_formed_map d f :
  keeps_keys f -> well_formed d ->
  well_formed (with_sessions d (map f (sessions d))).
Proof.
  intros Hf [Hid Hnext Hdig Href]. constructor; simpl.
  - rewrite map_map. erewrite map_ext; [exact Hid|]. intros s. apply Hf.
  - intros s' Hin. apply in_map_iff in Hin as (s & <- & Hin).
    destruct (Hf s) as (-> & _). now apply Hnext.
  - rewrite map_map. erewrite map_ext; [exact Hdig|]. intros s. apply Hf.
  - rewrite refresh_digests_map; [exact Href|]. intros s. apply Hf.
Qed.

Lemma NoDup_map_filter {A B} (g : A -> B) (p : A -> bool) (l : list A) :
  NoDup (map g l) -> NoDup (map g (filter p l)).
Proof.
  induction l as [|x l IH]; simpl; intros H; [constructor|].
  inversion_clear H as [|? ? Hnotin Hrest].
  destruct (p x); simpl; [|now apply IH].
  constructor; [|now apply IH].
  intros Hin. apply Hnotin. apply in_map_iff in Hin as (y & Hy & Hin).
  apply filter_In in Hin as [Hin _]. apply in_map_iff. now exists y.
Qed.

Lemma refresh_digests_in h ss :
  In h (refresh_digests ss) <->
  exists s, In s ss /\ refresh_token_hash s = Some h.
Proof.
  unfold refresh_digests. rewrite in_flat_map. split.
  - intros (s & Hin & Hh). exists s. split; [exact Hin|].
    destruct (refresh_token_hash s); simpl in Hh; [|contradiction].
    destruct Hh as [->|[]]. reflexivity.
  - intros (s & Hin & Hh). exists s. split; [exact Hin|].
    rewrite Hh. now left.
Qed.

Lemma NoDup_refresh_digests_filter p ss :
  NoDup (refresh_digests ss) -> NoDup (refresh_digests (filter p ss)).
Proof.
  induction ss as [|s ss IH]; simpl; intros H; [constructor|].
  assert (Hrest : NoDup (refresh_digests ss)).
  { destruct (refresh_token_hash s); simpl in H; [now inversion H|exact H]. }
  destruct (p s); [|now apply IH]. simpl.
  destruct (refresh_token_hash s) as [h|] eqn:E; simpl in *; [|now apply IH].
  inversion_clear H as [|? ? Hnotin _]. constructor; [|now apply IH].
  intros Hin. apply Hnotin. apply refresh_digests_in in Hin as (y & Hy & Hh).
  apply filter_In in Hy as [Hy _]. apply refresh_digests_in. now exists y.
Qed.

Lemma NoDup_map_snoc {A B} (g : A -> B) (l : list A) (x : A) :
  NoDup (map g l) -> ~ In (g x) (map g l) -> NoDup (map g (l ++ [x])).
Proof.
  intros Hl Hx. rewrite map_app. simpl.
  apply NoDup_app; [exact Hl|repeat constructor; intros []|].
  intros y Hy [<-|[]]. contradiction.
Qed.

Lemma token_hash_not_taken h ss :
  token_hash_taken h None ss = false -> ~ In h (map token_hash ss).
Proof.
  unfold token_hash_taken. intros Hfree Hin.
  apply in_map_iff in Hin as (s & Hh & Hin).
  assert (existsb (fun s0 => String.eqb (token_hash s0) h && true) ss = true)
    as Hex.
  { apply existsb_exists. exists s. split; [exact Hin|].
    rewrite Hh, String.eqb_refl. reflexivity. }
  rewrite Hex in Hfree. discriminate.
Qed.

Lemma refresh_hash_not_taken h ss :
  refresh_hash_taken (Some h) ss = false -> ~ In h (refresh_digests ss).
Proof.
  unfold refresh_hash_taken. intros Hfree Hin.
  apply refresh_digests_in in Hin as (s & Hin & Hh).
  assert (existsb (fun s0 => option_string_eqb (refresh_token_hash s0) (Some h))
                  ss = true) as Hex.
  { apply existsb_exists. exists s. split; [exact Hin|].
    rewrite Hh. simpl. apply String.eqb_refl. }
  rewrite Hex in Hfree. discriminate.
Qed.

Lemma rotate_absent h now id ss :
  ~ In id (map session_id ss) -> map (rotate_session h now id) ss = ss.
Proof.
  induction ss as [|s ss IH]; simpl; intros Hnotin; [reflexivity|].
  rewrite IH by tauto. unfold rotate_session.
  destruct (session_id s =? id) eqn:E; [|reflexivity].
  apply Z.eqb_eq in E. tauto.
Qed.

Lemma rotate_digests h now id ss v :
  In v (map token_hash (map (rotate_session h now id) ss)) ->
  v = h \/ In v (map token_hash ss).
Proof.
  rewrite map_map. intros Hin. apply in_map_iff in Hin as (s & <- & Hin).
  unfold rotate_session. destruct (session_id s =? id); simpl;
    [now left|right; now apply in_map].
Qed.

Lemma NoDup_rotate h now id ss :
  NoDup (map session_id ss) ->
  NoDup (map token_hash ss) ->
  token_hash_taken h (Some id) ss = false ->
  NoDup (map token_hash (map (rotate_session h now id) ss)).
Proof.
  induction ss as [|s ss IH]; simpl; intros Hid Hdig Hfree; [constructor|].
  inversion_clear Hid as [|? ? Hid1 Hid2].
  inversion_clear Hdig as [|? ? Hdig1 Hdig2].
  apply orb_false_iff in Hfree as [Hs Hfree].
  unfold rotate_session at 1.
  destruct (session_id s =? id) eqn:E; simpl.
  - apply Z.eqb_eq in E. rewrite rotate_absent by congruence.
    constructor; [|exact Hdig2]. intros Hin.
    apply in_map_iff in Hin as (y & Hy & Hin).
    assert (existsb (fun s0 => String.eqb (token_hash s0) h
                               && negb (session_id s0 =? id)) ss = true) as Hex.
    { apply existsb_exists. exists y. split; [exact Hin|].
      rewrite Hy, String.eqb_refl. simpl. apply negb_true_iff, Z.eqb_neq.
      intros Hyid. apply Hid1. rewrite E, <- Hyid. now apply in_map. }
    unfold token_hash_taken in Hfree. rewrite Hex in Hfree. discriminate.
  - constructor; [|now apply IH]. intros Hin.
    apply rotate_digests in Hin as [Hh|Hin]; [|contradiction].
    rewrite Hh, String.eqb_refl in Hs. simpl in Hs. discriminate.
Qed.

Section WithPrimitives.

Variable jwt_sign : payload -> Z -> string.
Variable jwt_verify : string -> Z -> jwt_verdict.
Variable jwt_decode : string -> option decoded_token.
Variable hashToken : string -> string.

Local Abbreviation perform :=
  (Jwt.perform jwt_sign jwt_verify jwt_decode hashToken).
Local Abbreviation perform_all :=
  (Jwt.perform_all jwt_sign jwt_verify jwt_decode hashToken).

Lemma well_formed_perform d op : well_formed d -> well_formed (perform d op).
Proof.
  intros Hwf. destruct op as [uid a r now|t now|t|uid|now|r now]; simpl.
  - unfold Jwt.storeSession. destruct (jwt_decode a); [|exact Hwf].
    destruct (token_hash_taken _ None _) eqn:Et; [exact Hwf|].
    destruct (refresh_hash_taken _ _) eqn:Er; [exact Hwf|].
    destruct (negb _); [exact Hwf|]. simpl.
    destruct Hwf as [Hid Hnext Hdig Href]. constructor; simpl.
    + apply NoDup_map_snoc; [exact Hid|]. simpl. intros Hin.
      apply in_map_iff in Hin as (s & Hs & Hin). apply Hnext in Hin. lia.
    + intros s Hin. apply in_app_iff in Hin as [Hin|[<-|[]]].
      * apply Hnext in Hin. lia.
      * simpl. lia.
    + apply NoDup_map_snoc; [exact Hdig|]. simpl.
      now apply token_hash_not_taken.
    + unfold refresh_digests. rewrite flat_map_app. simpl.
      apply NoDup_app; [exact Href|repeat constructor; intros []|].
      intros y Hy [<-|[]]. now apply refresh_hash_not_taken in Er.
  - now rewrite validateSession_reads_only.
  - apply well_formed_map; [|exact Hwf]. intros s.
    unfold revoke_by_token_hash.
    now destruct (String.eqb (token_hash s) (hashToken t)).
  - apply well_formed_map; [|exact Hwf]. intros s. unfold revoke_by_user.
    now destruct ((session_user_id s =? uid) && is_valid s).
  - destruct Hwf as [Hid Hnext Hdig Href]. constructor; simpl.
    + now apply NoDup_map_filter.
    + intros s Hin. apply filter_In in Hin as [Hin _]. now apply Hnext.
    + now apply NoDup_map_filter.
    + now apply NoDup_refresh_digests_filter.
  - unfold Jwt.refreshAccessToken.
    destruct (Jwt.verifyRefreshToken jwt_verify r now) as [decoded|];
      [|exact Hwf].
    destruct (find _ (sessions d)) as [session|]; [|exact Hwf].
    destruct (find _ (users d)) as [owner|]; [|exact Hwf].
    destruct (token_hash_taken _ _ _) eqn:Et; [exact Hwf|]. simpl.
    destruct Hwf as [Hid Hnext Hdig Href]. constructor; simpl.
    + rewrite map_map. erewrite map_ext; [exact Hid|]. intros s.
      apply rotate_session_fields.
    + intros s' Hin. apply in_map_iff in Hin as (s & <- & Hin).
      destruct (rotate_session_fields
                  (hashToken (generateAccessToken jwt_sign
                     (mkUserInfo (user_id owner) (username owner) (email owner))
                     now)) now (session_id session) s) as (-> & _).
      now apply Hnext.
    + now apply NoDup_rotate.
    + rewrite refresh_digests_map; [exact Href|]. intros s.
      apply rotate_session_fields.
Qed.

(** The constraints of the table survive every call.  If ids, access-token
    digests and refresh-token digests are each pairwise different and every
    id is below the next id to be given out, the same holds after any
    sequence of calls of the token authority, successful or not. *)
Theorem well_formed_preserved (d : database) (ops : list operation) :
  well_formed d -> well_formed (perform_all d ops).
Proof.
  revert d. induction ops as [|op ops IH]; intros d Hwf; [exact Hwf|].
  simpl. apply IH. now apply well_formed_perform.
Qed.

End WithPrimitives.

End SessionInvariant.

(** ** Storing, finding and revoking a session (utils/jwt.js) *)

Module SessionRoundTrips.
Import Db Jwt SessionInvariant.

Local Open Scope Z_scope.

Lemma find_snoc {A} (p : A -> bool) (l : list A) (x : A) :
  find p l = None -> find p (l ++ [x]) = if p x then Some x else None.
Proof.
  induction l as [|y l IH]; simpl; [reflexivity|].
  destruct (p y); [discriminate|exact IH].
Qed.

Lemma same_refresh_digest_same_row ss a b h :
  NoDup (refresh_digests ss) ->
  In a ss -> In b ss ->
  refresh_token_hash a = Some h -> refresh_token_hash b = Some h ->
  a = b.
Proof.
  induction ss as [|s ss IH]; simpl; intros Hnd Ha Hb Hah Hbh; [contradiction|].
  assert (Hrest : NoDup (refresh_digests ss)).
  { destruct (refresh_token_hash s); simpl in Hnd; [now inversion Hnd|exact Hnd]. }
  assert (Hfirst : forall x, In x ss -> refresh_token_hash x = Some h ->
                             refresh_token_hash s = Some h -> False).
  { intros x Hx Hxh Hsh. rewrite Hsh in Hnd. simpl in Hnd.
    inversion_clear Hnd as [|? ? Hnotin _]. apply Hnotin.
    apply refresh_digests_in. now exists x. }
  destruct Ha as [<-|Ha], Hb as [<-|Hb]; try reflexivity.
  - destruct (Hfirst b Hb Hbh Hah).
  - destruct (Hfirst a Ha Hah Hbh).
  - now apply IH.
Qed.

Section WithPrimitives.

Variable jwt_sign : payload -> Z -> string.
Variable jwt_verify : string -> Z -> jwt_verdict.
Variable jwt_decode : string -> option decoded_token.
Variable hashToken : string -> string.

Local Abbreviation validateSession := (Jwt.validateSession hashToken).
Local Abbreviation invalidateSession := (Jwt.invalidateSession hashToken).
Local Abbreviation storeSession := (Jwt.storeSession jwt_decode hashToken).
Local Abbreviation refreshAccessToken :=
  (Jwt.refreshAccessToken jwt_sign jwt_verify hashToken).

(** What [storeSession] stores, the SELECT of [validateSession] finds, and
    [validateSession] still turns the token away.  When [storeSession]
    returns the id of the new row, then until the end of the UTC day of the
    token's [exp], and while the user row is active, the SELECT finds the
    new row, which has that id, that user, the refresh digest that was
    passed and the ISO text of [exp]; the UPDATE that follows is refused
    and the call answers with the error of a failed validation. *)
Theorem stored_session_is_found_and_refused
    (uid : Z) (accessToken refreshTokenHash : string)
    (d d' : database) (now later id : Z)
    (decoded : decoded_token) (owner : user_row) :
  storeSession uid accessToken refreshTokenHash d now = (d', Returns id) ->
  jwt_decode accessToken = Some decoded ->
  utc_day (datetime_now later) <= utc_day (IsoString (exp decoded * 1000)) ->
  find (fun u => user_id u =? uid) (users d) = Some owner ->
  is_active owner = true ->
  find (live_session d' (hashToken accessToken) later) (sessions d')
  = Some (mkSession id uid (hashToken accessToken) (Some refreshTokenHash)
                    (IsoString (exp decoded * 1000)) now true) /\
  validateSession accessToken d' later
  = (d', SessionInvalid session_failed_msg).
Proof.
  intros Hstore Hdec Hlater Howner Hactive.
  unfold Jwt.storeSession in Hstore. rewrite Hdec in Hstore.
  destruct (token_hash_taken _ None _) eqn:Et; [discriminate|].
  destruct (refresh_hash_taken _ _); [discriminate|].
  destruct (negb _); [discriminate|]. simpl in Hstore.
  inversion Hstore; subst d' id; clear Hstore.
  set (row := mkSession (next_session_id d) uid (hashToken accessToken)
                        (Some refreshTokenHash)
                        (IsoString (exp decoded * 1000)) now true).
  set (d' := mkDb (users d) (sessions d ++ [row])%list
                  (next_session_id d + 1) (activity_logs d)).
  assert (Hnone : find (live_session d' (hashToken accessToken) later)
                       (sessions d) = None).
  { destruct (find _ (sessions d)) as [s|] eqn:E; [|reflexivity].
    apply find_some in E as [Hin Hlive]. unfold live_session in Hlive.
    repeat (apply andb_true_iff in Hlive as [Hlive _]).
    apply String.eqb_eq in Hlive.
    apply token_hash_not_taken in Et. destruct Et.
    rewrite <- Hlive. now apply in_map. }
  assert (Hrow : live_session d' (hashToken accessToken) later row = true).
  { unfold live_session, owner_of. cbn [token_hash is_valid expires_at
      session_user_id users row d'].
    rewrite String.eqb_refl, Howner, Hactive.
    apply Z.leb_le in Hlater. unfold text_ltb, datetime_now.
    unfold datetime_now in Hlater. now rewrite Hlater. }
  assert (Hfind : find (live_session d' (hashToken accessToken) later)
                       (sessions d') = Some row).
  { cbn [sessions d']. now rewrite (find_snoc _ _ _ Hnone), Hrow. }
  split; [exact Hfind|].
  unfold Jwt.validateSession. rewrite Hfind.
  unfold owner_of. cbn [session_user_id users row d']. now rewrite Howner.
Qed.

(** Logging out with the access token also ends the refresh token of the
    session.  In a table that meets its constraints, after
    [invalidateSession] for the access token of a row, a refresh with the
    token that carries the refresh digest of that row fails as revoked and
    changes nothing. *)
Theorem logout_ends_refresh_token
    (token refreshToken h : string) (d : database) (s : session_row)
    (decoded : decoded_token) (now : Z) :
  well_formed d ->
  In s (sessions d) ->
  token_hash s = hashToken token ->
  refresh_token_hash s = Some h ->
  tokenHash (body decoded) = Some h ->
  Jwt.verifyRefreshToken jwt_verify refreshToken now = Verified decoded ->
  let d' := fst (invalidateSession token d) in
  refreshAccessToken refreshToken d' now
  = (d', RefreshFailure refresh_revoked_msg).
Proof.
  intros Hwf Hin Hh Hr Htok Hv.
  apply (refreshAccessToken_after_revocation jwt_sign jwt_verify hashToken
           token refreshToken d now decoded); [exact Hv|].
  intros s' Hin' Hr'. rewrite Htok in Hr'.
  assert (s' = s) as ->; [|exact Hh].
  apply (same_refresh_digest_same_row (sessions d) s' s h); try assumption.
  apply Hwf.
Qed.

End WithPrimitives.

End SessionRoundTrips.

(** ** The session properties on the example database *)

Module SessionDemos.
Import Db Jwt SessionInvariant.

Local Open Scope Z_scope.

Lemma demo_db_well_formed : well_formed demo_db.
Proof.
  constructor; simpl.
  - repeat constructor. intros [].
  - intros s [<-|[]]. simpl. lia.
  - repeat constructor. intros [].
  - repeat constructor. intros [].
Qed.

Definition demo_calls : list operation :=
  [ CallStoreSession 1 "access@4000.ayu" "sha256(decaf)" 4000;
    CallStoreSession 1 "access@4000.ayu" "sha256(f00d)" 4001;
    CallRefreshAccessToken demo_refresh_token 5000;
    CallInvalidateSession "access@4000.ayu";
    CallCleanExpiredSessions 6000 ].

Lemma well_formed_preserved_witness :
  well_formed
    (perform_all demo_sign demo_verify demo_decode demo_hash demo_db
                 demo_calls).
Proof.
  apply well_formed_preserved. exact demo_db_well_formed.
Defined.

Definition demo_stored : database * js_result Z :=
  storeSession demo_decode demo_hash 1 "access@4000.ayu" "sha256(decaf)"
               demo_db 4000.

Example demo_stored_id : snd demo_stored = Returns 11.
Proof. reflexivity. Qed.

(** The token of the stored session, presented three hours after its [exp]
    of 604801 seconds, which is still the UTC day of [exp]: the row is
    found. *)
Lemma stored_session_is_found_and_refused_witness :
  find (live_session (fst demo_stored) (demo_hash "access@4000.ayu")
                     615600000)
       (sessions (fst demo_stored))
  = Some (mkSession 11 1 (demo_hash "access@4000.ayu") (Some "sha256(decaf)")
                    (IsoString (604801 * 1000)) 4000 true) /\
  validateSession demo_hash "access@4000.ayu" (fst demo_stored) 615600000
  = (fst demo_stored, SessionInvalid session_failed_msg).
Proof.
  apply (SessionRoundTrips.stored_session_is_found_and_refused demo_decode
           demo_hash 1 "access@4000.ayu" "sha256(decaf)" demo_db
           (fst demo_stored) 4000 615600000 11
           (mkDecoded demo_access_payload 604801) demo_user);
    try reflexivity; vm_compute; discriminate.
Defined.

Lemma logout_ends_refresh_token_witness :
  let d' := fst (invalidateSession demo_hash demo_access_token demo_db) in
  refreshAccessToken demo_sign demo_verify demo_hash demo_refresh_token d' 5000
  = (d', RefreshFailure refresh_revoked_msg).
Proof.
  apply (SessionRoundTrips.logout_ends_refresh_token demo_sign demo_verify
           demo_hash demo_access_token demo_refresh_token "sha256(c0ffee)"
           demo_db demo_session (mkDecoded demo_refresh_payload 2592001) 5000).
  - exact demo_db_well_formed.
  - now left.
  - reflexivity.
  - reflexivity.
  - reflexivity.
  - reflexivity.
Defined.

(** A table with a live row; a row that expired at 2000, on the day of the
    sweep; a row that expired the day before; and a revoked row. *)
Definition demo_expired_today : session_row :=
  mkSession 11 1 "sha256(old)" (Some "sha256(r-old)") (IsoString 2000) 1500
            true.

Definition demo_mixed : database :=
  mkDb [demo_user]
       [ demo_session;
         demo_expired_today;
         mkSession 12 1 "sha256(older)" (Some "sha256(r-older)")
                   (IsoString (-1)) 1500 true;
         mkSession 13 1 "sha256(out)" (Some "sha256(r-out)")
                   (IsoString 604801000) 1500 false ]
       14 [].

(** The sweep at 3000 deletes the last two rows and keeps the row that
    expired a second before it. *)
Example demo_sweep :
  cleanExpiredSessions demo_mixed 3000
  = (mkDb [demo_user] [demo_session; demo_expired_today] 14 [], 2).
Proof. reflexivity. Qed.

Lemma cleanExpiredSessions_keeps_live_sessions_witness :
  let d' := fst (cleanExpiredSessions demo_mixed 3000) in
  find (live_session d' (demo_hash demo_access_token) 4000) (sessions d')
  = find (live_session demo_mixed (demo_hash demo_access_token) 4000)
         (sessions demo_mixed) /\
  snd (validateSession demo_hash demo_access_token d' 4000)
  = snd (validateSession demo_hash demo_access_token demo_mixed 4000) /\
  Z.of_nat (List.length (sessions demo_mixed))
  = Z.of_nat (List.length (sessions d'))
    + snd (cleanExpiredSessions demo_mixed 3000).
Proof.
  apply (SessionFacts.cleanExpiredSessions_keeps_live_sessions demo_hash
           demo_mixed 3000 4000 demo_access_token).
  lia.
Defined.

Example demo_logout_everywhere :
  map is_valid (sessions (fst (invalidateAllUserSessions 1 demo_mixed)))
  = [false; false; false; false] /\
  snd (invalidateAllUserSessions 1 demo_mixed) = 3.
Proof. split; reflexivity. Qed.

End SessionDemos.

(** ** More on login and on the middleware
       (controllers/authController.js, middleware/auth.js) *)

Module LoginFacts.
Import Db Jwt AuthController.

Local Open Scope Z_scope.

Lemma find_by_id us u :
  NoDup (map user_id us) -> In u us ->
  find (fun x => user_id x =? user_id u) us = Some u.
Proof.
  induction us as [|x us IH]; simpl; intros Hnd Hin; [contradiction|].
  inversion_clear Hnd as [|? ? Hnotin Hrest].
  destruct Hin as [->|Hin]; [now rewrite Z.eqb_refl|].
  destruct (user_id x =? user_id u) eqn:E; [|now apply IH].
  apply Z.eqb_eq in E. destruct Hnotin. rewrite E. now apply in_map.
Qed.

Section WithPrimitives.

Variable bcrypt_compare : string -> string -> js_result bool.
Variable jwt_sign : payload -> Z -> string.
Variable jwt_verify : string -> Z -> jwt_verdict.
Variable jwt_decode : string -> option decoded_token.
Variable hashToken : string -> string.

Local Abbreviation login :=
  (AuthController.login bcrypt_compare jwt_sign jwt_decode hashToken).
Local Abbreviation authenticateToken :=
  (Middleware.authenticateToken jwt_verify hashToken).

(** The right password is answered 500.  For an active identity that is
    not locked, a request with the password that [bcrypt.compare] accepts
    runs into the refused UPDATE: the reply is the 500 of the handler, the
    database is as before (the failed attempts and a lock that has run out
    stay on the row, no session is stored, nothing is logged), and the call
    of [verifyPassword] is the only trace. *)
Theorem right_password_is_answered_500
    (identifier password : string) (rnd : list byte) (w : world) (now : Z)
    (user : user_row) :
  JsString.falsy identifier = false ->
  JsString.falsy password = false ->
  find (user_matches (sanitizeInput identifier)) (users (store w)) = Some user ->
  is_active user = true ->
  locked_at user now = None ->
  bcrypt_compare password (password_hash user) = Returns true ->
  login identifier password rnd w now
  = (mkWorld (store w)
             (hasher_calls w ++ [(password, password_hash user)])%list,
     Rejected 500 LoginFailed).
Proof.
  intros Hi Hp Hfind Hact Hlock Hok.
  unfold AuthController.login, Hasher.verifyPassword_value,
    Hasher.verifyPassword.
  rewrite Hi, Hp, Hfind, Hact, Hlock, Hok. reflexivity.
Qed.

(** No call of [login] logs anybody in: every reply is a rejection, and the
    sessions table and the next session id are as before the call. *)
Theorem login_never_opens_a_session
    (identifier password : string) (rnd : list byte) (w : world) (now : Z) :
  (exists status error,
      snd (login identifier password rnd w now) = Rejected status error) /\
  sessions (store (fst (login identifier password rnd w now)))
  = sessions (store w) /\
  next_session_id (store (fst (login identifier password rnd w now)))
  = next_session_id (store w).
Proof.
  unfold AuthController.login.
  destruct (_ || _); [simpl; eauto|].
  destruct (find _ _) as [user|]; [|simpl; eauto].
  destruct (negb (is_active user)); [simpl; eauto|].
  destruct (locked_at user now); [simpl; eauto|].
  destruct (negb _).
  - unfold record_failure. cbv zeta.
    destruct (5 <=? login_attempts user + 1); simpl; eauto.
  - unfold open_session, reset_login_attempts. simpl. eauto.
Qed.

(** The middleware lets no request through.  Whatever the header, the
    database and the instant, [authenticateToken] answers 401 and leaves
    the database as it is: a token that verifies and whose row is found
    ends in the refused UPDATE of [validateSession]. *)
Theorem authenticateToken_never_passes
    (authHeader : option string) (d : database) (now : Z) :
  exists error,
    authenticateToken authHeader d now = (d, Middleware.Respond 401 error).
Proof.
  unfold Middleware.authenticateToken.
  destruct (Middleware.bearer_token authHeader) as [token|]; [|eauto].
  destruct (verifyAccessToken jwt_verify token now) as [decoded|error];
    [|eauto].
  destruct (validateSession_never_valid hashToken token d now)
    as (error & E & _).
  rewrite E. eauto.
Qed.

End WithPrimitives.

Lemma right_password_is_answered_500_witness :
  let w5 := fst (demo_login_all five_wrong demo_world) in
  demo_login "demo" w5 1900000
  = (mkWorld (store w5) (hasher_calls w5 ++ [("demo", "$2b$12$demo")])%list,
     Rejected 500 LoginFailed).
Proof.
  apply (right_password_is_answered_500 demo_compare demo_sign demo_decode
           demo_hash "ayu" "demo" [] _ 1900000
           (mkUser 1 "ayu" "ayu@example.com" "$2b$12$demo" None 5
                   (Some 1805000) true));
    reflexivity.
Defined.

End LoginFacts.

(** ** The import loop (controllers/exportController.js)

    The transaction of [importVault]: an optional DELETE of the accounts of
    the user, then one INSERT per account of the file.  A failure inside the
    loop body is caught per account; what escapes the callback rolls the
    transaction back. *)

Module ImportLoop.
Import ExportCodec.

Local Open Scope Z_scope.

(** A row of the accounts table, with the values bound to the INSERT. *)
Record account_row : Type := mkAccount {
  account_user_id : Z;
  site_name : json;
  site_url : json;
  account_username : json;
  account_email : json;
  password_encrypted : string;
  notes_encrypted : option string;
  category : json;
  is_favorite : Z
}.

(** An entry of [errors]: the fixed text for missing fields, or
    [`Error importing ${account.siteName}: ${err.message}`]. *)
Inductive import_error_entry : Type :=
| MissingRequiredFields
| ErrorImporting (siteName : option json) (message : string).

Record loop_state : Type := mkLoop {
  table : list account_row;
  drawn : nat;
  importedCount : Z;
  skippedCount : Z;
  errors : list import_error_entry
}.

(** Whether the conversion to a string that a template literal makes
    returns.  It throws a TypeError on an object that has a field
    [toString] of its own: the field is not a function, and the [valueOf]
    the object then falls back on gives no primitive.  An object without
    such a field is ["[object Object]"]; an array is the join of its
    elements, each converted in turn; [undefined] is ["undefined"]. *)
Fixpoint converts (v : json) : bool :=
  match v with
  | JObject fields =>
      negb (existsb (fun kv => String.eqb (fst kv) "toString") fields)
  | JArray items => forallb converts items
  | _ => true
  end.

Definition template_converts (v : option json) : bool :=
  match v with
  | Some x => converts x
  | None => true
  end.

Definition null_account_msg : string :=
  "Cannot read properties of null (reading 'siteName')".
Definition no_primitive_msg : string :=
  "Cannot convert object to primitive value".

(** [value || fallback] on a property. *)
Definition or_else (value : option json) (fallback : json) : json :=
  match value with
  | Some v => if truthy value then v else fallback
  | None => fallback
  end.

Section WithPrimitives.

Variable aes_cbc_encrypt : list byte -> list byte -> list byte -> list byte.
Variable aesKey : string.

(** The n-th value of [crypto.randomBytes(16)] in this run. *)
Variable draw : nat -> list byte.

(** The message with which the INSERT of a row throws, if it does. *)
Variable insert_refusal : account_row -> option string.

(** [encryptData(value)] for a truthy property value: a value that is not a
    string makes [cipher.update] throw, which [encryptData] rethrows. *)
Definition encrypt_value (value : json) (n : nat) : js_result string :=
  match value with
  | JString s =>
      Cipher.encryptData aes_cbc_encrypt aesKey (draw n) (Utf16.of_string s)
  | _ => Throws Cipher.encrypt_error
  end.

Definition skip (entry : import_error_entry) (n : nat) (st : loop_state)
  : loop_state :=
  mkLoop (table st) n (importedCount st) (skippedCount st + 1)
         (errors st ++ [entry])%list.

(** The handler of the loop body: it counts the account as skipped and
    formats the entry from [account.siteName].  Reading the property throws
    for [null], and the conversion throws for a value that has no string;
    either exception leaves the loop. *)
Definition on_error (account : json) (message : string) (n : nat)
    (st : loop_state) : js_result loop_state :=
  match account with
  | JNull => Throws null_account_msg
  | _ =>
      let siteName := property "siteName" account in
      if template_converts siteName
      then Returns (skip (ErrorImporting siteName message) n st)
      else Throws no_primitive_msg
  end.

(** One turn of the loop.  For a [null] element [account.siteName] throws
    in the body, which takes the turn to the handler. *)
Definition import_account (userId : Z) (account : json) (st : loop_state)
  : js_result loop_state :=
  match account with
  | JNull => on_error account null_account_msg (drawn st) st
  | _ =>
      if negb (truthy (property "siteName" account))
         || negb (truthy (property "password" account))
      then Returns (skip MissingRequiredFields (drawn st) st)
      else
        let siteName := property "siteName" account in
        match encrypt_value (or_else (property "password" account) JNull)
                            (drawn st) with
        | Throws message => on_error account message (S (drawn st)) st
        | Returns encryptedPassword =>
            let notes :=
              if truthy (property "notes" account)
              then Some (encrypt_value
                           (or_else (property "notes" account) JNull)
                           (S (drawn st)))
              else None in
            let n := if truthy (property "notes" account)
                     then S (S (drawn st)) else S (drawn st) in
            match notes with
            | Some (Throws message) => on_error account message n st
            | _ =>
                let encryptedNotes :=
                  match notes with
                  | Some (Returns text) => Some text
                  | _ => None
                  end in
                let row :=
                  mkAccount userId
                            (or_else siteName JNull)
                            (or_else (property "siteUrl" account) JNull)
                            (or_else (property "username" account) JNull)
                            (or_else (property "email" account) JNull)
                            encryptedPassword encryptedNotes
                            (or_else (property "category" account)
                                     (JString "general"))
                            (if truthy (property "isFavorite" account)
                             then 1 else 0) in
                match insert_refusal row with
                | Some message => on_error account message n st
                | None =>
                    Returns (mkLoop (table st ++ [row])%list n
                                    (importedCount st + 1) (skippedCount st)
                                    (errors st))
                end
            end
        end
  end.

Fixpoint import_loop (userId : Z) (accounts : list json) (st : loop_state)
  : js_result loop_state :=
  match accounts with
  | [] => Returns st
  | account :: rest =>
      match import_account userId account st with
      | Returns st' => import_loop userId rest st'
      | Throws message => Throws message
      end
  end.

Definition other_user (userId : Z) (row : account_row) : bool :=
  negb (account_user_id row =? userId).

(** [importTransaction(accounts, shouldClear)]: the table afterwards, and
    the returned counts; a throw rolls back to the table before. *)
Definition importTransaction (userId : Z) (accounts : list json)
    (shouldClear : bool) (rows : list account_row) (n : nat)
  : list account_row * js_result loop_state :=
  let cleared :=
    if shouldClear then filter (other_user userId) rows else rows in
  match import_loop userId accounts (mkLoop cleared n 0 0 []) with
  | Returns st => (table st, Returns st)
  | Throws message => (rows, Throws message)
  end.

Lemma on_error_shape account message n st st' :
  on_error account message n st = Returns st' ->
  exists entry, st' = skip entry n st.
Proof.
  unfold on_error. destruct account; try discriminate;
    destruct (template_converts _); try discriminate;
    intros H; inversion H; eauto.
Qed.

Lemma on_error_throws account message n st e :
  on_error account message n st = Throws e ->
  account = JNull \/ template_converts (property "siteName" account) = false.
Proof.
  unfold on_error. destruct account; auto;
    destruct (template_converts _) eqn:E; try discriminate; auto.
Qed.

(** A turn of the loop that does not throw either skips the account or
    appends one row of the user. *)
Lemma import_account_shape userId account st st' :
  import_account userId account st = Returns st' ->
  (exists entry n, st' = skip entry n st) \/
  (exists row n,
      account_user_id row = userId /\
      st' = mkLoop (table st ++ [row])%list n (importedCount st + 1)
                   (skippedCount st) (errors st)).
Proof.
  unfold import_account. intros H.
  assert (Hskip : forall message n,
             on_error account message n st = Returns st' ->
             (exists entry n, st' = skip entry n st) \/
             (exists row n,
                 account_user_id row = userId /\
                 st' = mkLoop (table st ++ [row])%list n
                              (importedCount st + 1) (skippedCount st)
                              (errors st))).
  { intros message n E. left. apply on_error_shape in E as [entry ->]. eauto. }
  destruct account;
    repeat match type of H with
           | (if ?c then _ else _) = _ => destruct c
           | match ?c with _ => _ end = _ => destruct c
           | _ => progress cbv zeta in H
           end;
    first [ discriminate
          | now apply Hskip in H
          | inversion H; subst;
            first [ left; eexists _, _; reflexivity
                  | right; eexists _, _; split; [|reflexivity]; reflexivity ] ].
Qed.

(** A turn of the loop that throws meets a [null], or a [siteName] that has
    no string. *)
Lemma import_account_throws userId account st e :
  import_account userId account st = Throws e ->
  account = JNull \/ template_converts (property "siteName" account) = false.
Proof.
  unfold import_account. intros H.
  destruct account;
    repeat match type of H with
           | (if ?c then _ else _) = _ => destruct c
           | match ?c with _ => _ end = _ => destruct c
           | _ => progress cbv zeta in H
           end;
    first [ discriminate | now apply on_error_throws in H ].
Qed.

(** What a turn of the loop does to the counters and to the table. *)
Lemma import_account_counts userId account st st' :
  import_account userId account st = Returns st' ->
  importedCount st' + skippedCount st'
  = importedCount st + skippedCount st + 1 /\
  Z.of_nat (List.length (errors st')) - skippedCount st'
  = Z.of_nat (List.length (errors st)) - skippedCount st /\
  Z.of_nat (List.length (table st')) - importedCount st'
  = Z.of_nat (List.length (table st)) - importedCount st /\
  0 <= importedCount st' - importedCount st /\
  0 <= skippedCount st' - skippedCount st /\
  exists added,
    table st' = (table st ++ added)%list /\
    Forall (fun row => account_user_id row = userId) added.
Proof.
  intros H.
  apply import_account_shape in H as [(e & n & ->)|(row & n & Hrow & ->)];
    unfold skip; simpl; rewrite ?length_app; simpl.
  - repeat split; try lia. exists []. now rewrite app_nil_r.
  - repeat split; try lia. exists [row]. split; [reflexivity|].
    now repeat constructor.
Qed.

Lemma import_loop_counts userId accounts : forall st st',
  import_loop userId accounts st = Returns st' ->
  importedCount st' + skippedCount st'
  = importedCount st + skippedCount st + Z.of_nat (List.length accounts) /\
  Z.of_nat (List.length (errors st')) - skippedCount st'
  = Z.of_nat (List.length (errors st)) - skippedCount st /\
  Z.of_nat (List.length (table st')) - importedCount st'
  = Z.of_nat (List.length (table st)) - importedCount st /\
  0 <= importedCount st' - importedCount st /\
  0 <= skippedCount st' - skippedCount st /\
  exists added,
    table st' = (table st ++ added)%list /\
    Forall (fun row => account_user_id row = userId) added.
Proof.
  induction accounts as [|a rest IH]; intros st st' H.
  - inversion H; subst. simpl. repeat split; try lia.
    exists []. now rewrite app_nil_r.
  - simpl in H. destruct (import_account userId a st) as [st1|] eqn:E1;
      [|discriminate].
    apply import_account_counts in E1
      as (A1 & B1 & C1 & D1 & E1 & added1 & T1 & F1).
    apply IH in H as (A2 & B2 & C2 & D2 & E2 & added2 & T2 & F2).
    change (List.length (a :: rest)) with (S (List.length rest)).
    repeat split; try lia.
    exists (added1 ++ added2)%list. split.
    + now rewrite T2, T1, app_assoc.
    + apply Forall_app. now split.
Qed.

(** A [null] among the accounts makes the loop throw. *)
Lemma import_loop_null userId accounts : forall st,
  In JNull accounts -> exists e, import_loop userId accounts st = Throws e.
Proof.
  induction accounts as [|a rest IH]; intros st Hin; [contradiction|].
  simpl. destruct (import_account userId a st) as [st1|e] eqn:E1; [|eauto].
  destruct Hin as [->|Hin]; [discriminate|]. now apply IH.
Qed.

(** A loop that throws met an account that makes a turn throw. *)
Lemma import_loop_throws userId accounts : forall st e,
  import_loop userId accounts st = Throws e ->
  exists account,
    In account accounts /\
    (account = JNull \/
     template_converts (property "siteName" account) = false).
Proof.
  induction accounts as [|a rest IH]; intros st e H; [discriminate|].
  simpl in H. destruct (import_account userId a st) as [st1|e1] eqn:E1.
  - apply IH in H as (account & Hin & Hc). exists account. split; [now right|].
    exact Hc.
  - exists a. split; [now left|].
    now apply import_account_throws in E1.
Qed.

(** Every account of the file is counted once.  When the transaction
    returns, the imported and the skipped accounts add up to the accounts in
    the file, there is one error entry per skipped account, the table holds
    the rows it had (those of other users only, after a clearing import)
    followed by one new row of the user per imported account. *)
Theorem importTransaction_counts_every_account
    (userId : Z) (accounts : list json) (shouldClear : bool)
    (rows rows' : list account_row) (n : nat) (result : loop_state) :
  importTransaction userId accounts shouldClear rows n
  = (rows', Returns result) ->
  importedCount result + skippedCount result
  = Z.of_nat (List.length accounts) /\
  Z.of_nat (List.length (errors result)) = skippedCount result /\
  0 <= importedCount result /\ 0 <= skippedCount result /\
  exists added,
    rows' = ((if shouldClear then filter (other_user userId) rows else rows)
             ++ added)%list /\
    Z.of_nat (List.length added) = importedCount result /\
    Forall (fun row => account_user_id row = userId) added.
Proof.
  unfold importTransaction. intros H.
  destruct (import_loop userId accounts _) as [st|e] eqn:E; [|discriminate].
  inversion H; subst rows' result; clear H.
  apply import_loop_counts in E as (A & B & C & D & E' & added & T & F).
  simpl in A, B, C, D, E', T.
  assert (Hlen : Z.of_nat (List.length added) = importedCount st).
  { rewrite T, length_app in C. lia. }
  repeat split; try lia. exists added. now repeat split.
Qed.

(** One [null] among the accounts undoes the whole import: the transaction
    then throws.  Whenever the transaction throws, the table is the one
    from before, also when the import was to replace the vault, and the
    file holds a [null] or an account whose [siteName] has no string. *)
Theorem importTransaction_null_account_aborts
    (userId : Z) (accounts : list json) (shouldClear : bool)
    (rows : list account_row) (n : nat) :
  (In JNull accounts ->
   exists message,
     snd (importTransaction userId accounts shouldClear rows n)
     = Throws message) /\
  (forall message,
     snd (importTransaction userId accounts shouldClear rows n)
     = Throws message ->
     fst (importTransaction userId accounts shouldClear rows n) = rows /\
     exists account,
       In account accounts /\
       (account = JNull \/
        template_converts (property "siteName" account) = false)).
Proof.
  unfold importTransaction.
  set (st0 := mkLoop _ n 0 0 []). split.
  - intros Hin. destruct (import_loop_null userId accounts st0 Hin) as [e E].
    rewrite E. simpl. eauto.
  - intros message.
    destruct (import_loop userId accounts st0) as [st|e] eqn:E; simpl;
      [discriminate|].
    intros _. split; [reflexivity|]. now apply import_loop_throws in E.
Qed.

End WithPrimitives.

(** A file with one good account, one without password, one that is a
    number, and one whose password is a number. *)
Definition demo_file : list json :=
  [ JObject [("siteName", JString "github"); ("password", JString "hunter2");
             ("notes", JString "work"); ("isFavorite", JBool true)];
    JObject [("siteName", JString "gitlab")];
    JNumber 5;
    JObject [("siteName", JString "bank"); ("password", JNumber 1234)] ].

Definition demo_import (accounts : list json) (shouldClear : bool)
    (rows : list account_row) : list account_row * js_result loop_state :=
  importTransaction Cipher.id_encrypt Cipher.demo_key
                    (fun _ => Cipher.demo_iv x2a) (fun _ => None)
                    1 accounts shouldClear rows 0.

Definition other_row : account_row :=
  mkAccount 2 (JString "mail") JNull JNull JNull "00:00" None
            (JString "general") 0.

Definition own_row : account_row :=
  mkAccount 1 (JString "old") JNull JNull JNull "00:00" None
            (JString "general") 0.

Definition imported_row : account_row :=
  mkAccount 1 (JString "github") JNull JNull JNull
            "2a000000000000000000000000000000:68756e74657232"
            (Some "2a000000000000000000000000000000:776f726b")
            (JString "general") 1.

Example demo_import_replace :
  demo_import demo_file true [other_row; own_row]
  = ([other_row; imported_row],
     Returns (mkLoop [other_row; imported_row] 3 1 3
                [MissingRequiredFields; MissingRequiredFields;
                 ErrorImporting (Some (JString "bank"))
                                Cipher.encrypt_error])).
Proof. vm_compute. reflexivity. Qed.

Example demo_import_with_null :
  demo_import (demo_file ++ [JNull])%list true [other_row; own_row]
  = ([other_row; own_row], Throws null_account_msg).
Proof. vm_compute. reflexivity. Qed.

(** A file without [null] that aborts all the same: the password is a
    number, so [encryptData] throws, and the [siteName] is an object with a
    field [toString], so the handler throws while it formats the entry. *)
Example demo_import_with_unprintable_name :
  demo_import
    (demo_file
     ++ [JObject [("siteName", JObject [("toString", JNull)]);
                  ("password", JNumber 1234)]])%list
    true [other_row; own_row]
  = ([other_row; own_row], Throws no_primitive_msg).
Proof. vm_compute. reflexivity. Qed.

Lemma importTransaction_counts_every_account_witness :
  exists added,
    [other_row; imported_row]
    = (filter (other_user 1) [other_row; own_row] ++ added)%list /\
    Z.of_nat (List.length added) = 1 /\
    Forall (fun row => account_user_id row = 1) added.
Proof.
  destruct (importTransaction_counts_every_account Cipher.id_encrypt
              Cipher.demo_key
              (fun _ => Cipher.demo_iv x2a) (fun _ => None)
              1 demo_file true [other_row; own_row]
              [other_row; imported_row] 0
              (mkLoop [other_row; imported_row] 3 1 3
                 [MissingRequiredFields; MissingRequiredFields;
                  ErrorImporting (Some (JString "bank"))
                                 Cipher.encrypt_error]))
    as (_ & _ & _ & _ & Hadded).
  - vm_compute. reflexivity.
  - exact Hadded.
Defined.

End ImportLoop.

(** ** The status gate (middleware/auth.js) and the lock set by [login] *)

Module StatusGate.
Import Db Jwt AuthController LoginFacts.

Local Open Scope Z_scope.

Inductive status_error : Type :=
| UserNotFound          (* User tidak ditemukan *)
| UserDeactivated       (* Akun Anda telah dinonaktifkan. ... *)
| UserLockedUntil (unlockTime : Z).
    (* Akun Anda terkunci hingga ${unlockTime.toLocaleString('id-ID')} *)

Inductive status_verdict : Type :=
| StatusNext
| StatusRespond (status : Z) (error : status_error).

(** [validateUserStatus], for [req.user.id]. *)
Definition validateUserStatus (userId : Z) (d : database) (now : Z)
  : status_verdict :=
  match find (fun u => user_id u =? userId) (users d) with
  | None => StatusRespond 404 UserNotFound
  | Some user =>
      if negb (is_active user) then StatusRespond 403 UserDeactivated
      else
        match locked_at user now with
        | Some unlockTime => StatusRespond 403 (UserLockedUntil unlockTime)
        | None => StatusNext
        end
  end.

Section WithPrimitives.

Variable bcrypt_compare : string -> string -> js_result bool.
Variable jwt_sign : payload -> Z -> string.
Variable jwt_decode : string -> option decoded_token.
Variable hashToken : string -> string.

Local Abbreviation login :=
  (AuthController.login bcrypt_compare jwt_sign jwt_decode hashToken).

(** The lock set by failed logins also shuts out the owner who is logged
    in.  When a failed login brings the count of an identity to five or
    more, then for the thirty minutes that follow, [validateUserStatus]
    answers 403 to every request made for that identity, whatever session
    the request comes with. *)
Theorem failed_logins_lock_out_open_sessions
    (identifier password : string) (rnd : list byte) (w : world)
    (now later : Z) (user : user_row) :
  JsString.falsy identifier = false ->
  JsString.falsy password = false ->
  find (user_matches (sanitizeInput identifier)) (users (store w)) = Some user ->
  NoDup (map user_id (users (store w))) ->
  is_active user = true ->
  locked_at user now = None ->
  4 <= login_attempts user ->
  Hasher.verifyPassword_value bcrypt_compare password (password_hash user)
    = false ->
  now <= later < now + lock_duration ->
  let w' := fst (login identifier password rnd w now) in
  validateUserStatus (user_id user) (store w') later
  = StatusRespond 403 (UserLockedUntil (now + lock_duration)).
Proof.
  intros Hi Hp Hfind Hnd Hact Hlock Hfour Hwrong Hlater w'.
  unfold w'. rewrite (login_wrong_password bcrypt_compare jwt_sign jwt_decode
                        hashToken identifier password rnd w now user)
    by assumption.
  cbn [fst store]. unfold record_failure. cbv zeta.
  assert (H5 : (5 <=? login_attempts user + 1) = true)
    by (apply Z.leb_le; lia).
  rewrite H5. unfold validateUserStatus. cbn [fst users logActivity with_users].
  pose proof (find_some _ _ Hfind) as [Hin _].
  set (f := set_login_attempts_and_lock (login_attempts user + 1)
              (now + lock_duration) (user_id user)).
  assert (Hrow : find (fun u => user_id u =? user_id (f user))
                      (map f (users (store w))) = Some (f user)).
  { apply (find_by_id (map f (users (store w))) (f user)).
    - rewrite map_map. erewrite map_ext; [exact Hnd|].
      intros u. unfold f, set_login_attempts_and_lock.
      now destruct (user_id u =? user_id user).
    - now apply in_map. }
  assert (Hid : user_id (f user) = user_id user).
  { unfold f, set_login_attempts_and_lock. now rewrite Z.eqb_refl. }
  rewrite Hid in Hrow. rewrite Hrow.
  unfold f, set_login_attempts_and_lock, locked_at.
  rewrite Z.eqb_refl. simpl. rewrite Hact. simpl.
  assert (Hlt : (later <? now + lock_duration) = true)
    by (apply Z.ltb_lt; lia).
  now rewrite Hlt.
Qed.

End WithPrimitives.

Lemma failed_logins_lock_out_open_sessions_witness :
  let w4 := fst (demo_login_all [("a", 1000); ("b", 2000); ("c", 3000);
                                 ("d", 4000)] demo_world) in
  let w' := fst (demo_login "e" w4 5000) in
  validateUserStatus 1 (store w') 6000
  = StatusRespond 403 (UserLockedUntil (5000 + lock_duration)).
Proof.
  apply (failed_logins_lock_out_open_sessions demo_compare demo_sign
           demo_decode demo_hash "ayu" "e" []
           (fst (demo_login_all [("a", 1000); ("b", 2000); ("c", 3000);
                                 ("d", 4000)] demo_world))
           5000 6000
           (mkUser 1 "ayu" "ayu@example.com" "$2b$12$demo" None 4 None true));
    try reflexivity;
    first [ lia | unfold lock_duration; lia | repeat constructor; intros [] ].
Defined.

End StatusGate.

(** ** Ratings in order (utils/encryption.js) *)

Module PasswordRating.
Import PasswordPolicy.

(** The place of a rating in the order weak, medium, strong, very-strong. *)
Definition rank (rating : string) : nat :=
  if String.eqb rating "weak" then 0
  else if String.eqb rating "medium" then 1
  else if String.eqb rating "strong" then 2
  else 3.

Lemma rank_of_score password :
  rank (calculatePasswordStrength password)
  = (if (strength_score password <=? 3)%nat then 0
     else if (strength_score password <=? 5)%nat then 1
     else if (strength_score password <=? 7)%nat then 2 else 3)%nat.
Proof.
  unfold calculatePasswordStrength.
  destruct (strength_score password <=? 3)%nat; [reflexivity|].
  destruct (strength_score password <=? 5)%nat; [reflexivity|].
  destruct (strength_score password <=? 7)%nat; reflexivity.
Qed.

(** A longer password is never rated lower: adding characters at the end of
    a password leaves its rating or raises it. *)
Theorem rating_never_drops_when_extended (password more : string) :
  (rank (calculatePasswordStrength password)
   <= rank (calculatePasswordStrength (password ++ more)))%nat.
Proof.
  pose proof (strength_score_monotone password more) as Hmono.
  rewrite !rank_of_score.
  repeat match goal with
         | |- context [(?a <=? ?b)%nat] =>
             let E := fresh "E" in
             destruct (a <=? b)%nat eqn:E;
             [apply Nat.leb_le in E | apply Nat.leb_gt in E]
         end; lia.
Qed.

End PasswordRating.

(** ** Rotation hands the session over (utils/jwt.js) *)

Module SessionRotation.
Import Db Jwt SessionInvariant.

Local Open Scope Z_scope.

Lemma find_rotated (p : session_row -> bool) h now (s : session_row) ss :
  NoDup (map session_id ss) ->
  In s ss ->
  p (rotate_session h now (session_id s) s) = true ->
  (forall x, In x ss -> session_id x <> session_id s -> p x = false) ->
  find p (map (rotate_session h now (session_id s)) ss)
  = Some (rotate_session h now (session_id s) s).
Proof.
  induction ss as [|x ss IH]; simpl; intros Hnd Hin Hp Hothers;
    [contradiction|].
  inversion_clear Hnd as [|? ? Hnotin Hrest].
  destruct Hin as [->|Hin]; [now rewrite Hp|].
  assert (Hne : session_id x <> session_id s).
  { intros E. apply Hnotin. rewrite E. now apply in_map. }
  assert (Hx : rotate_session h now (session_id s) x = x).
  { now apply rotate_session_fields. }
  rewrite Hx, (Hothers x (or_introl eq_refl) Hne).
  apply IH; auto.
Qed.

Section WithPrimitives.

Variable jwt_sign : payload -> Z -> string.
Variable jwt_verify : string -> Z -> jwt_verdict.
Variable hashToken : string -> string.

Local Abbreviation validateSession := (Jwt.validateSession hashToken).
Local Abbreviation refreshAccessToken :=
  (Jwt.refreshAccessToken jwt_sign jwt_verify hashToken).

(** After a successful refresh the session is found under the new access
    token and no longer under the old one.  In a table that meets its
    constraints, when the refresh found the row [session], whose user row
    is active, then for the seven days that follow the SELECT of
    [validateSession] finds that row for the returned token (and the call
    ends in its refused UPDATE), while the token whose digest the row held
    before, if its digest is not the new one, finds no row. *)
Theorem refresh_hands_session_over
    (refreshToken oldToken accessToken : string) (d d' : database)
    (now later : Z) (info : user_info) (decoded : decoded_token)
    (session : session_row) (owner : user_row) :
  well_formed d ->
  refreshAccessToken refreshToken d now = (d', RefreshSuccess accessToken info) ->
  Jwt.verifyRefreshToken jwt_verify refreshToken now = Verified decoded ->
  find (refresh_match (tokenHash (body decoded))) (sessions d) = Some session ->
  owner_of d session = Some owner ->
  is_active owner = true ->
  token_hash session = hashToken oldToken ->
  hashToken oldToken <> hashToken accessToken ->
  later / 1000 < now / 1000 + seven_days ->
  (exists found,
      find (live_session d' (hashToken accessToken) later) (sessions d')
      = Some found /\
      session_id found = session_id session /\
      session_user_id found = session_user_id session /\
      validateSession accessToken d' later
      = (d', SessionInvalid session_failed_msg)) /\
  validateSession oldToken d' later = (d', SessionInvalid session_missing_msg).
Proof.
  intros Hwf Hr Hv Hs Howner Hact Hold Hdiff Hlater.
  apply refreshAccessToken_success_inv in Hr
    as (decoded0 & session0 & owner0 & Hv0 & Hs0 & _ & _ & _ & Ht & ->).
  rewrite Hv in Hv0. inversion Hv0; subst decoded0; clear Hv0.
  rewrite Hs in Hs0. inversion Hs0; subst session0; clear Hs0.
  pose proof (find_some _ _ Hs) as [Hin Hm].
  apply refresh_match_true in Hm as (h & _ & _ & Hvalid).
  destruct Hwf as [Hid _ Hdig _].
  set (ha := hashToken accessToken) in *.
  set (rot := rotate_session ha now (session_id session)).
  set (d' := with_sessions d (map rot (sessions d))).
  pose proof (rotate_session_fields ha now (session_id session) session)
    as (Rid & Ruser & _ & _ & Rvalid & _ & Rset).
  cbv zeta in Rid, Ruser, Rvalid, Rset.
  destruct (Rset eq_refl) as [Rhash Rexp]. fold rot in Rid, Ruser, Rvalid, Rhash, Rexp.
  split.
  - assert (Hfind : find (live_session d' ha later) (sessions d')
                    = Some (rot session)).
    { apply find_rotated; try assumption.
      - unfold live_session, owner_of. fold rot.
        rewrite Rhash, Rvalid, Hvalid, Rexp, Ruser, String.eqb_refl.
        simpl. unfold owner_of in Howner. rewrite Howner, Hact.
        apply Z.ltb_lt in Hlater. now rewrite Hlater.
      - intros x Hx Hne. unfold live_session.
        replace (String.eqb (token_hash x) ha) with false; [reflexivity|].
        symmetry. apply String.eqb_neq. intros E.
        assert (existsb (fun s0 => String.eqb (token_hash s0) ha
                                   && negb (session_id s0 =? session_id session))
                        (sessions d) = true) as Hex.
        { apply existsb_exists. exists x. split; [exact Hx|].
          rewrite E, String.eqb_refl. simpl.
          now apply negb_true_iff, Z.eqb_neq. }
        unfold token_hash_taken in Ht. rewrite Hex in Ht. discriminate. }
    exists (rot session). split; [exact Hfind|]. split; [exact Rid|].
    split; [exact Ruser|].
    unfold Jwt.validateSession. fold ha. rewrite Hfind.
    unfold owner_of. simpl users. rewrite Ruser.
    unfold owner_of in Howner. now rewrite Howner.
  - apply validateSession_revoked.
    intros s' Hin' Hh. simpl in Hin'.
    apply in_map_iff in Hin' as (x & <- & Hx).
    pose proof (rotate_session_fields ha now (session_id session) x)
      as (_ & _ & _ & _ & _ & Xkeep & Xset).
    cbv zeta in Xkeep, Xset. fold rot in Xkeep, Xset, Hh.
    destruct (Z.eq_dec (session_id x) (session_id session)) as [E|E].
    + destruct (Xset E) as [Xh _]. rewrite Xh in Hh.
      destruct Hdiff. now symmetry.
    + rewrite (Xkeep E) in Hh |- *.
      exfalso. apply E. f_equal.
      clear - Hdig Hx Hin Hh Hold.
      induction (sessions d) as [|y l IH]; [contradiction|].
      simpl in Hdig. inversion_clear Hdig as [|? ? Hnotin Hrest].
      destruct Hx as [->|Hx], Hin as [->|Hin]; try reflexivity.
      * destruct Hnotin. rewrite Hh, <- Hold. now apply in_map.
      * destruct Hnotin. rewrite Hold, <- Hh. now apply in_map.
      * now apply IH.
Qed.

End WithPrimitives.

Lemma refresh_hands_session_over_witness :
  let d' := fst (demo_refresh demo_db 5000) in
  (exists found,
      find (live_session d' (demo_hash "access@5000.ayu") 6000) (sessions d')
      = Some found /\
      session_id found = session_id demo_session /\
      session_user_id found = session_user_id demo_session /\
      validateSession demo_hash "access@5000.ayu" d' 6000
      = (d', SessionInvalid session_failed_msg)) /\
  validateSession demo_hash demo_access_token d' 6000
  = (d', SessionInvalid session_missing_msg).
Proof.
  apply (refresh_hands_session_over demo_sign demo_verify demo_hash
           demo_refresh_token demo_access_token "access@5000.ayu" demo_db
           (fst (demo_refresh demo_db 5000)) 5000 6000 demo_info
           (mkDecoded demo_refresh_payload 2592001) demo_session demo_user);
    try reflexivity.
  - exact SessionDemos.demo_db_well_formed.
  - discriminate.
Defined.

End SessionRotation.

